(** * Spring RTS camera (rts/Game/Camera.cpp): a shallow embedding

    The C++ [float] is IEEE-754 binary32.  The control-flow part of the
    camera (clipping, visibility tests, edge scrolling, state copying) is
    embedded over [spec_float] at precision 24 and maximal exponent 128,
    so that comparisons, signed zeros, infinities and NaN behave as they
    do in the program.  The geometric identities (round trip between
    directions and rotations, orthogonality of the basis, the near/far
    ratio) are stated in [Module Exact] over the real numbers, that is
    up to floating-point rounding. *)

From Stdlib Require Import ZArith Bool List Lia SpecFloat.
From Stdlib Require Import Reals Lra.
Import ListNotations.

(** ** Binary32 arithmetic *)

Definition prec : Z := 24.
Definition emax : Z := 128.

Definition float := spec_float.

Declare Scope f32_scope.
Delimit Scope f32_scope with f32.

Definition fadd : float -> float -> float := SFadd prec emax.
Definition fsub : float -> float -> float := SFsub prec emax.
Definition fmul : float -> float -> float := SFmul prec emax.
Definition fdiv : float -> float -> float := SFdiv prec emax.
Definition fneg : float -> float := SFopp.
Definition fabs : float -> float := SFabs.
Definition fsqrt : float -> float := SFsqrt prec emax.

(** C++ comparison operators on [float]: every comparison with a NaN
    operand is false. *)
Definition flt : float -> float -> bool := SFltb.
Definition fgt (a b : float) : bool := SFltb b a.
Definition fle : float -> float -> bool := SFleb.
Definition feq : float -> float -> bool := SFeqb.
Definition fne (a b : float) : bool := negb (SFeqb a b).

Infix "+" := fadd : f32_scope.
Infix "-" := fsub : f32_scope.
Infix "*" := fmul : f32_scope.
Infix "/" := fdiv : f32_scope.
Notation "- x" := (fneg x) : f32_scope.
Infix "<?" := flt : f32_scope.
Infix ">?" := fgt (at level 70) : f32_scope.
Infix "<=?" := fle : f32_scope.
Infix "==" := feq (at level 70) : f32_scope.

(** Conversion [int -> float] (round to nearest even) and the decimal
    literals of the source, each the correctly rounded quotient of two
    exactly representable integers. *)
Definition Z2F (z : Z) : float := binary_normalize prec emax z 0 false.

Definition fzero : float := S754_zero false.
Definition fone : float := Eval vm_compute in Z2F 1.
Definition lit (num den : Z) : float := fdiv (Z2F num) (Z2F den).

Definition is_nan (x : float) : bool :=
  match x with S754_nan => true | _ => false end.

Definition is_finite (x : float) : bool :=
  match x with S754_zero _ | S754_finite _ _ _ => true | _ => false end.

Definition is_zero (x : float) : bool :=
  match x with S754_zero _ => true | _ => false end.

Definition zero_or_nan (x : float) : bool :=
  match x with S754_zero _ | S754_nan => true | _ => false end.

Definition has_sign (s : bool) (x : float) : bool :=
  match x with
  | S754_zero s' | S754_infinity s' | S754_finite s' _ _ => Bool.eqb s s'
  | S754_nan => false
  end.

(** Conversion [float -> int] truncates toward zero.  For NaN, the
    infinities and values out of the range of [int] the conversion is
    undefined in C++; the result modelled there is the one of the x86
    conversion instruction, [INT_MIN]. *)
Definition INT_MIN : Z := (- 2 ^ 31)%Z.
Definition INT_MAX : Z := (2 ^ 31 - 1)%Z.

(** An [int] result that leaves the range of [int]: the value modulo
    2^32 in [INT_MIN .. INT_MAX] (two's complement), which is what the
    left shift [viewSizeX << 1] of a positive width yields once the
    doubled width no longer fits. *)
Definition wrap_int (z : Z) : Z := ((z - INT_MIN) mod 2 ^ 32 + INT_MIN)%Z.

Definition F2Z (x : float) : Z :=
  match x with
  | S754_zero _ => 0%Z
  | S754_finite s m e =>
      let a := match e with
               | Zneg p => Z.shiftr (Zpos m) (Zpos p)
               | _ => Z.shiftl (Zpos m) e
               end in
      let v := if s then Z.opp a else a in
      if (INT_MIN <=? v)%Z && (v <=? INT_MAX)%Z then v else INT_MIN
  | _ => INT_MIN
  end.

(** [std::copysign(x, y)]: magnitude of [x], sign bit of [y]. *)
Definition sign_bit (x : float) : bool :=
  match x with
  | S754_zero s | S754_infinity s | S754_finite s _ _ => s
  | S754_nan => false
  end.

Definition copysign (x y : float) : float :=
  if sign_bit y then fneg (fabs x) else fabs x.

(** [std::max(a, b)] is [(a < b) ? b : a]. *)
Definition fmax (a b : float) : float := if flt a b then b else a.

(** ** float3

    The class is declared in System/float3.h, which is not among the
    sources; its operators are the componentwise ones, evaluated left
    to right. *)

Record float3 := mk3 { x3 : float; y3 : float; z3 : float }.

Definition ZeroVector : float3 := mk3 fzero fzero fzero.
Definition UpVector : float3 := mk3 fzero fone fzero.

Local Open Scope f32_scope.

Definition add3 (a b : float3) : float3 :=
  mk3 (x3 a + x3 b) (y3 a + y3 b) (z3 a + z3 b).
Definition sub3 (a b : float3) : float3 :=
  mk3 (x3 a - x3 b) (y3 a - y3 b) (z3 a - z3 b).
Definition neg3 (a : float3) : float3 :=
  mk3 (- x3 a) (- y3 a) (- z3 a).
Definition scale3 (a : float3) (f : float) : float3 :=
  mk3 (x3 a * f) (y3 a * f) (z3 a * f).
Definition dot (a b : float3) : float :=
  (x3 a * x3 b) + (y3 a * y3 b) + (z3 a * z3 b).
Definition cross (a b : float3) : float3 :=
  mk3 ((y3 a * z3 b) - (z3 a * y3 b))
      ((z3 a * x3 b) - (x3 a * z3 b))
      ((x3 a * y3 b) - (y3 a * x3 b)).
Definition SqLength (a : float3) : float :=
  (x3 a * x3 a) + (y3 a * y3 a) + (z3 a * z3 a).
Definition Square (x : float) : float := x * x.

Definition is_finite3 (v : float3) : bool :=
  is_finite (x3 v) && is_finite (y3 v) && is_finite (z3 v).

(** ** FrustumLine and ClipFrustumLines *)

Record FrustumLine := mkLine {
  base : float;
  dir  : float;
  sign : Z;
  minz : float;
  maxz : float
}.

Definition set_minz (l : FrustumLine) (v : float) : FrustumLine :=
  mkLine (base l) (dir l) (sign l) v (maxz l).
Definition set_maxz (l : FrustumLine) (v : float) : FrustumLine :=
  mkLine (base l) (dir l) (sign l) (minz l) v.

(** The body of the inner loop for [fli != fli2]: the new value of
    [*fli], and the divisors of the divisions that were evaluated. *)
Definition clipPair (zmin zmax : float) (fli fli2 : FrustumLine)
  : FrustumLine * list float :=
  let dbase := base fli - base fli2 in
  let ddir := dir fli - dir fli2 in
  if ddir == fzero then (fli, [])
  else
    let colz := - (dbase / ddir) in
    (if (Z2F (sign fli2) * ddir) >? fzero then
       if (colz >? minz fli) && (colz <? zmax) then set_minz fli colz else fli
     else
       if (colz <? maxz fli) && (colz >? zmin) then set_maxz fli colz else fli,
     [ddir]).

(** [lines[i] = v] on a vector; [i] is always in range here. *)
Fixpoint update {A} (i : nat) (v : A) (l : list A) : list A :=
  match l, i with
  | [], _ => []
  | _ :: t, O => v :: t
  | h :: t, S i' => h :: update i' v t
  end.

Definition dummyLine : FrustumLine := mkLine fzero fzero 0 fzero fzero.

(** One iteration of the inner loop: iterators [fli], [fli2] are the
    positions [i], [j] of the same vector. *)
Definition clipStep (zmin zmax : float) (i : nat)
  (st : list FrustumLine * list float) (j : nat)
  : list FrustumLine * list float :=
  let '(lines, divs) := st in
  if Nat.eqb i j then st
  else
    let '(l', d) := clipPair zmin zmax (nth i lines dummyLine)
                                       (nth j lines dummyLine) in
    (update i l' lines, divs ++ d).

Definition clipInner (zmin zmax : float) (n : nat)
  (st : list FrustumLine * list float) (i : nat) :=
  fold_left (clipStep zmin zmax i) (seq 0 n) st.

Definition clipLines (zmin zmax : float) (lines : list FrustumLine)
  : list FrustumLine * list float :=
  fold_left (clipInner zmin zmax (length lines)) (seq 0 (length lines))
            (lines, []).

(** What the loops do to line [i], written as one pass over the other
    lines in order. *)
Definition clipLineStep (zmin zmax : float) (lines : list FrustumLine)
  (i : nat) (acc : FrustumLine) (j : nat) : FrustumLine :=
  if Nat.eqb i j then acc
  else fst (clipPair zmin zmax acc (nth j lines dummyLine)).

(** The spec's wording of one ordered pair [(i, j)] of distinct lines:
    parallel pairs contribute nothing; otherwise the crossing
    [crossZ = -(base_i - base_j)/(slope_i - slope_j)] tightens [zMin]
    when [sign_j * (slope_i - slope_j) > 0] (only if it raises it and
    stays below the [zMax] bound) and [zMax] otherwise (only if it lowers
    it and stays above the [zMin] bound). *)
Definition spec_clipPair (zmin zmax : float) (li lj : FrustumLine)
  : FrustumLine :=
  if dir li == dir lj then li
  else
    let crossZ := - ((base li - base lj) / (dir li - dir lj)) in
    if (Z2F (sign lj) * (dir li - dir lj)) >? fzero
    then (if (crossZ >? minz li) && (crossZ <? zmax)
          then set_minz li crossZ else li)
    else (if (crossZ <? maxz li) && (crossZ >? zmin)
          then set_maxz li crossZ else li).

Definition spec_clipLine (zmin zmax : float) (lines : list FrustumLine)
  (i : nat) : FrustumLine :=
  fold_left
    (fun acc j => if Nat.eqb i j then acc
                  else spec_clipPair zmin zmax acc (nth j lines dummyLine))
    (seq 0 (length lines)) (nth i lines dummyLine).

Definition sameKey (a b : FrustumLine) : Prop :=
  base a = base b /\ dir a = dir b /\ sign a = sign b.

(** ** The camera object and the objects it reads *)

(** Camera roles.  Camera.h is not among the sources; the three roles
    the code names are [CAMTYPE_PLAYER], [CAMTYPE_SHADOW]
    and [CAMTYPE_VISCUL], the others stand for the remaining slots of
    [camTypes]. *)
Inductive CamType :=
  | CAMTYPE_PLAYER | CAMTYPE_UWREFL | CAMTYPE_SHADOW
  | CAMTYPE_ENVMAP | CAMTYPE_VISCUL | CAMTYPE_ACTIVE.

Definition CamType_eqb (a b : CamType) : bool :=
  match a, b with
  | CAMTYPE_PLAYER, CAMTYPE_PLAYER | CAMTYPE_UWREFL, CAMTYPE_UWREFL
  | CAMTYPE_SHADOW, CAMTYPE_SHADOW | CAMTYPE_ENVMAP, CAMTYPE_ENVMAP
  | CAMTYPE_VISCUL, CAMTYPE_VISCUL | CAMTYPE_ACTIVE, CAMTYPE_ACTIVE => true
  | _, _ => false
  end.

(** Indices of [frustumPlanes]. *)
Inductive FrustumPlane :=
  | FRUSTUM_PLANE_TOP | FRUSTUM_PLANE_BOT
  | FRUSTUM_PLANE_RGT | FRUSTUM_PLANE_LFT.

Definition FrustumPlane_eqb (a b : FrustumPlane) : bool :=
  match a, b with
  | FRUSTUM_PLANE_TOP, FRUSTUM_PLANE_TOP | FRUSTUM_PLANE_BOT, FRUSTUM_PLANE_BOT
  | FRUSTUM_PLANE_RGT, FRUSTUM_PLANE_RGT | FRUSTUM_PLANE_LFT, FRUSTUM_PLANE_LFT
    => true
  | _, _ => false
  end.

(** The range of [for (i = 0; i < FRUSTUM_PLANE_CNT; i++)].  The
    numbering of the planes is in Camera.h; the two loops over all
    planes that matter here are conjunctions, whose value does not
    depend on it. *)
Definition frustum_plane_indices : list FrustumPlane :=
  [FRUSTUM_PLANE_TOP; FRUSTUM_PLANE_BOT; FRUSTUM_PLANE_RGT; FRUSTUM_PLANE_LFT].

(** A 4x4 matrix is its sixteen entries. *)
Definition CMatrix44f := list float.

(** Indices of [movState]. *)
Inductive MoveState :=
  | MOVE_STATE_FWD | MOVE_STATE_BCK | MOVE_STATE_LFT | MOVE_STATE_RGT
  | MOVE_STATE_UP | MOVE_STATE_DWN | MOVE_STATE_FST | MOVE_STATE_SLW.

Record CCamera := mkCamera {
  pos : float3;
  rot : float3;
  forward : float3;
  right : float3;
  up : float3;
  fov : float;
  halfFov : float;
  tanHalfFov : float;
  lppScale : float;
  posOffset : float3;
  tiltOffset : float3;
  camType : CamType;
  viewport : list Z;
  movState : MoveState -> bool;
  rotState : list bool;
  projectionMatrix : CMatrix44f;
  viewMatrix : CMatrix44f;
  viewProjectionMatrix : CMatrix44f;
  viewMatrixInverse : CMatrix44f;
  projectionMatrixInverse : CMatrix44f;
  viewProjectionMatrixInverse : CMatrix44f;
  billboardMatrix : CMatrix44f;
  frustumPlanes : FrustumPlane -> float3;
  negFrustumSides : list FrustumLine;
  posFrustumSides : list FrustumLine
}.

(** The fields of [globalRendering] the camera reads or writes. *)
Record CGlobalRendering := mkGlobalRendering {
  viewSizeX : Z;
  viewSizeY : Z;
  viewPosX : Z;
  aspectRatio : float;
  zNear : float;
  viewRange : float;
  lastFrameTime : float;
  dualScreenMode : bool
}.

(** [configHandler] and [mouse], as far as the camera reads them. *)
Record ConfigHandler := mkConfig {
  EdgeMoveWidth : float;
  EdgeMoveDynamic : bool
}.

Record CMouseHandler := mkMouse { lastx : Z; lasty : Z }.

(** The static registry [camTypes]: one live camera per role. *)
Definition Cameras := CamType -> CCamera.

Definition setCamera (t : CamType) (c : CCamera) (cs : Cameras) : Cameras :=
  fun t' => if CamType_eqb t t' then c else cs t'.

(** *** Field updates *)

Definition set_frustumPlanes (c : CCamera) (f : FrustumPlane -> float3) :=
  mkCamera (pos c) (rot c) (forward c) (right c) (up c) (fov c) (halfFov c)
    (tanHalfFov c) (lppScale c) (posOffset c) (tiltOffset c) (camType c)
    (viewport c) (movState c) (rotState c) (projectionMatrix c) (viewMatrix c)
    (viewProjectionMatrix c) (viewMatrixInverse c) (projectionMatrixInverse c)
    (viewProjectionMatrixInverse c) (billboardMatrix c) f
    (negFrustumSides c) (posFrustumSides c).

Definition set_negFrustumSides (c : CCamera) (l : list FrustumLine) :=
  mkCamera (pos c) (rot c) (forward c) (right c) (up c) (fov c) (halfFov c)
    (tanHalfFov c) (lppScale c) (posOffset c) (tiltOffset c) (camType c)
    (viewport c) (movState c) (rotState c) (projectionMatrix c) (viewMatrix c)
    (viewProjectionMatrix c) (viewMatrixInverse c) (projectionMatrixInverse c)
    (viewProjectionMatrixInverse c) (billboardMatrix c) (frustumPlanes c)
    l (posFrustumSides c).

Definition set_posFrustumSides (c : CCamera) (l : list FrustumLine) :=
  mkCamera (pos c) (rot c) (forward c) (right c) (up c) (fov c) (halfFov c)
    (tanHalfFov c) (lppScale c) (posOffset c) (tiltOffset c) (camType c)
    (viewport c) (movState c) (rotState c) (projectionMatrix c) (viewMatrix c)
    (viewProjectionMatrix c) (viewMatrixInverse c) (projectionMatrixInverse c)
    (viewProjectionMatrixInverse c) (billboardMatrix c) (frustumPlanes c)
    (negFrustumSides c) l.

Definition setPlane (f : FrustumPlane -> float3) (i : FrustumPlane)
  (v : float3) : FrustumPlane -> float3 :=
  fun j => if FrustumPlane_eqb i j then v else f j.

(** ** CCamera::ClipFrustumLines *)

Definition selectedLines (neg : bool) (c : CCamera) : list FrustumLine :=
  if neg then negFrustumSides c else posFrustumSides c.

Definition ClipFrustumLines (neg : bool) (zmin zmax : float) (c : CCamera)
  : CCamera * list float :=
  let '(lines, divs) := clipLines zmin zmax (selectedLines neg c) in
  (if neg then set_negFrustumSides c lines else set_posFrustumSides c lines,
   divs).

(** ** CCamera::CopyState *)

Definition CopyState (self cam : CCamera) : CCamera :=
  mkCamera (pos cam) (rot cam) (forward cam) (right cam) (up cam)
    (fov self) (halfFov self) (tanHalfFov self)
    (lppScale cam)
    (posOffset self) (tiltOffset self)
    (camType cam)
    (viewport self) (movState self) (rotState self)
    (projectionMatrix self) (viewMatrix self) (viewProjectionMatrix self)
    (viewMatrixInverse self) (projectionMatrixInverse self)
    (viewProjectionMatrixInverse self) (billboardMatrix self)
    (fun i => frustumPlanes cam i)
    (negFrustumSides self) (posFrustumSides self).

(** ** CCamera::UpdateFrustum

    [math::tan] and [float3::UnsafeANormalize] (an approximate
    normalisation) are library code outside Camera.cpp and are taken as
    parameters. *)
Section Frustum.
Variable tan : float -> float.
Variable UnsafeANormalize : float3 -> float3.

Definition forwardy (c : CCamera) : float3 :=
  scale3 (neg3 (forward c)) (tanHalfFov c).
Definition forwardx (gr : CGlobalRendering) (c : CCamera) : float3 :=
  scale3 (neg3 (forward c)) (tan (aspectRatio gr * halfFov c)).

Definition computePlanes (gr : CGlobalRendering) (c : CCamera)
  : FrustumPlane -> float3 :=
  let fy := forwardy c in
  let fx := forwardx gr c in
  let p := frustumPlanes c in
  let p := setPlane p FRUSTUM_PLANE_TOP (UnsafeANormalize (add3 fy (up c))) in
  let p := setPlane p FRUSTUM_PLANE_BOT (UnsafeANormalize (sub3 fy (up c))) in
  let p := setPlane p FRUSTUM_PLANE_RGT (UnsafeANormalize (add3 fx (right c))) in
  let p := setPlane p FRUSTUM_PLANE_LFT (UnsafeANormalize (sub3 fx (right c))) in
  p.

(** [this] is the slot of [camTypes] holding the camera that runs the
    method; its [camType] field is read from the object. *)
Definition UpdateFrustum (gr : CGlobalRendering) (this : CamType)
  (cs : Cameras) : Cameras :=
  let c := cs this in
  let c' := set_frustumPlanes c (computePlanes gr c) in
  let cs1 := setCamera this c' cs in
  match camType c' with
  | CAMTYPE_PLAYER | CAMTYPE_SHADOW =>
      setCamera CAMTYPE_VISCUL
        (CopyState (cs1 CAMTYPE_VISCUL) (cs1 (camType c'))) cs1
  | _ => cs1
  end.
End Frustum.

(** ** Orientation: GetRotFromDir, GetFwdFromRot, GetRgtFromRot

    [math::sin], [math::cos], [math::acos], [math::atan2] and
    [float3::Normalize] are library code outside Camera.cpp and are
    taken as parameters.  [HALFPI] is the binary32 number nearest to
    pi/2. *)
Definition HALFPI : float := S754_finite false 13176795 (-23).

Section Orientation.
Variables sin cos acos : float -> float.
Variable atan2 : float -> float -> float.
Variable Normalize : float3 -> float3.

Definition GetRotFromDir (fwd : float3) : float3 :=
  let fwd := Normalize fwd in
  mk3 (acos (y3 fwd)) (atan2 (x3 fwd) (- z3 fwd)) fzero.

Definition GetFwdFromRot (r : float3) : float3 :=
  mk3 (sin (x3 r) * sin (y3 r))
      (cos (x3 r))
      (sin (x3 r) * (- cos (y3 r))).

Definition GetRgtFromRot (r : float3) : float3 :=
  mk3 (sin (HALFPI - z3 r) * sin (y3 r + HALFPI))
      (cos (HALFPI - z3 r))
      (sin (HALFPI - z3 r) * (- cos (y3 r + HALFPI))).

Definition UpdateDirsFromRot (c : CCamera) (r : float3) : CCamera :=
  let forward' := GetFwdFromRot r in
  let right' := GetRgtFromRot r in
  let up' := Normalize (cross right' forward') in
  mkCamera (pos c) (rot c) forward' right' up' (fov c) (halfFov c)
    (tanHalfFov c) (lppScale c) (posOffset c) (tiltOffset c) (camType c)
    (viewport c) (movState c) (rotState c) (projectionMatrix c)
    (viewMatrix c) (viewProjectionMatrix c) (viewMatrixInverse c)
    (projectionMatrixInverse c) (viewProjectionMatrixInverse c)
    (billboardMatrix c) (frustumPlanes c)
    (negFrustumSides c) (posFrustumSides c).
End Orientation.

(** [a] is within [tol] of [b]. *)
Definition within (tol a b : float) : bool := fabs (a - b) <=? tol.

(** [1e-4f], [1e-5f], and a direction whose binary32 length is 1. *)
Definition f1em4 : float := Eval vm_compute in lit 1 10000.
Definition f1em5 : float := Eval vm_compute in lit 1 100000.
Definition nearPole : float3 :=
  Eval vm_compute in mk3 (lit 2 10000) fone fzero.

(** ** Visibility tests *)

Definition AABBInOriginPlane (plane camPos mins maxs : float3) : bool :=
  let fp := mk3 (if x3 plane >? fzero then x3 mins else x3 maxs)
                (if y3 plane >? fzero then y3 mins else y3 maxs)
                (if z3 plane >? fzero then z3 mins else z3 maxs) in
  dot plane (sub3 fp camPos) <? fzero.

(** [InView(mins, maxs)]: the loop returns false at the first plane
    that fails. *)
Fixpoint InViewBox_loop (c : CCamera) (mins maxs : float3)
  (planes : list FrustumPlane) : bool :=
  match planes with
  | [] => true
  | i :: rest =>
      if negb (AABBInOriginPlane (frustumPlanes c i) (pos c) mins maxs)
      then false
      else InViewBox_loop c mins maxs rest
  end.

Definition InViewBox (c : CCamera) (mins maxs : float3) : bool :=
  InViewBox_loop c mins maxs frustum_plane_indices.

(** [InView(p, radius)]. *)
Fixpoint InViewSphere_loop (c : CCamera) (vec : float3) (radius : float)
  (planes : list FrustumPlane) : bool :=
  match planes with
  | [] => true
  | i :: rest =>
      if dot vec (frustumPlanes c i) >? radius then false
      else InViewSphere_loop c vec radius rest
  end.

Definition InViewSphere (gr : CGlobalRendering) (c : CCamera)
  (p : float3) (radius : float) : bool :=
  let vec := sub3 p (pos c) in
  if InViewSphere_loop c vec radius frustum_plane_indices
  then SqLength vec <=? Square (viewRange gr + radius)
  else false.

(** ** Frustum footprint: CCamera::GetFrustumSide *)

Record MapDims := mkMapDims { mapx : Z; mapy : Z }.

(** [0.001f], [0.9f], [9.0f], [0.2f], [2.0f]. *)
Definition f0_001 : float := Eval vm_compute in lit 1 1000.
Definition f0_9 : float := Eval vm_compute in lit 9 10.
Definition f9 : float := Eval vm_compute in Z2F 9.
Definition f0_2 : float := Eval vm_compute in lit 2 10.
Definition f2 : float := Eval vm_compute in Z2F 2.

Section FrustumSides.
Variable UnsafeANormalize : float3 -> float3.
Variable SQUARE_SIZE : Z.
Variable mapDims : MapDims.

(** The new line, the sequence it is filed into ([true]: negative
    side), and the divisors of the divisions evaluated, in order.
    A default-constructed [float3] is the zero vector. *)
Definition frustumSideLine (c : CCamera) (zdir offset : float3)
  (miny maxy scale : float) (upwardDir negSide : bool)
  : FrustumLine * bool * list float :=
  let xdir0 := UnsafeANormalize (cross zdir UpVector) in
  let ydir := UnsafeANormalize (cross zdir xdir0) in
  let xdir := if fabs (z3 xdir0) <? f0_001
              then mk3 (x3 xdir0) (y3 xdir0) f0_001 else xdir0 in
  let '(pInt, divs1) :=
    if fne (y3 ydir) fzero then
      (if upwardDir
       then sub3 (add3 (pos c) offset)
                 (scale3 ydir ((y3 (pos c) - miny) / y3 ydir))
       else sub3 (add3 (pos c) offset)
                 (scale3 ydir ((y3 (pos c) - maxy) / y3 ydir)),
       [y3 ydir])
    else (ZeroVector, []) in
  let ldir := x3 xdir / z3 xdir in
  let lbase := (x3 pInt - (z3 pInt * ldir)) / scale in
  let lsign := if z3 xdir <=? fzero then 1%Z else (-1)%Z in
  let lminz := fzero - Z2F (mapy mapDims) in
  let lmaxz := Z2F (mapy mapDims * SQUARE_SIZE + mapy mapDims) in
  (mkLine lbase ldir lsign lminz lmaxz,
   Z.eqb lsign 1 || negSide,
   divs1 ++ [z3 xdir; scale]).

Definition GetFrustumSide (c : CCamera) (zdir offset : float3)
  (miny maxy scale : float) (upwardDir negSide : bool)
  : CCamera * list float :=
  let '(line, toNeg, divs) :=
    frustumSideLine c zdir offset miny maxy scale upwardDir negSide in
  (if toNeg
   then set_negFrustumSides c (negFrustumSides c ++ [line])
   else set_posFrustumSides c (posFrustumSides c ++ [line]),
   divs).
End FrustumSides.

(** ** CCamera::CalcPixelDir *)

Section PixelDir.
Variable Normalize : float3 -> float3.

(** The direction and the divisors of the two divisions. *)
Definition CalcPixelDir (gr : CGlobalRendering) (c : CCamera) (x y : Z)
  : float3 * list float :=
  let vsx := Z.max 1 (viewSizeX gr) in
  let vsy := Z.max 1 (viewSizeY gr) in
  let dx := (Z2F (x - viewPosX gr - Z.shiftr vsx 1) / Z2F vsy)
            * (tanHalfFov c * f2) in
  let dy := (Z2F (y - Z.shiftr vsy 1) / Z2F vsy) * (tanHalfFov c * f2) in
  (Normalize (add3 (sub3 (forward c) (scale3 (up c) dy))
                   (scale3 (right c) dx)),
   [Z2F vsy; Z2F vsy]).
End PixelDir.

(** Modelled from the spec: [float3]'s normalisation lives in
    System/float3.h, which is not among the sources.  The spec describes
    the one used for the frustum planes as a safe normalisation that
    returns the zero vector for a near-zero-length input instead of
    dividing by (nearly) zero; [nrm_eps] is its threshold on the squared
    length. *)
Definition SafeNormalize (nrm_eps : float) (v : float3) : float3 :=
  let sql := SqLength v in
  if sql >? nrm_eps then scale3 v (fone / fsqrt sql) else ZeroVector.

(** ** Movement: GetMoveDistance and GetMoveVectorFromState *)

Definition B2F (b : bool) : float := Z2F (if b then 1 else 0).

(** [Clamp(v, lo, hi)] of System/myMath.h:
    [std::min(hi, std::max(lo, v))]. *)
Definition ClampZ (v lo hi : Z) : Z := Z.min hi (Z.max lo v).
Definition fmin (a b : float) : float := if flt b a then b else a.
Definition ClampF (v lo hi : float) : float := fmin hi (fmax lo v).

(** Result, [*time], [*speed]; [idx] is [None] for an index that is no
    case of the [switch]. *)
Definition GetMoveDistance (gr : CGlobalRendering) (c : CCamera)
  (idx : option MoveState) : float * float * float :=
  let camDeltaTime := lastFrameTime gr in
  let camMoveSpeed := fone in
  let camMoveSpeed :=
    camMoveSpeed * (fone - B2F (movState c MOVE_STATE_SLW) * f0_9) in
  let camMoveSpeed :=
    camMoveSpeed * (fone + B2F (movState c MOVE_STATE_FST) * f9) in
  let speedOut := camMoveSpeed in
  let camMoveSpeed :=
    match idx with
    | Some MOVE_STATE_UP => camMoveSpeed * B2F (movState c MOVE_STATE_UP)
    | Some MOVE_STATE_DWN => camMoveSpeed * - B2F (movState c MOVE_STATE_DWN)
    | _ => camMoveSpeed
    end in
  (camDeltaTime * f0_2 * camMoveSpeed, camDeltaTime, speedOut).

Definition set_x (v : float3) (a : float) : float3 := mk3 a (y3 v) (z3 v).
Definition set_y (v : float3) (a : float) : float3 := mk3 (x3 v) a (z3 v).
Definition set_z (v : float3) (a : float) : float3 := mk3 (x3 v) (y3 v) a.

Definition GetMoveVectorFromState (gr : CGlobalRendering)
  (cfg : ConfigHandler) (mouse : CMouseHandler) (c : CCamera)
  (fromKeyState : bool) : float3 :=
  let '(_, camDeltaTime, camMoveSpeed) := GetMoveDistance gr c None in
  let v := ZeroVector in
  let v :=
    if fromKeyState then
      let v := set_y v (y3 v + (camDeltaTime * f0_001
                                * B2F (movState c MOVE_STATE_FWD))) in
      let v := set_y v (y3 v - (camDeltaTime * f0_001
                                * B2F (movState c MOVE_STATE_BCK))) in
      let v := set_x v (x3 v + (camDeltaTime * f0_001
                                * B2F (movState c MOVE_STATE_RGT))) in
      let v := set_x v (x3 v - (camDeltaTime * f0_001
                                * B2F (movState c MOVE_STATE_LFT))) in
      v
    else
      let screenH := viewSizeY gr in
      let screenW := if dualScreenMode gr
                     then wrap_int (Z.shiftl (viewSizeX gr) 1)
                     else viewSizeX gr in
      let width := EdgeMoveWidth cfg in
      let dynamic := EdgeMoveDynamic cfg in
      let border_x := Z.max 1 (F2Z (Z2F screenW * width)) in
      let border_y := Z.max 1 (F2Z (Z2F screenH * width)) in
      let distToEdge_x := Z2F (ClampZ (lastx mouse) 0 screenW) in
      let distToEdge_y := Z2F (ClampZ (lasty mouse) 0 screenH) in
      let distToEdge_x :=
        if (Z2F (screenW - 1) - distToEdge_x) <? distToEdge_x
        then - (Z2F (screenW - 1) - distToEdge_x) else distToEdge_x in
      let distToEdge_y :=
        if (Z2F (screenH - 1) - distToEdge_y) <? distToEdge_y
        then - (Z2F (screenH - 1) - distToEdge_y) else distToEdge_y in
      let distToEdge_x := - distToEdge_x in
      let '(move_x, move_y) :=
        if dynamic then
          (ClampF ((Z2F border_x - fabs distToEdge_x) / Z2F border_x)
                  fzero fone,
           ClampF ((Z2F border_y - fabs distToEdge_y) / Z2F border_y)
                  fzero fone)
        else
          (B2F (fabs distToEdge_x <? Z2F border_x),
           B2F (fabs distToEdge_y <? Z2F border_y)) in
      let move_x := copysign move_x distToEdge_x in
      let move_y := copysign move_y distToEdge_y in
      let v := set_x v (camDeltaTime * f0_001 * move_x) in
      let v := set_y v (camDeltaTime * f0_001 * move_y) in
      v
  in
  set_z v camMoveSpeed.

(** [0.02f], the default of the EdgeMoveWidth setting. *)
Definition f0_02 : float := Eval vm_compute in lit 2 100.

(** ** Exact-arithmetic model of the geometric routines

    The same source functions with [float] read as a real number:
    what the code computes up to floating-point rounding. *)
Module Exact.
Local Open Scope R_scope.

Record float3 := mk3 { x3 : R; y3 : R; z3 : R }.

Definition UpVector : float3 := mk3 0 1 0.

Definition dot (a b : float3) : R :=
  (x3 a * x3 b) + (y3 a * y3 b) + (z3 a * z3 b).
Definition cross (a b : float3) : float3 :=
  mk3 ((y3 a * z3 b) - (z3 a * y3 b))
      ((z3 a * x3 b) - (x3 a * z3 b))
      ((x3 a * y3 b) - (y3 a * x3 b)).
Definition scale3 (a : float3) (f : R) : float3 :=
  mk3 (x3 a * f) (y3 a * f) (z3 a * f).
Definition SqLength (a : float3) : R := dot a a.
Definition Square (x : R) : R := x * x.

(** Modelled from the spec: [float3::Normalize] is declared in
    System/float3.h, which is not among the sources; normalisation
    scales the vector by the inverse square root of its squared
    length. *)
Definition Normalize (a : float3) : float3 :=
  scale3 a (/ sqrt (SqLength a)).

Definition HALFPI : R := PI / 2.

Definition GetFwdFromRot (r : float3) : float3 :=
  mk3 (sin (x3 r) * sin (y3 r))
      (cos (x3 r))
      (sin (x3 r) * (- cos (y3 r))).

Definition GetRgtFromRot (r : float3) : float3 :=
  mk3 (sin (HALFPI - z3 r) * sin (y3 r + HALFPI))
      (cos (HALFPI - z3 r))
      (sin (HALFPI - z3 r) * (- cos (y3 r + HALFPI))).

(** Modelled from the spec: [math::atan2] is library code outside
    Camera.cpp, the two-argument arctangent [atan2(y, x)], the angle of
    the point [(x, y)]; [math::sin], [math::cos] and [math::acos] are
    the functions of the same names of the real-number library. *)
Definition atan2 (y x : R) : R :=
  if Rlt_dec 0 x then atan (y / x)
  else if Rlt_dec x 0 then
         if Rle_dec 0 y then atan (y / x) + PI else atan (y / x) - PI
  else if Rlt_dec 0 y then PI / 2
  else if Rlt_dec y 0 then - (PI / 2)
  else 0.

Definition GetRotFromDir (fwd : float3) : float3 :=
  let fwd := Normalize fwd in
  mk3 (acos (y3 fwd)) (atan2 (x3 fwd) (- z3 fwd)) 0.

Record CCamera := mkCamera {
  pos : float3;
  rot : float3;
  forward : float3;
  right : float3;
  up : float3
}.

Definition UpdateDirsFromRot (c : CCamera) (r : float3) : CCamera :=
  let forward' := GetFwdFromRot r in
  let right' := GetRgtFromRot r in
  let up' := Normalize (cross right' forward') in
  mkCamera (pos c) (rot c) forward' right' up'.

(** [CCamera::ComputeViewRange] writes [globalRendering->zNear] and
    [globalRendering->viewRange]; the pair returned is these two
    values.  [MAX_VIEW_RANGE] and [NEAR_PLANE] are the constants of
    CGlobalRendering, [maxxpos] and [maxzpos] the static map extents
    of float3, [currMinHeight] the value of
    [readMap->GetCurrMinHeight()]. *)
Section ViewRange.
Variables MAX_VIEW_RANGE NEAR_PLANE : R.
Variables maxxpos maxzpos : R.

Definition wantedViewRange (c : CCamera) (currMinHeight : R) : R :=
  let wantedViewRange := MAX_VIEW_RANGE in
  let azimuthCos := dot (forward c) UpVector in
  let maxDistToBorderX := Rmax (x3 (pos c)) (maxxpos - x3 (pos c)) in
  let maxDistToBorderZ := Rmax (z3 (pos c)) (maxzpos - z3 (pos c)) in
  let minViewRange :=
    (1 - azimuthCos)
    * sqrt (Square maxDistToBorderX + Square maxDistToBorderZ) in
  let wantedViewRange :=
    Rmax wantedViewRange
         ((y3 (pos c) - Rmax 0 currMinHeight) * (24 / 10)) in
  let wantedViewRange := Rmax wantedViewRange minViewRange in
  wantedViewRange.

Definition ComputeViewRange (c : CCamera) (currMinHeight : R) : R * R :=
  let factor := wantedViewRange c currMinHeight / MAX_VIEW_RANGE in
  (NEAR_PLANE * factor, MAX_VIEW_RANGE * factor).

(** The spec's wording of the wanted range: the largest of three
    candidates. *)
Definition max3 (a b c : R) : R := Rmax a (Rmax b c).

Definition spec_wantedViewRange (c : CCamera) (terrainMinHeight : R) : R :=
  max3 MAX_VIEW_RANGE
       ((y3 (pos c) - Rmax 0 terrainMinHeight) * (24 / 10))
       ((1 - dot (forward c) UpVector)
        * sqrt (Rmax (x3 (pos c)) (maxxpos - x3 (pos c))
                * Rmax (x3 (pos c)) (maxxpos - x3 (pos c))
                + Rmax (z3 (pos c)) (maxzpos - z3 (pos c))
                  * Rmax (z3 (pos c)) (maxzpos - z3 (pos c)))).
End ViewRange.

(** *** Further routines in exact arithmetic *)

Definition add3 (a b : float3) : float3 :=
  mk3 (x3 a + x3 b) (y3 a + y3 b) (z3 a + z3 b).
Definition sub3 (a b : float3) : float3 :=
  mk3 (x3 a - x3 b) (y3 a - y3 b) (z3 a - z3 b).
Definition neg3 (a : float3) : float3 := mk3 (- x3 a) (- y3 a) (- z3 a).
Definition ZeroVector : float3 := mk3 0 0 0.
Definition FwdVector : float3 := mk3 0 0 1.

(** Modelled from the spec: [SetRot] is declared in Camera.h, which is
    not among the sources; it stores the rotation and updates the basis
    from it. *)
Definition SetRot (c : CCamera) (r : float3) : CCamera :=
  UpdateDirsFromRot (mkCamera (pos c) r (forward c) (right c) (up c)) r.

(** [CCamera::SetDir]: the camera afterwards, and whether the condition
    of its [assert] holds. *)
Definition SetDir (c : CCamera) (dir : float3) : CCamera * bool :=
  let c' := SetRot c (add3 (GetRotFromDir dir)
                           (scale3 FwdVector (z3 (rot c)))) in
  (c', if Rlt_dec (9 / 10) (dot dir (forward c')) then true else false).

(** [AABBInOriginPlane] and the two overloads of [CCamera::InView]; the
    planes and the far range are the camera's [frustumPlanes] and
    [globalRendering->viewRange]. *)
Definition AABBInOriginPlane (plane camPos mins maxs : float3) : bool :=
  let fp := mk3 (if Rlt_dec 0 (x3 plane) then x3 mins else x3 maxs)
                (if Rlt_dec 0 (y3 plane) then y3 mins else y3 maxs)
                (if Rlt_dec 0 (z3 plane) then z3 mins else z3 maxs) in
  if Rlt_dec (dot plane (sub3 fp camPos)) 0 then true else false.

Fixpoint InViewBox_loop (frustumPlanes : FrustumPlane -> float3)
  (camPos mins maxs : float3) (planes : list FrustumPlane) : bool :=
  match planes with
  | [] => true
  | i :: rest =>
      if negb (AABBInOriginPlane (frustumPlanes i) camPos mins maxs)
      then false
      else InViewBox_loop frustumPlanes camPos mins maxs rest
  end.

Definition InViewBox (frustumPlanes : FrustumPlane -> float3)
  (c : CCamera) (mins maxs : float3) : bool :=
  InViewBox_loop frustumPlanes (pos c) mins maxs frustum_plane_indices.

Fixpoint InViewSphere_loop (frustumPlanes : FrustumPlane -> float3)
  (vec : float3) (radius : R) (planes : list FrustumPlane) : bool :=
  match planes with
  | [] => true
  | i :: rest =>
      if Rlt_dec radius (dot vec (frustumPlanes i)) then false
      else InViewSphere_loop frustumPlanes vec radius rest
  end.

Definition InViewSphere (frustumPlanes : FrustumPlane -> float3)
  (viewRange : R) (c : CCamera) (p : float3) (radius : R) : bool :=
  let vec := sub3 p (pos c) in
  if InViewSphere_loop frustumPlanes vec radius frustum_plane_indices
  then (if Rle_dec (SqLength vec) (Square (viewRange + radius))
        then true else false)
  else false.

(** A 4x4 matrix is an array of sixteen entries, stored column by
    column as OpenGL reads them. *)
Definition CMatrix44f := nat -> R.

Definition setm (m : CMatrix44f) (i : nat) (v : R) : CMatrix44f :=
  fun j => if Nat.eqb i j then v else m j.

(** [CCamera::myGluPerspective]: the new [projectionMatrix] (the one
    handed to [glLoadMatrixf]). *)
Definition myGluPerspective (tanHalfFov : R) (projectionMatrix : CMatrix44f)
  (aspect zNear zFar : R) : CMatrix44f :=
  let t := zNear * tanHalfFov in
  let b := - t in
  let l := b * aspect in
  let r := t * aspect in
  let m := projectionMatrix in
  let m := setm m 0 ((2 * zNear) / (r - l)) in
  let m := setm m 5 ((2 * zNear) / (t - b)) in
  let m := setm m 8 ((r + l) / (r - l)) in
  let m := setm m 9 ((t + b) / (t - b)) in
  let m := setm m 10 (- (zFar + zNear) / (zFar - zNear)) in
  let m := setm m 11 (- 1) in
  let m := setm m 14 (- (2 * zFar * zNear) / (zFar - zNear)) in
  m.

(** [CCamera::myGluLookAt]: the new [viewMatrix]; [ANormalize] is the
    approximate normalisation of float3, exact here. *)
Definition myGluLookAt (viewMatrix : CMatrix44f) (eye center up : float3)
  : CMatrix44f :=
  let f := Normalize (sub3 center eye) in
  let s := cross f up in
  let u := cross s f in
  let m := viewMatrix in
  let m := setm m 0 (x3 s) in
  let m := setm m 1 (x3 u) in
  let m := setm m 2 (- x3 f) in
  let m := setm m 4 (y3 s) in
  let m := setm m 5 (y3 u) in
  let m := setm m 6 (- y3 f) in
  let m := setm m 8 (z3 s) in
  let m := setm m 9 (z3 u) in
  let m := setm m 10 (- z3 f) in
  let m := setm m 12 ((x3 s * - x3 eye) + (y3 s * - y3 eye)
                      + (z3 s * - z3 eye)) in
  let m := setm m 13 ((x3 u * - x3 eye) + (y3 u * - y3 eye)
                      + (z3 u * - z3 eye)) in
  let m := setm m 14 ((- x3 f * - x3 eye) + (- y3 f * - y3 eye)
                      + (- z3 f * - z3 eye)) in
  m.

(** The product of a matrix with the point [(x, y, z, 1)], as OpenGL
    applies a loaded matrix: the four coordinates of the image. *)
Definition mulPoint (m : CMatrix44f) (p : float3) : R * R * R * R :=
  (m 0%nat * x3 p + m 4%nat * y3 p + m 8%nat * z3 p + m 12%nat,
   m 1%nat * x3 p + m 5%nat * y3 p + m 9%nat * z3 p + m 13%nat,
   m 2%nat * x3 p + m 6%nat * y3 p + m 10%nat * z3 p + m 14%nat,
   m 3%nat * x3 p + m 7%nat * y3 p + m 11%nat * z3 p + m 15%nat).

(** The entries myGluPerspective does not write are zero: so the
    constructor leaves them (an identity matrix with entry 15 set to
    0). *)
Definition restZero (m : CMatrix44f) : Prop :=
  m 1%nat = 0 /\ m 2%nat = 0 /\ m 3%nat = 0 /\ m 4%nat = 0 /\ m 6%nat = 0
  /\ m 7%nat = 0 /\ m 12%nat = 0 /\ m 13%nat = 0 /\ m 15%nat = 0.

(** The fourth row of a view matrix is (0, 0, 0, 1): myGluLookAt does
    not write it. *)
Definition affineRow (m : CMatrix44f) : Prop :=
  m 3%nat = 0 /\ m 7%nat = 0 /\ m 11%nat = 0 /\ m 15%nat = 1.

(** [CCamera::CalcPixelDir]; [tanHalfFov] is the camera's field, the
    three integers are [globalRendering]'s [viewSizeX], [viewSizeY] and
    [viewPosX]. *)
Definition CalcPixelDir (c : CCamera) (tanHalfFov : R)
  (viewSizeX viewSizeY viewPosX : Z) (x y : Z) : float3 :=
  let vsx := Z.max 1 viewSizeX in
  let vsy := Z.max 1 viewSizeY in
  let dx := IZR (x - viewPosX - Z.shiftr vsx 1) / IZR vsy
            * (tanHalfFov * 2) in
  let dy := IZR (y - Z.shiftr vsy 1) / IZR vsy * (tanHalfFov * 2) in
  Normalize (add3 (sub3 (forward c) (scale3 (up c) dy))
                  (scale3 (right c) dx)).

(** The three vectors are of length 1 and mutually orthogonal, with
    [up = right x forward]. *)
Definition orthonormal (c : CCamera) : Prop :=
  SqLength (forward c) = 1 /\ SqLength (right c) = 1
  /\ dot (forward c) (right c) = 0
  /\ up c = cross (right c) (forward c).

(** A camera looking along -z with a non-unit direction to aim at. *)
Definition longDir : float3 := mk3 3 0 4.

(** *** The rest of the view pipeline in exact arithmetic *)

(** [CCamera::SetFov]: the new [fov], [halfFov] and [tanHalfFov]. *)
Definition SetFov (myfov : R) : R * R * R :=
  let fov := myfov in
  let halfFov := (fov * (5 / 10)) * (PI / 180) in
  (fov, halfFov, tan halfFov).

Definition setPlane (f : FrustumPlane -> float3) (i : FrustumPlane)
  (v : float3) : FrustumPlane -> float3 :=
  fun j => if FrustumPlane_eqb i j then v else f j.

(** [CCamera::UpdateFrustum]: the four planes of the camera that runs
    it; [UnsafeANormalize] is exact here.  The copy to the culling
    camera is in the binary32 model. *)
Definition UpdateFrustum (c : CCamera) (tanHalfFov halfFov aspectRatio : R)
  (frustumPlanes : FrustumPlane -> float3) : FrustumPlane -> float3 :=
  let forwardy := scale3 (neg3 (forward c)) tanHalfFov in
  let forwardx := scale3 (neg3 (forward c)) (tan (aspectRatio * halfFov)) in
  let p := frustumPlanes in
  let p := setPlane p FRUSTUM_PLANE_TOP (Normalize (add3 forwardy (up c))) in
  let p := setPlane p FRUSTUM_PLANE_BOT (Normalize (sub3 forwardy (up c))) in
  let p := setPlane p FRUSTUM_PLANE_RGT
                    (Normalize (add3 forwardx (right c))) in
  let p := setPlane p FRUSTUM_PLANE_LFT
                    (Normalize (sub3 forwardx (right c))) in
  p.

Record float4 := mk4 { x4 : R; y4 : R; z4 : R; w4 : R }.

(** Modelled from the spec: the products of [CMatrix44f] are declared in
    System/Matrix44f.h, which is not among the sources; a matrix is
    stored column by column, [a * b] is the matrix product and [m * v]
    the matrix applied to a column vector, as gluProject uses them. *)
Definition matMul (a b : CMatrix44f) : CMatrix44f :=
  fun k =>
    let r := (k mod 4)%nat in
    let c := (4 * (k / 4))%nat in
    a r * b c + a (r + 4)%nat * b (c + 1)%nat
    + a (r + 8)%nat * b (c + 2)%nat + a (r + 12)%nat * b (c + 3)%nat.

Definition matVec (m : CMatrix44f) (v : float4) : float4 :=
  mk4 (m 0%nat * x4 v + m 4%nat * y4 v + m 8%nat * z4 v + m 12%nat * w4 v)
      (m 1%nat * x4 v + m 5%nat * y4 v + m 9%nat * z4 v + m 13%nat * w4 v)
      (m 2%nat * x4 v + m 6%nat * y4 v + m 10%nat * z4 v + m 14%nat * w4 v)
      (m 3%nat * x4 v + m 7%nat * y4 v + m 11%nat * z4 v + m 15%nat * w4 v).

Definition point4 (p : float3) : float4 := mk4 (x3 p) (y3 p) (z3 p) 1.

(** [CCamera::CalcWindowCoordinates]. *)
Definition CalcWindowCoordinates (viewProjectionMatrix : CMatrix44f)
  (viewport : nat -> Z) (objPos : float3) : float3 :=
  let v := matVec viewProjectionMatrix (point4 objPos) in
  mk3 (IZR (viewport 0%nat)
       + IZR (viewport 2%nat) * (x4 v / w4 v + 1) * (5 / 10))
      (IZR (viewport 1%nat)
       + IZR (viewport 3%nat) * (y4 v / w4 v + 1) * (5 / 10))
      ((z4 v / w4 v + 1) * (5 / 10)).

(** [CCamera::UpdateMatrices]: the new [projectionMatrix], [viewMatrix]
    and [viewProjectionMatrix].  The inverses and the billboard matrix,
    further fields computed from these three by routines of
    Matrix44f.h, are not part of the model. *)
Definition UpdateMatrices (c : CCamera) (tanHalfFov : R)
  (posOffset tiltOffset : float3) (aspectRatio zNear viewRange : R)
  (projectionMatrix viewMatrix : CMatrix44f)
  : CMatrix44f * CMatrix44f * CMatrix44f :=
  let projectionMatrix :=
    myGluPerspective tanHalfFov projectionMatrix aspectRatio zNear
                     viewRange in
  let fShake :=
    Normalize (add3 (add3 (scale3 (forward c) (1 + z3 tiltOffset))
                          (scale3 (right c) (x3 tiltOffset)))
                    (scale3 (up c) (y3 tiltOffset))) in
  let camPos := add3 (pos c) posOffset in
  let center := add3 camPos fShake in
  let viewMatrix := myGluLookAt viewMatrix camPos center (up c) in
  (projectionMatrix, viewMatrix, matMul projectionMatrix viewMatrix).

(** The fields of [globalRendering] that Update reads or writes, and the
    fields of the camera besides its frame. *)
Record CGlobalRendering := mkGlobalRendering {
  viewSizeX : Z;
  viewSizeY : Z;
  viewPosX : Z;
  aspectRatio : R;
  zNear : R;
  viewRange : R
}.

Record CCameraView := mkView {
  cam : CCamera;
  halfFov : R;
  tanHalfFov : R;
  lppScale : R;
  posOffset : float3;
  tiltOffset : float3;
  viewport : nat -> Z;
  projectionMatrix : CMatrix44f;
  viewMatrix : CMatrix44f;
  viewProjectionMatrix : CMatrix44f;
  frustumPlanes : FrustumPlane -> float3
}.

(** [CCamera::Update] on the camera that runs it: the new
    [globalRendering] and camera. *)
Section Frame.
Variables MAX_VIEW_RANGE NEAR_PLANE : R.
Variables maxxpos maxzpos : R.

Definition Update (gr : CGlobalRendering) (v : CCameraView)
  (updateDirs : bool) (currMinHeight : R)
  : CGlobalRendering * CCameraView :=
  let c := if updateDirs then UpdateDirsFromRot (cam v) (rot (cam v))
           else cam v in
  let lppScale :=
    if Z_le_dec (viewSizeY gr) 0 then 0
    else (2 * tanHalfFov v) / IZR (viewSizeY gr) in
  let '(zNear', viewRange') :=
    ComputeViewRange MAX_VIEW_RANGE NEAR_PLANE maxxpos maxzpos c
                     currMinHeight in
  let gr := mkGlobalRendering (viewSizeX gr) (viewSizeY gr) (viewPosX gr)
                              (aspectRatio gr) zNear' viewRange' in
  let planes :=
    UpdateFrustum c (tanHalfFov v) (halfFov v) (aspectRatio gr)
                  (frustumPlanes v) in
  let '(pm, vm, vpm) :=
    UpdateMatrices c (tanHalfFov v) (posOffset v) (tiltOffset v)
                   (aspectRatio gr) (zNear gr) (viewRange gr)
                   (projectionMatrix v) (viewMatrix v) in
  (gr,
   mkView c (halfFov v) (tanHalfFov v) lppScale (posOffset v) (tiltOffset v)
          (fun i => match i with
                    | 0%nat | 1%nat => 0%Z
                    | 2%nat => viewSizeX gr
                    | _ => viewSizeY gr
                    end)
          pm vm vpm planes).
End Frame.

(** A point of the axis-aligned box between [mins] and [maxs]. *)
Definition inBox (mins maxs q : float3) : Prop :=
  x3 mins <= x3 q <= x3 maxs /\ y3 mins <= y3 q <= y3 maxs
  /\ z3 mins <= z3 q <= z3 maxs.

(** The pixel offsets CalcPixelDir computes, in units of the distance
    along [forward]. *)
Definition pixelDx (tanHalfFov : R) (viewSizeX viewSizeY viewPosX x : Z)
  : R :=
  IZR (x - viewPosX - Z.shiftr (Z.max 1 viewSizeX) 1)
  / IZR (Z.max 1 viewSizeY) * (tanHalfFov * 2).

Definition pixelDy (tanHalfFov : R) (viewSizeY y : Z) : R :=
  IZR (y - Z.shiftr (Z.max 1 viewSizeY) 1) / IZR (Z.max 1 viewSizeY)
  * (tanHalfFov * 2).

(** Sample data: a camera 1000 units above the middle of a map of
    1024 x 1024 units, looking along -z; the engine's constants are
    [MAX_VIEW_RANGE = 8000] and [NEAR_PLANE = 2.8]. *)
Definition sampleCamera : CCamera :=
  mkCamera (mk3 512 1000 512) (mk3 (PI / 2) 0 0)
           (mk3 0 0 (-1)) (mk3 1 0 0) (mk3 0 1 0).
(** A view of the sample camera on an 800 x 600 window with a field of
    view of 90 degrees; fresh matrices are the identity, the
    projection's entry 15 zeroed by the constructor. *)
Definition identityMatrix : CMatrix44f :=
  fun k => match k with
           | 0%nat | 5%nat | 10%nat | 15%nat => 1
           | _ => 0
           end.

Definition sampleRendering : CGlobalRendering :=
  mkGlobalRendering 800 600 0 (IZR 800 / IZR 600) (28 / 10) 8000.

Definition sampleView : CCameraView :=
  mkView sampleCamera (PI / 4) 1 0 ZeroVector ZeroVector (fun _ => 0%Z)
         (setm identityMatrix 15 0) identityMatrix identityMatrix
         (fun _ => ZeroVector).

(** The sample camera turned to look straight up. *)
Definition skyCamera : CCamera :=
  mkCamera (mk3 512 1000 512) (mk3 0 0 0)
           (mk3 0 1 0) (mk3 1 0 0) (mk3 0 0 1).
End Exact.

(** ** Sample data

    A camera looking along -z from above the middle of a 128 x 128 map,
    with the two crossing lines of the spec's clipping scenario as its
    negative-side sequence. *)

Definition nrm_eps_sample : float := Eval vm_compute in lit 1 100000.

Definition samplePlanes (i : FrustumPlane) : float3 :=
  SafeNormalize nrm_eps_sample
    match i with
    | FRUSTUM_PLANE_TOP => mk3 fzero fone (lit 1 2)
    | FRUSTUM_PLANE_BOT => mk3 fzero (Z2F (-1)) (lit 1 2)
    | FRUSTUM_PLANE_RGT => mk3 fone fzero (lit 3 4)
    | FRUSTUM_PLANE_LFT => mk3 (Z2F (-1)) fzero (lit 3 4)
    end.

Definition scenarioLines : list FrustumLine :=
  [ mkLine (Z2F 0) (Z2F 1) 1 (Z2F (-128)) (Z2F 1152);
    mkLine (Z2F 10) (Z2F (-1)) (-1) (Z2F (-128)) (Z2F 1152) ].

Definition sampleCamera : CCamera :=
  mkCamera
    (mk3 (Z2F 512) (Z2F 1000) (Z2F 512))            (* pos *)
    (mk3 fzero fzero fzero)                          (* rot *)
    (mk3 fzero fzero (Z2F (-1)))                     (* forward *)
    (mk3 fone fzero fzero)                           (* right *)
    (mk3 fzero fone fzero)                           (* up *)
    (Z2F 45) (lit 3927 10000) (lit 4142 10000)       (* fov *)
    fzero ZeroVector ZeroVector
    CAMTYPE_PLAYER
    [0; 0; 1000; 800]%Z
    (fun _ => false) [false; false; false; false]
    [] [] [] [] [] [] []
    samplePlanes
    scenarioLines [].

Definition sampleRendering : CGlobalRendering :=
  mkGlobalRendering 1000 800 0 (lit 5 4) (lit 28 10) (Z2F 8000) (Z2F 16) false.

(** The same rendering state in dual-screen mode. *)
Definition dualRendering : CGlobalRendering :=
  mkGlobalRendering 1000 800 0 (lit 5 4) (lit 28 10) (Z2F 8000) (Z2F 16) true.

(** The sample camera in another role and with another field of view. *)
Definition withRole (c : CCamera) (t : CamType) (fovDeg hf thf : float)
  (planes : FrustumPlane -> float3) : CCamera :=
  mkCamera (pos c) (rot c) (forward c) (right c) (up c) fovDeg hf thf
    (lppScale c) (posOffset c) (tiltOffset c) t
    (viewport c) (movState c) (rotState c) (projectionMatrix c) (viewMatrix c)
    (viewProjectionMatrix c) (viewMatrixInverse c) (projectionMatrixInverse c)
    (viewProjectionMatrixInverse c) (billboardMatrix c) planes
    (negFrustumSides c) (posFrustumSides c).

(** A registry whose visibility-culling camera has a 90 degree field of
    view and no planes yet. *)
Definition sampleCameras : Cameras :=
  fun t =>
    match t with
    | CAMTYPE_VISCUL =>
        withRole sampleCamera CAMTYPE_VISCUL (Z2F 90) (lit 7854 10000) fone
                 (fun _ => ZeroVector)
    | CAMTYPE_PLAYER => sampleCamera
    | _ => withRole sampleCamera t (Z2F 45) (lit 3927 10000) (lit 4142 10000)
                    samplePlanes
    end.

(** A stand-in for [math::tan] on the sample data (a two-term series). *)
Definition sampleTan (a : float) : float :=
  a + (a * a * a) / Z2F 3.

Definition sampleMapDims : MapDims := mkMapDims 128 128.

(** A camera whose basis has collapsed to zero vectors. *)
Definition degenerateCamera : CCamera :=
  mkCamera (pos sampleCamera) ZeroVector ZeroVector ZeroVector ZeroVector
    fzero fzero fzero fzero ZeroVector ZeroVector CAMTYPE_UWREFL
    [0; 0; 1000; 800]%Z (fun _ => false) [false; false; false; false]
    [] [] [] [] [] [] [] (fun _ => ZeroVector) [] [].

(** * Further routines and notions

    The rest of Camera.cpp, and the notions used to state what it
    does. *)

(** ** Clipping: what a line may look like afterwards *)

(** [new] is [old] with tightened bounds: [base], [dir] and [sign] are
    the same, [minz] is the old one or a value above it and below
    [zmax], [maxz] is the old one or a value below it and above
    [zmin]. *)
Definition tightened (zmin zmax : float) (old new : FrustumLine) : Prop :=
  sameKey new old
  /\ (minz new = minz old
      \/ (flt (minz old) (minz new) = true /\ flt (minz new) zmax = true))
  /\ (maxz new = maxz old
      \/ (flt (maxz new) (maxz old) = true /\ flt zmin (maxz new) = true)).

(** Two parallel lines one unit apart, as a camera's positive side. *)
Definition parallelLines : list FrustumLine :=
  [ mkLine (Z2F 0) (Z2F 1) (-1) (Z2F (-128)) (Z2F 1152);
    mkLine (Z2F 1) (Z2F 1) (-1) (Z2F (-128)) (Z2F 1152) ].

Definition parallelCamera : CCamera :=
  set_posFrustumSides sampleCamera parallelLines.


(** ** Frustum footprint: CCamera::GetFrustumSides *)

(** Modelled from the spec: [ClearFrustumSides] is declared in Camera.h,
    which is not among the sources; both sequences are rebuilt from
    scratch each time the footprint extraction runs. *)
Definition ClearFrustumSides (c : CCamera) : CCamera :=
  set_posFrustumSides (set_negFrustumSides c []) [].

Section FrustumSidesAll.
Variable UnsafeANormalize : float3 -> float3.
Variable SQUARE_SIZE : Z.
Variable mapDims : MapDims.

(** One iteration of the loop over the planes, on the camera and the
    divisors evaluated so far. *)
Definition frustumSidesStep (miny maxy scale : float) (negSide : bool)
  (st : CCamera * list float) (i : FrustumPlane) : CCamera * list float :=
  let '(c, divs) := st in
  let '(c', d) :=
    GetFrustumSide UnsafeANormalize SQUARE_SIZE mapDims c
      (frustumPlanes c i) ZeroVector miny maxy scale
      (y3 (frustumPlanes c i) >? fzero) negSide in
  (c', divs ++ d).

Definition GetFrustumSides (c : CCamera) (miny maxy scale : float)
  (negSide : bool) : CCamera * list float :=
  fold_left (frustumSidesStep miny maxy scale negSide)
            frustum_plane_indices (ClearFrustumSides c, []).
End FrustumSidesAll.

(** A line as GetFrustumSide creates it: its sign is +1 or -1 and its
    z-range is the map-derived one. *)
Definition freshLine (SQUARE_SIZE : Z) (mapDims : MapDims) (l : FrustumLine)
  : Prop :=
  (sign l = 1 \/ sign l = -1)%Z
  /\ minz l = fzero - Z2F (mapy mapDims)
  /\ maxz l = Z2F (mapy mapDims * SQUARE_SIZE + mapy mapDims).

(** What holds of the two sequences while the footprint is built: [n]
    lines in all, all fresh, the positive side holding only lines of
    sign -1 and, unless the negative side is forced, the negative side
    only lines of sign +1; with the negative side forced the positive
    side is empty. *)
Definition sidesFiled (SQUARE_SIZE : Z) (mapDims : MapDims) (negSide : bool)
  (n : nat) (c : CCamera) : Prop :=
  (length (negFrustumSides c) + length (posFrustumSides c))%nat = n
  /\ Forall (freshLine SQUARE_SIZE mapDims) (negFrustumSides c)
  /\ Forall (freshLine SQUARE_SIZE mapDims) (posFrustumSides c)
  /\ Forall (fun l => sign l = (-1)%Z) (posFrustumSides c)
  /\ (negSide = false -> Forall (fun l => sign l = 1%Z) (negFrustumSides c))
  /\ (negSide = true -> posFrustumSides c = []).


(** ** Movement: the size of a step *)

(** [m] is a number of magnitude at most 1 (and not NaN). *)
Definition unitStep (m : float) : bool :=
  (fzero <=? fabs m) && (fabs m <=? fone).

(** ** Positions that are not numbers *)

Definition has_nan3 (v : float3) : bool :=
  is_nan (x3 v) || is_nan (y3 v) || is_nan (z3 v).

Definition set_pos (c : CCamera) (p : float3) : CCamera :=
  mkCamera p (rot c) (forward c) (right c) (up c) (fov c) (halfFov c)
    (tanHalfFov c) (lppScale c) (posOffset c) (tiltOffset c) (camType c)
    (viewport c) (movState c) (rotState c) (projectionMatrix c) (viewMatrix c)
    (viewProjectionMatrix c) (viewMatrixInverse c) (projectionMatrixInverse c)
    (viewProjectionMatrixInverse c) (billboardMatrix c) (frustumPlanes c)
    (negFrustumSides c) (posFrustumSides c).

(** The sample camera after its x-coordinate has become NaN. *)
Definition lostCamera : CCamera :=
  set_pos sampleCamera (mk3 S754_nan (Z2F 1000) (Z2F 512)).

(** * Properties *)

(** ** Facts about binary32 arithmetic *)

Local Open Scope Z_scope.

Lemma digits2_pos_lower (m : positive) :
  2 ^ (Zpos (digits2_pos m) - 1) <= Zpos m.
Proof.
  induction m as [m IH | m IH | ]; cbn [digits2_pos].
  - rewrite Pos2Z.inj_succ.
    replace (Z.succ (Zpos (digits2_pos m)) - 1)
      with (Z.succ (Zpos (digits2_pos m) - 1)) by lia.
    rewrite Z.pow_succ_r by lia. lia.
  - rewrite Pos2Z.inj_succ.
    replace (Z.succ (Zpos (digits2_pos m)) - 1)
      with (Z.succ (Zpos (digits2_pos m) - 1)) by lia.
    rewrite Z.pow_succ_r by lia. lia.
  - reflexivity.
Qed.

Lemma shr_1_nonneg (mrs : shr_record) :
  0 <= shr_m mrs -> 0 <= shr_m (shr_1 mrs).
Proof.
  destruct mrs as [m r s]; cbn [shr_m].
  destruct m as [ | [p | p | ] | p ]; cbn; lia.
Qed.

Lemma shr_1_lower (k : Z) (mrs : shr_record) :
  0 <= k -> 2 ^ (k + 1) <= shr_m mrs -> 2 ^ k <= shr_m (shr_1 mrs).
Proof.
  intros Hk. rewrite Z.pow_add_r, Z.pow_1_r by lia.
  assert (0 < 2 ^ k) by (apply Z.pow_pos_nonneg; lia).
  destruct mrs as [m r s]; cbn [shr_m].
  destruct m as [ | [p | p | ] | p ]; cbn [shr_1 shr_m]; lia.
Qed.

Lemma iter_pos_inv {A} (P : A -> Prop) (f : A -> A) :
  (forall x, P x -> P (f x)) ->
  forall (n : positive) (x : A), P x -> P (SpecFloat.iter_pos f n x).
Proof.
  intros Hf n; induction n as [n IH | n IH | ]; intros x Hx; cbn [SpecFloat.iter_pos];
    auto.
Qed.

Lemma iter_shr_1_lower (p : positive) :
  forall (k : Z) (mrs : shr_record),
    0 <= k -> 2 ^ (k + Zpos p) <= shr_m mrs ->
    2 ^ k <= shr_m (SpecFloat.iter_pos shr_1 p mrs).
Proof.
  induction p as [p IH | p IH | ]; intros k mrs Hk H; cbn [SpecFloat.iter_pos].
  - apply IH; [assumption | ].
    apply IH; [lia | ].
    apply shr_1_lower; [lia | ].
    replace (k + Zpos p + Zpos p + 1) with (k + Zpos p~1) by lia.
    assumption.
  - apply IH; [assumption | ].
    apply IH; [lia | ].
    replace (k + Zpos p + Zpos p) with (k + Zpos p~0) by lia.
    assumption.
  - apply shr_1_lower; assumption.
Qed.

Lemma shr_m_of_loc (m : Z) (l : location) :
  shr_m (shr_record_of_loc m l) = m.
Proof. destruct l as [ | [ | | ]]; reflexivity. Qed.

Lemma round_nearest_even_lower (m : Z) (l : location) :
  m <= round_nearest_even m l.
Proof.
  destruct l as [ | [ | | ]]; cbn [round_nearest_even]; try lia.
  destruct (Z.even m); lia.
Qed.

(** Shifting to the canonical exponent keeps a nonnegative mantissa
    nonnegative ... *)
Lemma shr_fexp_nonneg (m e : Z) (l : location) :
  0 <= m -> 0 <= shr_m (fst (shr_fexp prec emax m e l)).
Proof.
  intros Hm. unfold shr_fexp, shr.
  destruct (fexp prec emax (Zdigits2 m + e) - e) as [ | n | n ];
    cbn [fst]; try (rewrite shr_m_of_loc; assumption).
  apply (iter_pos_inv (fun x => 0 <= shr_m x)).
  - apply shr_1_nonneg.
  - rewrite shr_m_of_loc; assumption.
Qed.

(** ... and, above the smallest exponent, a positive mantissa positive. *)
Lemma shr_fexp_pos (m : positive) (e : Z) (l : location) :
  emin prec emax <= e ->
  0 < shr_m (fst (shr_fexp prec emax (Zpos m) e l))
  /\ emin prec emax <= snd (shr_fexp prec emax (Zpos m) e l).
Proof.
  intros He. unfold shr_fexp, shr.
  pose proof (digits2_pos_lower m) as Hd.
  cbn [Zdigits2].
  destruct (fexp prec emax (Zpos (digits2_pos m) + e) - e) as [ | n | n ] eqn:E;
    cbn [fst snd]; try (rewrite shr_m_of_loc; lia).
  split; [ | lia].
  assert (Hn : Zpos n = Zpos (digits2_pos m) - prec).
  { unfold fexp, emin, prec, emax in *. lia. }
  assert (2 ^ 0 <= shr_m (SpecFloat.iter_pos shr_1 n (shr_record_of_loc (Zpos m) l))).
  { apply iter_shr_1_lower; [lia | ].
    rewrite shr_m_of_loc. etransitivity; [ | exact Hd].
    apply Z.pow_le_mono_r; unfold prec in *; lia. }
  change (2 ^ 0) with 1 in *. lia.
Qed.

(** Rounding a nonnegative mantissa yields a zero, a finite number or an
    infinity of the requested sign, never a NaN. *)
Lemma binary_round_aux_sign (s : bool) (m e : Z) (l : location) :
  0 <= m -> has_sign s (binary_round_aux prec emax s m e l) = true.
Proof.
  intros Hm. unfold binary_round_aux.
  pose proof (shr_fexp_nonneg m e l Hm) as H1.
  destruct (shr_fexp prec emax m e l) as [mrs' e'] eqn:E1. cbn [fst] in H1.
  pose proof (round_nearest_even_lower (shr_m mrs') (loc_of_shr_record mrs'))
    as H2.
  pose proof (shr_fexp_nonneg
                (round_nearest_even (shr_m mrs') (loc_of_shr_record mrs'))
                e' loc_Exact ltac:(lia)) as H3.
  destruct (shr_fexp prec emax _ e' loc_Exact) as [mrs'' e''] eqn:E2.
  cbn [fst] in H3.
  destruct (shr_m mrs'') as [ | q | q ]; [ | | lia].
  - cbn. apply Bool.eqb_reflx.
  - destruct (e'' <=? emax - prec); cbn; apply Bool.eqb_reflx.
Qed.

Lemma binary_round_aux_nonzero (s : bool) (m : positive) (e : Z) (l : location) :
  emin prec emax <= e ->
  is_zero (binary_round_aux prec emax s (Zpos m) e l) = false.
Proof.
  intros He. unfold binary_round_aux.
  destruct (shr_fexp_pos m e l He) as [H1 H1'].
  destruct (shr_fexp prec emax (Zpos m) e l) as [mrs' e'] eqn:E1.
  cbn [fst snd] in H1, H1'.
  pose proof (round_nearest_even_lower (shr_m mrs') (loc_of_shr_record mrs'))
    as H2.
  destruct (round_nearest_even (shr_m mrs') (loc_of_shr_record mrs'))
    as [ | r | r ] eqn:Er; try lia.
  destruct (shr_fexp_pos r e' loc_Exact H1') as [H3 _].
  destruct (shr_fexp prec emax (Zpos r) e' loc_Exact) as [mrs'' e''] eqn:E2.
  cbn [fst] in H3.
  destruct (shr_m mrs'') as [ | q | q ]; try lia.
  destruct (e'' <=? emax - prec); reflexivity.
Qed.

Lemma shl_align_exp (m : positive) (e k : Z) :
  emin prec emax <= e ->
  emin prec emax <= snd (shl_align m e (fexp prec emax k)).
Proof.
  intros He. unfold shl_align.
  destruct (fexp prec emax k - e) eqn:E; cbn [snd]; try assumption.
  unfold fexp. lia.
Qed.

Lemma binary_round_nonzero (s : bool) (m : positive) (e : Z) :
  emin prec emax <= e ->
  is_zero (binary_round prec emax s m e) = false.
Proof.
  intros He. unfold binary_round.
  pose proof (shl_align_exp m e (Zpos (digits2_pos m) + e) He) as H.
  destruct (shl_align m e (fexp prec emax (Zpos (digits2_pos m) + e)))
    as [mz ez]. cbn [snd] in H.
  apply binary_round_aux_nonzero; assumption.
Qed.

Lemma binary_round_sign (s : bool) (m : positive) (e : Z) :
  has_sign s (binary_round prec emax s m e) = true.
Proof.
  unfold binary_round.
  destruct (shl_align m e (fexp prec emax (Zpos (digits2_pos m) + e)))
    as [mz ez].
  apply binary_round_aux_sign; lia.
Qed.

(** [int -> float] never yields zero or NaN on a nonzero integer. *)
Lemma Z2F_nonzero (z : Z) :
  z <> 0 -> is_zero (Z2F z) = false /\ is_nan (Z2F z) = false.
Proof.
  intros Hz. unfold Z2F, binary_normalize.
  destruct z as [ | p | p ]; [lia | | ].
  - split; [apply binary_round_nonzero; unfold emin, prec, emax; lia | ].
    pose proof (binary_round_sign false p 0) as H.
    destruct (binary_round prec emax false p 0); cbn in *; congruence.
  - split; [apply binary_round_nonzero; unfold emin, prec, emax; lia | ].
    pose proof (binary_round_sign true p 0) as H.
    destruct (binary_round prec emax true p 0); cbn in *; congruence.
Qed.

(** *** Comparisons *)

Lemma SFcompare_antisym (a b : float) :
  SFcompare b a = option_map CompOpp (SFcompare a b).
Proof.
  destruct a as [sa | sa | | sa ma ea], b as [sb | sb | | sb mb eb];
    cbn; try reflexivity;
    try (destruct sa; reflexivity); try (destruct sb; reflexivity);
    try (destruct sa, sb; reflexivity).
  assert (Hm : Pos.compare_cont Eq mb ma = CompOpp (Pos.compare_cont Eq ma mb))
    by (rewrite (Pos.compare_cont_antisym ma mb Eq); reflexivity).
  destruct sa, sb; try reflexivity;
    rewrite (Z.compare_antisym ea eb), Hm;
    destruct (ea ?= eb); cbn; try reflexivity;
    rewrite ?CompOpp_involutive; reflexivity.
Qed.

Lemma SFcompare_some (a b : float) :
  is_nan a = false -> is_nan b = false ->
  exists c, SFcompare a b = Some c.
Proof.
  destruct a, b; cbn; intros; try discriminate; eauto.
Qed.

(** Without NaN, [a > b] is the negation of [a <= b]. *)
Lemma fgt_negb_fle (a b : float) :
  is_nan a = false -> is_nan b = false -> fgt a b = negb (fle a b).
Proof.
  intros Ha Hb. unfold fgt, fle, SFltb, SFleb.
  rewrite (SFcompare_antisym a b).
  destruct (SFcompare_some a b Ha Hb) as [c ->].
  destruct c; reflexivity.
Qed.

Lemma SFcompare_finite_eq (s1 s2 : bool) (m1 m2 : positive) (e1 e2 : Z) :
  SFcompare (S754_finite s1 m1 e1) (S754_finite s2 m2 e2) = Some Eq ->
  s1 = s2 /\ m1 = m2 /\ e1 = e2.
Proof.
  cbn. destruct s1, s2; try discriminate;
    destruct (e1 ?= e2) eqn:E; try discriminate;
    intros H; apply Z.compare_eq in E; subst;
    (assert (Hc : Pos.compare m1 m2 = Eq)
      by (unfold Pos.compare; destruct (Pos.compare_cont Eq m1 m2);
          cbn in H; congruence));
    apply Pos.compare_eq in Hc; auto.
Qed.

Lemma SFcompare_finite_refl (s : bool) (m : positive) (e : Z) :
  SFcompare (S754_finite s m e) (S754_finite s m e) = Some Eq.
Proof.
  cbn. rewrite Z.compare_refl.
  change (Pos.compare_cont Eq m m) with (Pos.compare m m).
  rewrite Pos.compare_refl. destruct s; reflexivity.
Qed.

(** *** Differences *)

Lemma fsub_finite_diag (s : bool) (m : positive) (e : Z) :
  fsub (S754_finite s m e) (S754_finite s m e) = fzero.
Proof.
  unfold fsub, SFsub. rewrite Z.sub_diag. reflexivity.
Qed.

Lemma fsub_diag (x : float) : zero_or_nan (fsub x x) = true.
Proof.
  destruct x as [s | s | | s m e].
  - destruct s; reflexivity.
  - destruct s; reflexivity.
  - reflexivity.
  - rewrite fsub_finite_diag. reflexivity.
Qed.

Lemma fsub_diag_finite (x : float) :
  is_finite x = true -> fsub x x = fzero.
Proof.
  destruct x as [s | s | | s m e]; try discriminate; intros _.
  - destruct s; reflexivity.
  - apply fsub_finite_diag.
Qed.

Lemma fmul_zero_or_nan_r (p v : float) :
  zero_or_nan v = true -> zero_or_nan (fmul p v) = true.
Proof.
  destruct v; try discriminate; intros _; destruct p; reflexivity.
Qed.

Lemma fmul_zero_or_nan_l (v p : float) :
  zero_or_nan v = true -> zero_or_nan (fmul v p) = true.
Proof.
  destruct v; try discriminate; intros _; destruct p; reflexivity.
Qed.

Lemma fadd_zero_or_nan (a b : float) :
  zero_or_nan a = true -> zero_or_nan b = true ->
  zero_or_nan (fadd a b) = true.
Proof.
  destruct a as [sa | | | ], b as [sb | | | ]; try discriminate; intros _ _;
    try reflexivity.
  destruct sa, sb; reflexivity.
Qed.

Lemma flt_zero_or_nan (a b : float) :
  zero_or_nan a = true -> zero_or_nan b = true -> flt a b = false.
Proof.
  destruct a, b; try discriminate; reflexivity.
Qed.

(** *** Canonical representations *)

Lemma bounded_emin (m : positive) (e : Z) :
  SpecFloat.bounded prec emax m e = true -> emin prec emax <= e.
Proof.
  unfold SpecFloat.bounded, canonical_mantissa. intros H.
  apply andb_prop in H. destruct H as [H _].
  apply Z.eqb_eq in H. unfold fexp in H. lia.
Qed.

Lemma digits2_pos_iter_xO (m d : positive) :
  Zpos (digits2_pos (Pos.iter xO m d)) = Zpos (digits2_pos m) + Zpos d.
Proof.
  induction d as [ | d IH ] using Pos.peano_ind.
  - cbn [Pos.iter digits2_pos]. lia.
  - rewrite Pos.iter_succ. cbn [digits2_pos]. lia.
Qed.

Lemma binary_normalize_zero (z e : Z) :
  emin prec emax <= e ->
  is_zero (binary_normalize prec emax z e false) = true -> z = 0.
Proof.
  intros He. destruct z as [ | p | p ]; cbn [binary_normalize]; trivial;
    rewrite binary_round_nonzero by assumption; discriminate.
Qed.

(** Two canonical finite numbers whose aligned mantissas coincide are
    the same number. *)
Lemma aligned_eq (m1 m2 : positive) (e1 e2 : Z) :
  SpecFloat.bounded prec emax m1 e1 = true ->
  SpecFloat.bounded prec emax m2 e2 = true ->
  fst (shl_align m1 e1 (Z.min e1 e2)) = fst (shl_align m2 e2 (Z.min e1 e2)) ->
  m1 = m2 /\ e1 = e2.
Proof.
  unfold SpecFloat.bounded, canonical_mantissa. intros B1 B2.
  apply andb_prop in B1, B2. destruct B1 as [C1 _], B2 as [C2 _].
  apply Z.eqb_eq in C1, C2.
  unfold shl_align.
  destruct (Z.min e1 e2 - e1) as [ | d1 | d1 ] eqn:D1;
    destruct (Z.min e1 e2 - e2) as [ | d2 | d2 ] eqn:D2;
    cbn [fst]; intros H; try lia.
  - exfalso. pose proof (digits2_pos_iter_xO m2 d2) as Hd.
    rewrite <- H in Hd. unfold fexp in *. lia.
  - exfalso. pose proof (digits2_pos_iter_xO m1 d1) as Hd.
    rewrite H in Hd. unfold fexp in *. lia.
Qed.

(** A zero difference of two binary32 numbers means they compare
    equal: subtraction never underflows to zero. *)
Lemma fsub_zero_feq (x y : float) :
  valid_binary prec emax x = true -> valid_binary prec emax y = true ->
  is_zero (fsub x y) = true -> feq x y = true.
Proof.
  destruct x as [sx | sx | | sx mx ex], y as [sy | sy | | sy my ey];
    cbn [valid_binary]; intros Vx Vy; try reflexivity;
    try (destruct sx; discriminate); try (destruct sy; discriminate);
    try (destruct sx, sy; discriminate); try discriminate.
  unfold fsub, SFsub. intros H.
  apply binary_normalize_zero in H.
  2:{ pose proof (bounded_emin _ _ Vx). pose proof (bounded_emin _ _ Vy). lia. }
  assert (sx = sy /\ fst (shl_align mx ex (Z.min ex ey))
                     = fst (shl_align my ey (Z.min ex ey))) as [-> Hm].
  { destruct sx, sy; cbn [cond_Zopp] in H; try lia;
      (split; [reflexivity | ]); lia. }
  destruct (aligned_eq _ _ _ _ Vx Vy Hm) as [-> ->].
  unfold feq, SFeqb. rewrite SFcompare_finite_refl. reflexivity.
Qed.

(** Conversely, numbers that compare equal have difference zero, or NaN
    for two equal infinities. *)
Lemma feq_fsub (x y : float) :
  feq x y = true -> zero_or_nan (fsub x y) = true.
Proof.
  unfold feq, SFeqb.
  destruct x as [sx | sx | | sx mx ex], y as [sy | sy | | sy my ey];
    try (cbn; discriminate);
    try (destruct sx; cbn; discriminate);
    try (destruct sy; cbn; discriminate).
  - intros _. destruct sx, sy; reflexivity.
  - destruct sx, sy; cbn; try discriminate; reflexivity.
  - destruct (SFcompare (S754_finite sx mx ex) (S754_finite sy my ey))
      as [[ | | ] | ] eqn:E; try discriminate.
    intros _. apply SFcompare_finite_eq in E. destruct E as [-> [-> ->]].
    rewrite fsub_finite_diag. reflexivity.
Qed.

(** ** ClipFrustumLines *)

Local Open Scope nat_scope.

Lemma length_update {A} (i : nat) (v : A) (l : list A) :
  length (update i v l) = length l.
Proof.
  revert i; induction l as [ | h t IH]; intros [ | i]; cbn; auto.
Qed.

Lemma nth_update_eq {A} (i : nat) (v d : A) (l : list A) :
  i < length l -> nth i (update i v l) d = v.
Proof.
  revert i; induction l as [ | h t IH]; intros [ | i]; cbn; intros H;
    try lia; auto. apply IH; lia.
Qed.

Lemma nth_update_neq {A} (i j : nat) (v d : A) (l : list A) :
  i <> j -> nth j (update i v l) d = nth j l d.
Proof.
  revert i j; induction l as [ | h t IH]; intros [ | i] [ | j] H; cbn;
    try reflexivity; try lia. apply IH; lia.
Qed.

Lemma update_update {A} (i : nat) (v w : A) (l : list A) :
  update i w (update i v l) = update i w l.
Proof.
  revert i; induction l as [ | h t IH]; intros [ | i]; cbn; auto.
  f_equal; apply IH.
Qed.

Lemma update_nth {A} (i : nat) (d : A) (l : list A) :
  update i (nth i l d) l = l.
Proof.
  revert i; induction l as [ | h t IH]; intros [ | i]; cbn; auto.
  f_equal; apply IH.
Qed.

Section Clip.
Variables zmin zmax : float.

Lemma sameKey_refl (a : FrustumLine) : sameKey a a.
Proof. repeat split. Qed.

Lemma clipPair_sameKey (a b : FrustumLine) :
  sameKey (fst (clipPair zmin zmax a b)) a.
Proof.
  unfold clipPair.
  repeat match goal with
         | |- context [if ?c then _ else _] => destruct c
         end; cbn; repeat split.
Qed.

Lemma clipPair_ext (a b b' : FrustumLine) :
  sameKey b b' -> clipPair zmin zmax a b = clipPair zmin zmax a b'.
Proof.
  intros (Hb & Hd & Hs). unfold clipPair. rewrite Hb, Hd, Hs. reflexivity.
Qed.


(** No division of [clipPair] has a zero divisor. *)
Lemma clipPair_divisors (a b : FrustumLine) :
  Forall (fun d => feq d fzero = false) (snd (clipPair zmin zmax a b)).
Proof.
  unfold clipPair.
  destruct (feq (fsub (dir a) (dir b)) fzero) eqn:E; cbn [snd].
  - constructor.
  - constructor; [assumption | constructor].
Qed.

Lemma feq_zero_is_zero (x : float) : feq x fzero = is_zero x.
Proof. destruct x as [ | [ | ] | | [ | ] ]; reflexivity. Qed.

(** A pair with equal [dir] leaves [*fli] as it is. *)
Lemma clipPair_parallel (a b : FrustumLine) :
  feq (dir a) (dir b) = true -> fst (clipPair zmin zmax a b) = a.
Proof.
  intros E. apply feq_fsub in E. unfold clipPair.
  destruct (fsub (dir a) (dir b)) as [s | s | | s m e]; try discriminate.
  - reflexivity.
  - cbn [feq SFeqb SFcompare fst].
    replace (fdiv (fsub (base a) (base b)) S754_nan) with S754_nan
      by (destruct (fsub (base a) (base b)); reflexivity).
    replace (fmul (Z2F (sign b)) S754_nan) with S754_nan
      by (destruct (Z2F (sign b)); reflexivity).
    reflexivity.
Qed.

(** On canonical slopes the code's guard [ddir == 0] is the spec's
    "equal slopes", so the loop body is the spec's pair rule. *)
Lemma clipPair_spec (a b : FrustumLine) :
  valid_binary prec emax (dir a) = true ->
  valid_binary prec emax (dir b) = true ->
  fst (clipPair zmin zmax a b) = spec_clipPair zmin zmax a b.
Proof.
  intros Va Vb. unfold spec_clipPair.
  destruct (feq (dir a) (dir b)) eqn:E.
  - apply clipPair_parallel; assumption.
  - unfold clipPair.
    destruct (feq (fsub (dir a) (dir b)) fzero) eqn:Z; [ | reflexivity].
    rewrite feq_zero_is_zero in Z.
    rewrite (fsub_zero_feq _ _ Va Vb Z) in E. discriminate.
Qed.

(** The inner loop only ever rewrites position [i]. *)
Lemma inner_loop (i : nat) (cur : list FrustumLine) :
  i < length cur ->
  forall (js : list nat) (a : FrustumLine) (divs : list float),
    fst (fold_left (clipStep zmin zmax i) js (update i a cur, divs))
    = update i (fold_left (clipLineStep zmin zmax cur i) js a) cur.
Proof.
  intros Hi js; induction js as [ | j js IH]; intros a divs; cbn [fold_left].
  - reflexivity.
  - unfold clipStep at 2, clipLineStep at 2.
    destruct (Nat.eqb i j) eqn:E.
    + apply IH.
    + apply Nat.eqb_neq in E.
      rewrite nth_update_eq by assumption.
      rewrite nth_update_neq by assumption.
      destruct (clipPair zmin zmax a (nth j cur dummyLine)) as [l' d].
      rewrite update_update. cbn [fst]. apply IH.
Qed.

Lemma clipInner_fst (n i : nat) (cur : list FrustumLine) (divs : list float) :
  i < length cur ->
  fst (clipInner zmin zmax n (cur, divs) i)
  = update i (fold_left (clipLineStep zmin zmax cur i) (seq 0 n)
                        (nth i cur dummyLine)) cur.
Proof.
  intros Hi. unfold clipInner.
  rewrite <- (update_nth i dummyLine cur) at 1.
  apply inner_loop; assumption.
Qed.

Lemma clipLineStep_ext (lines cur : list FrustumLine) (i : nat) :
  (forall k, sameKey (nth k cur dummyLine) (nth k lines dummyLine)) ->
  forall (js : list nat) (a : FrustumLine),
    fold_left (clipLineStep zmin zmax cur i) js a
    = fold_left (clipLineStep zmin zmax lines i) js a.
Proof.
  intros H js; induction js as [ | j js IH]; intros a; cbn [fold_left].
  - reflexivity.
  - rewrite IH. f_equal. unfold clipLineStep.
    destruct (Nat.eqb i j); [reflexivity | ].
    rewrite (clipPair_ext a _ _ (H j)). reflexivity.
Qed.

Lemma clipLineStep_sameKey (lines : list FrustumLine) (i : nat) :
  forall (js : list nat) (a : FrustumLine),
    sameKey (fold_left (clipLineStep zmin zmax lines i) js a) a.
Proof.
  intros js; induction js as [ | j js IH]; intros a; cbn [fold_left].
  - apply sameKey_refl.
  - destruct (IH (clipLineStep zmin zmax lines i a j)) as (B & D & S).
    assert (K : sameKey (clipLineStep zmin zmax lines i a j) a).
    { unfold clipLineStep. destruct (Nat.eqb i j);
        [apply sameKey_refl | apply clipPair_sameKey]. }
    destruct K as (B' & D' & S'). repeat split; congruence.
Qed.

(** The outer loop: every visited position holds its clipped line,
    the others are untouched. *)
Lemma outer_loop (lines : list FrustumLine) (n : nat) :
  forall (idx : list nat) (cur : list FrustumLine) (divs : list float),
    NoDup idx ->
    (forall i, In i idx -> i < length lines) ->
    length cur = length lines ->
    (forall k, sameKey (nth k cur dummyLine) (nth k lines dummyLine)) ->
    let cur' := fst (fold_left (clipInner zmin zmax n) idx (cur, divs)) in
    length cur' = length lines
    /\ (forall k, In k idx ->
          nth k cur' dummyLine
          = fold_left (clipLineStep zmin zmax lines k) (seq 0 n)
                      (nth k cur dummyLine))
    /\ (forall k, ~ In k idx -> nth k cur' dummyLine = nth k cur dummyLine).
Proof.
  intros idx; induction idx as [ | i idx IH]; intros cur divs ND Hlt Hlen HK;
    cbn [fold_left].
  - cbn. repeat split; [assumption | intros k [] ].
  - inversion ND as [ | ? ? Hni ND']; subst.
    assert (Hi : i < length cur) by (rewrite Hlen; apply Hlt; left; reflexivity).
    pose proof (clipInner_fst n i cur divs Hi) as E1.
    rewrite (clipLineStep_ext lines cur i HK) in E1.
    destruct (clipInner zmin zmax n (cur, divs) i) as [cur1 divs1].
    cbn [fst] in E1.
    assert (Hlen1 : length cur1 = length lines)
      by (rewrite E1, length_update; assumption).
    assert (HK1 : forall k, sameKey (nth k cur1 dummyLine)
                                     (nth k lines dummyLine)).
    { intros k. rewrite E1. destruct (Nat.eq_dec i k) as [<- | Hne].
      - rewrite nth_update_eq by assumption.
        destruct (clipLineStep_sameKey lines i (seq 0 n) (nth i cur dummyLine))
          as (B & D & S).
        destruct (HK i) as (B' & D' & S'). repeat split; congruence.
      - rewrite nth_update_neq by assumption. apply HK. }
    destruct (IH cur1 divs1 ND' (fun k Hk => Hlt k (or_intror Hk)) Hlen1 HK1)
      as (L & Hin & Hout).
    split; [exact L | split].
    + intros k [<- | Hk].
      * rewrite (Hout i Hni), E1. apply nth_update_eq; assumption.
      * rewrite (Hin k Hk), E1.
        rewrite nth_update_neq; [reflexivity | ].
        intros ->. contradiction.
    + intros k Hk. rewrite (Hout k (fun H => Hk (or_intror H))), E1.
      apply nth_update_neq. intros ->. apply Hk. left. reflexivity.
Qed.

Lemma clipLines_nth (lines : list FrustumLine) :
  length (fst (clipLines zmin zmax lines)) = length lines
  /\ forall k, k < length lines ->
       nth k (fst (clipLines zmin zmax lines)) dummyLine
       = fold_left (clipLineStep zmin zmax lines k) (seq 0 (length lines))
                   (nth k lines dummyLine).
Proof.
  unfold clipLines.
  destruct (outer_loop lines (length lines) (seq 0 (length lines)) lines []
              (seq_NoDup _ _)) as (L & Hin & _).
  - intros i Hi. apply in_seq in Hi. lia.
  - reflexivity.
  - intros k. apply sameKey_refl.
  - split; [exact L | ].
    intros k Hk. apply Hin. apply in_seq. lia.
Qed.

Lemma clipLineStep_spec (lines : list FrustumLine) (k : nat) :
  Forall (fun l => valid_binary prec emax (dir l) = true) lines ->
  forall (js : list nat) (a : FrustumLine),
    (forall j, In j js -> j < length lines) ->
    valid_binary prec emax (dir a) = true ->
    fold_left (clipLineStep zmin zmax lines k) js a
    = fold_left
        (fun acc j => if Nat.eqb k j then acc
                      else spec_clipPair zmin zmax acc (nth j lines dummyLine))
        js a.
Proof.
  intros V js; induction js as [ | j js IH]; intros a Hjs Va; cbn [fold_left].
  - reflexivity.
  - assert (Vj : valid_binary prec emax (dir (nth j lines dummyLine)) = true).
    { rewrite Forall_forall in V. apply V. apply nth_In. apply Hjs. left.
      reflexivity. }
    assert (E : clipLineStep zmin zmax lines k a j
                = if Nat.eqb k j then a
                  else spec_clipPair zmin zmax a (nth j lines dummyLine)).
    { unfold clipLineStep. destruct (Nat.eqb k j); [reflexivity | ].
      apply clipPair_spec; assumption. }
    rewrite <- E. apply IH.
    + intros j' Hj'. apply Hjs. right. assumption.
    + unfold clipLineStep. destruct (Nat.eqb k j); [assumption | ].
      destruct (clipPair_sameKey a (nth j lines dummyLine)) as (_ & -> & _).
      assumption.
Qed.

Lemma clipStep_divisors (i : nat) (st : list FrustumLine * list float)
  (j : nat) :
  Forall (fun d => feq d fzero = false) (snd st) ->
  Forall (fun d => feq d fzero = false) (snd (clipStep zmin zmax i st j)).
Proof.
  destruct st as [lines divs]. cbn [snd]. intros H. unfold clipStep.
  destruct (Nat.eqb i j); [assumption | ].
  pose proof (clipPair_divisors (nth i lines dummyLine) (nth j lines dummyLine))
    as Hd.
  destruct (clipPair zmin zmax _ _) as [l' d]. cbn [snd] in *.
  apply Forall_app. split; assumption.
Qed.

Lemma clipLines_divisors (lines : list FrustumLine) :
  Forall (fun d => feq d fzero = false) (snd (clipLines zmin zmax lines)).
Proof.
  unfold clipLines.
  assert (Hin : forall n js st,
             Forall (fun d => feq d fzero = false) (snd st) ->
             Forall (fun d => feq d fzero = false)
                    (snd (fold_left (clipInner zmin zmax n) js st))).
  { intros n js; induction js as [ | i js IH]; intros st H; cbn [fold_left].
    - assumption.
    - apply IH. unfold clipInner.
      generalize (seq 0 n). intros l; revert st H.
      induction l as [ | j l IHl]; intros st H; cbn [fold_left].
      + assumption.
      + apply IHl. apply clipStep_divisors. assumption. }
  apply Hin. constructor.
Qed.
End Clip.

Lemma feq_sym (a b : float) : feq a b = feq b a.
Proof.
  unfold feq, SFeqb. rewrite (SFcompare_antisym a b).
  destruct (SFcompare a b) as [[ | | ] | ]; reflexivity.
Qed.

Lemma map_seq_ext {A} (d : A) (f : nat -> A) (l : list A) :
  (forall k, k < length l -> nth k l d = f k) ->
  l = map f (seq 0 (length l)).
Proof.
  intros H. apply (nth_ext _ _ d (f 0)).
  - rewrite length_map, length_seq. reflexivity.
  - intros k Hk. rewrite (H k Hk).
    rewrite (map_nth f (seq 0 (length l)) 0 k).
    rewrite seq_nth by assumption. reflexivity.
Qed.

(** C1.  ClipFrustumLines(neg, zmin, zmax) rewrites the selected
    sequence so that line [i] has gone, for each other line [j] in
    order, through the pair rule of the spec: nothing for equal slopes;
    otherwise [colz = -(base_i - base_j)/(dir_i - dir_j)] becomes the
    new [minz] exactly when [sign_j * (dir_i - dir_j) > 0], [colz > minz]
    and [colz < zmax], and the new [maxz] exactly when the sign test
    fails, [colz < maxz] and [colz > zmin].  The other sequence is left
    alone, a pair with equal [dir] leaves both of its lines unchanged,
    and no division of the whole call has a zero divisor. *)
Theorem ClipFrustumLines_pairwise
  (neg : bool) (zmin zmax : float) (c : CCamera) :
  Forall (fun l => valid_binary prec emax (dir l) = true) (selectedLines neg c) ->
  selectedLines neg (fst (ClipFrustumLines neg zmin zmax c))
  = map (spec_clipLine zmin zmax (selectedLines neg c))
        (seq 0 (length (selectedLines neg c)))
  /\ selectedLines (negb neg) (fst (ClipFrustumLines neg zmin zmax c))
     = selectedLines (negb neg) c
  /\ (forall li lj : FrustumLine,
        feq (dir li) (dir lj) = true ->
        fst (clipPair zmin zmax li lj) = li
        /\ fst (clipPair zmin zmax lj li) = lj)
  /\ Forall (fun d => feq d fzero = false)
            (snd (ClipFrustumLines neg zmin zmax c)).
Proof.
  intros V.
  pose proof (clipLines_nth zmin zmax (selectedLines neg c)) as [L N].
  pose proof (clipLines_divisors zmin zmax (selectedLines neg c)) as D.
  unfold ClipFrustumLines.
  destruct (clipLines zmin zmax (selectedLines neg c)) as [lines divs].
  cbn [fst snd] in *.
  assert (E : lines = map (spec_clipLine zmin zmax (selectedLines neg c))
                          (seq 0 (length (selectedLines neg c)))).
  { rewrite <- L. apply (map_seq_ext dummyLine).
    intros k Hk. rewrite L in Hk. rewrite (N k Hk).
    unfold spec_clipLine. apply clipLineStep_spec.
    - assumption.
    - intros j Hj. apply in_seq in Hj. lia.
    - rewrite Forall_forall in V. apply V. apply nth_In. assumption. }
  repeat split.
  - destruct neg; cbn; exact E.
  - destruct neg; reflexivity.
  - apply clipPair_parallel; assumption.
  - apply clipPair_parallel. rewrite feq_sym. assumption.
  - exact D.
Qed.

(** The spec's scenario: slopes 1 and -1, bases 0 and 10, signs +1 and
    -1 cross at z = 5, and each of the two lines gets 5 as its [maxz]. *)
Lemma ClipFrustumLines_pairwise_witness :
  selectedLines true
    (fst (ClipFrustumLines true (Z2F 0) (Z2F 1024) sampleCamera))
  = [ mkLine (Z2F 0) (Z2F 1) 1 (Z2F (-128)) (Z2F 5);
      mkLine (Z2F 10) (Z2F (-1)) (-1) (Z2F (-128)) (Z2F 5) ].
Proof.
  destruct (ClipFrustumLines_pairwise true (Z2F 0) (Z2F 1024) sampleCamera)
    as [H _].
  - repeat constructor.
  - rewrite H. vm_compute. reflexivity.
Defined.

(** ** Visibility tests *)

Lemma AABBInOriginPlane_at_camera (plane p : float3) :
  AABBInOriginPlane plane p p p = false.
Proof.
  unfold AABBInOriginPlane.
  destruct (fgt (x3 plane) fzero), (fgt (y3 plane) fzero),
    (fgt (z3 plane) fzero);
    apply flt_zero_or_nan; try reflexivity;
    unfold dot, sub3; cbn [x3 y3 z3];
    repeat apply fadd_zero_or_nan; apply fmul_zero_or_nan_r; apply fsub_diag.
Qed.

(** C3, as the code has it.  The box test with a zero-size box at the
    camera position returns false for every camera: the far point is the
    camera position itself, its offset is zero (or NaN), and the test
    [plane.dot(fp - camPos) < 0] is strict. *)
Theorem InViewBox_at_camera (c : CCamera) :
  InViewBox c (pos c) (pos c) = false.
Proof.
  unfold InViewBox, frustum_plane_indices. cbn [InViewBox_loop].
  rewrite AABBInOriginPlane_at_camera. reflexivity.
Qed.

(** C3 as stated fails on the sample camera. *)
Lemma InViewBox_at_camera_counterexample :
  InViewBox sampleCamera (pos sampleCamera) (pos sampleCamera) = false.
Proof. vm_compute. reflexivity. Qed.

Lemma InViewSphere_loop_all (c : CCamera) (vec : float3) (radius : float) :
  InViewSphere_loop c vec radius frustum_plane_indices = true
  <-> forall i, fgt (dot vec (frustumPlanes c i)) radius = false.
Proof.
  unfold frustum_plane_indices. cbn [InViewSphere_loop]. split.
  - intros H i.
    destruct (fgt (dot vec (frustumPlanes c FRUSTUM_PLANE_TOP)) radius) eqn:E1;
      [discriminate | ].
    destruct (fgt (dot vec (frustumPlanes c FRUSTUM_PLANE_BOT)) radius) eqn:E2;
      [discriminate | ].
    destruct (fgt (dot vec (frustumPlanes c FRUSTUM_PLANE_RGT)) radius) eqn:E3;
      [discriminate | ].
    destruct (fgt (dot vec (frustumPlanes c FRUSTUM_PLANE_LFT)) radius) eqn:E4;
      [discriminate | ].
    destruct i; assumption.
  - intros H. rewrite !H. reflexivity.
Qed.

Lemma fle_zero_square (v : float) :
  fle fzero v = true -> fle fzero (Square (fadd v fzero)) = true.
Proof.
  destruct v as [s | s | | s m e]; try discriminate.
  - intros _. destruct s; reflexivity.
  - destruct s; [discriminate | reflexivity].
  - destruct s; [discriminate | intros _ ].
    change (fadd (S754_finite false m e) fzero) with (S754_finite false m e).
    unfold Square, fmul, SFmul.
    pose proof (binary_round_aux_sign (xorb false false) (Zpos (m * m)) (e + e)
                  loc_Exact ltac:(lia)) as H.
    destruct (binary_round_aux prec emax (xorb false false)
                (Zpos (m * m)) (e + e) loc_Exact) as [[ | ] | [ | ] | | [ | ] ? ?];
      cbn in H; try discriminate; reflexivity.
Qed.

(** C7.  Away from NaN, the sphere test InView(p, rho) is true exactly
    when [(p - pos) . plane_i <= rho] for each of the four planes and
    [|p - pos|^2 <= (viewRange + rho)^2]; and for a finite camera
    position InView(pos, 0) is true whenever [viewRange >= 0]. *)
Theorem InViewSphere_spec
  (gr : CGlobalRendering) (c : CCamera) (p : float3) (rho : float) :
  is_nan rho = false ->
  (forall i, is_nan (dot (sub3 p (pos c)) (frustumPlanes c i)) = false) ->
  (InViewSphere gr c p rho = true
   <-> (forall i, fle (dot (sub3 p (pos c)) (frustumPlanes c i)) rho = true)
       /\ fle (SqLength (sub3 p (pos c))) (Square (fadd (viewRange gr) rho))
          = true)
  /\ (is_finite3 (pos c) = true -> fle fzero (viewRange gr) = true ->
      InViewSphere gr c (pos c) fzero = true).
Proof.
  intros Hrho Hdot. split.
  - unfold InViewSphere.
    pose proof (InViewSphere_loop_all c (sub3 p (pos c)) rho) as L.
    assert (A : (forall i, fgt (dot (sub3 p (pos c)) (frustumPlanes c i)) rho
                           = false)
                <-> (forall i, fle (dot (sub3 p (pos c)) (frustumPlanes c i)) rho
                               = true)).
    { split; intros H i; specialize (H i);
        rewrite (fgt_negb_fle _ _ (Hdot i) Hrho) in *;
        destruct (fle (dot (sub3 p (pos c)) (frustumPlanes c i)) rho);
        cbn in *; congruence. }
    destruct (InViewSphere_loop c (sub3 p (pos c)) rho frustum_plane_indices).
    + split.
      * intros H. split; [exact (proj1 A (proj1 L eq_refl)) | exact H].
      * intros [_ H]. exact H.
    + split; [discriminate | ].
      intros [H _]. pose proof (proj2 L (proj1 (iff_sym A) H)) as F.
      discriminate.
  - intros Hfin Hvr. unfold is_finite3 in Hfin.
    apply andb_prop in Hfin. destruct Hfin as [Hfin Hz].
    apply andb_prop in Hfin. destruct Hfin as [Hx Hy].
    unfold InViewSphere.
    assert (Z : sub3 (pos c) (pos c) = ZeroVector).
    { unfold sub3, ZeroVector. rewrite !fsub_diag_finite by assumption.
      reflexivity. }
    rewrite Z.
    assert (L : InViewSphere_loop c ZeroVector fzero frustum_plane_indices
                = true).
    { apply InViewSphere_loop_all. intros i. unfold fgt.
      apply (flt_zero_or_nan fzero); [reflexivity | ].
      unfold dot, ZeroVector; cbn [x3 y3 z3].
      repeat apply fadd_zero_or_nan; apply fmul_zero_or_nan_l; reflexivity. }
    rewrite L.
    change (SqLength ZeroVector) with fzero.
    apply fle_zero_square. assumption.
Qed.

(** On the sample camera: a point 100 units in front of it is in view,
    and so is the camera's own position. *)
Lemma InViewSphere_spec_witness :
  InViewSphere sampleRendering sampleCamera
    (mk3 (Z2F 512) (Z2F 1000) (Z2F 412)) (Z2F 10) = true
  /\ InViewSphere sampleRendering sampleCamera (pos sampleCamera) fzero = true.
Proof.
  destruct (InViewSphere_spec sampleRendering sampleCamera
              (mk3 (Z2F 512) (Z2F 1000) (Z2F 412)) (Z2F 10)) as [H1 H2].
  - reflexivity.
  - intros i; destruct i; vm_compute; reflexivity.
  - split.
    + apply H1. split.
      * intros i; destruct i; vm_compute; reflexivity.
      * vm_compute; reflexivity.
    + apply H2; vm_compute; reflexivity.
Defined.

(** ** UpdateFrustum and CopyState *)

(** C2.  UpdateFrustum leaves in the camera that runs it the planes
    top = normalize(forwardY + up), bottom = normalize(forwardY - up),
    right = normalize(forwardX + right), left = normalize(forwardX -
    right), with forwardY = -forward * tanHalfFov and forwardX =
    -forward * tan(aspectRatio * halfFov).  The camera is any but the
    visibility-culling instance, which never runs the method itself and
    would have the planes just computed overwritten by the copy. *)
Theorem UpdateFrustum_planes
  (tan : float -> float) (normalize : float3 -> float3)
  (gr : CGlobalRendering) (this : CamType) (cs : Cameras) :
  this <> CAMTYPE_VISCUL ->
  let c := cs this in
  let forwardY := scale3 (neg3 (forward c)) (tanHalfFov c) in
  let forwardX :=
    scale3 (neg3 (forward c)) (tan (fmul (aspectRatio gr) (halfFov c))) in
  let c' := UpdateFrustum tan normalize gr this cs this in
  frustumPlanes c' FRUSTUM_PLANE_TOP = normalize (add3 forwardY (up c))
  /\ frustumPlanes c' FRUSTUM_PLANE_BOT = normalize (sub3 forwardY (up c))
  /\ frustumPlanes c' FRUSTUM_PLANE_RGT = normalize (add3 forwardX (right c))
  /\ frustumPlanes c' FRUSTUM_PLANE_LFT = normalize (sub3 forwardX (right c)).
Proof.
  intros Hthis c forwardY forwardX c'.
  assert (E : c' = set_frustumPlanes c (computePlanes tan normalize gr c)).
  { subst c' c. unfold UpdateFrustum.
    destruct (camType (set_frustumPlanes (cs this) _));
      unfold setCamera; destruct this; cbn; try reflexivity;
      contradiction. }
  rewrite E. repeat split.
Qed.

Lemma UpdateFrustum_planes_witness :
  frustumPlanes
    (UpdateFrustum sampleTan (SafeNormalize nrm_eps_sample) sampleRendering
       CAMTYPE_PLAYER sampleCameras CAMTYPE_PLAYER) FRUSTUM_PLANE_TOP
  = SafeNormalize nrm_eps_sample
      (add3 (scale3 (neg3 (forward sampleCamera)) (tanHalfFov sampleCamera))
            (up sampleCamera)).
Proof.
  destruct (UpdateFrustum_planes sampleTan (SafeNormalize nrm_eps_sample)
              sampleRendering CAMTYPE_PLAYER sampleCameras) as [H _].
  - discriminate.
  - exact H.
Defined.

(** C10.  CopyState copies the four frustum planes, forward, right, up,
    position, rotation, lppScale and camType from the source and leaves
    every other field of the destination as it was.  Hence, after the
    player or shadow camera has run UpdateFrustum, the visibility-culling
    camera carries the driving camera's camType (and its new planes),
    while its fov-related fields and its matrices are the old ones. *)
Theorem CopyState_frame :
  (forall self cam : CCamera,
      let r := CopyState self cam in
      ((forall i, frustumPlanes r i = frustumPlanes cam i)
       /\ forward r = forward cam /\ right r = right cam /\ up r = up cam
       /\ pos r = pos cam /\ rot r = rot cam
       /\ lppScale r = lppScale cam /\ camType r = camType cam)
      /\ (fov r = fov self /\ halfFov r = halfFov self
          /\ tanHalfFov r = tanHalfFov self
          /\ posOffset r = posOffset self /\ tiltOffset r = tiltOffset self
          /\ viewport r = viewport self
          /\ movState r = movState self /\ rotState r = rotState self
          /\ projectionMatrix r = projectionMatrix self
          /\ viewMatrix r = viewMatrix self
          /\ viewProjectionMatrix r = viewProjectionMatrix self
          /\ viewMatrixInverse r = viewMatrixInverse self
          /\ projectionMatrixInverse r = projectionMatrixInverse self
          /\ viewProjectionMatrixInverse r = viewProjectionMatrixInverse self
          /\ billboardMatrix r = billboardMatrix self
          /\ negFrustumSides r = negFrustumSides self
          /\ posFrustumSides r = posFrustumSides self))
  /\ (forall (tan : float -> float) (normalize : float3 -> float3)
             (gr : CGlobalRendering) (t : CamType) (cs : Cameras),
         t = CAMTYPE_PLAYER \/ t = CAMTYPE_SHADOW ->
         camType (cs t) = t ->
         let cs' := UpdateFrustum tan normalize gr t cs in
         let v := cs CAMTYPE_VISCUL in
         let v' := cs' CAMTYPE_VISCUL in
         camType v' = t
         /\ (forall i, frustumPlanes v' i = frustumPlanes (cs' t) i)
         /\ fov v' = fov v /\ halfFov v' = halfFov v
         /\ tanHalfFov v' = tanHalfFov v
         /\ projectionMatrix v' = projectionMatrix v
         /\ viewMatrix v' = viewMatrix v
         /\ viewProjectionMatrix v' = viewProjectionMatrix v
         /\ viewMatrixInverse v' = viewMatrixInverse v
         /\ projectionMatrixInverse v' = projectionMatrixInverse v
         /\ viewProjectionMatrixInverse v' = viewProjectionMatrixInverse v
         /\ billboardMatrix v' = billboardMatrix v).
Proof.
  split.
  - intros self cam r. subst r. cbn. repeat split.
  - intros tan normalize gr t cs Ht Hty cs' v v'. subst cs' v v'.
    unfold UpdateFrustum.
    replace (camType (set_frustumPlanes (cs t)
                        (computePlanes tan normalize gr (cs t))))
      with t by (symmetry; exact Hty).
    destruct Ht as [-> | ->]; cbn; rewrite ?Hty; repeat split.
Qed.

(** On the sample registry the culling camera ends up with role
    [CAMTYPE_PLAYER] and keeps its own 90 degree field of view. *)
Lemma CopyState_frame_witness :
  camType (UpdateFrustum sampleTan (SafeNormalize nrm_eps_sample)
             sampleRendering CAMTYPE_PLAYER sampleCameras CAMTYPE_VISCUL)
  = CAMTYPE_PLAYER
  /\ fov (UpdateFrustum sampleTan (SafeNormalize nrm_eps_sample)
            sampleRendering CAMTYPE_PLAYER sampleCameras CAMTYPE_VISCUL)
     = Z2F 90.
Proof.
  destruct CopyState_frame as [_ H].
  destruct (H sampleTan (SafeNormalize nrm_eps_sample) sampleRendering
              CAMTYPE_PLAYER sampleCameras (or_introl eq_refl) eq_refl)
    as (H1 & _ & H2 & _).
  split; [exact H1 | exact H2].
Defined.

(** ** Guards against division by zero *)

Local Open Scope Z_scope.

(** *** Quotients and conversions that are numbers *)

Lemma div_eucl_nonneg (a b : Z) :
  0 <= a -> 0 < b -> 0 <= fst (Z.div_eucl a b).
Proof.
  intros Ha Hb. pose proof (Z_div_mod a b ltac:(lia)) as H.
  destruct (Z.div_eucl a b) as [q r]. cbn [fst]. nia.
Qed.

Lemma SFdiv_core_nonneg (m1 m2 : positive) (e1 e2 : Z) :
  0 <= fst (fst (SFdiv_core_binary prec emax (Zpos m1) e1 (Zpos m2) e2)).
Proof.
  unfold SFdiv_core_binary.
  set (e' := Z.min _ _). set (s := e1 - e2 - e').
  set (m' := match s with
             | 0 => Zpos m1
             | Zpos _ => Z.shiftl (Zpos m1) s
             | Zneg _ => 0
             end).
  assert (Hm : 0 <= m').
  { unfold m'. destruct s; try lia. apply Z.shiftl_nonneg. lia. }
  pose proof (div_eucl_nonneg m' (Zpos m2) Hm ltac:(lia)) as H.
  destruct (Z.div_eucl m' (Zpos m2)) as [q r]. exact H.
Qed.

(** A quotient is a NaN only for a NaN operand, for 0/0 and for
    inf/inf. *)
Lemma fdiv_not_nan (x d : float) :
  is_nan x = false -> is_nan d = false -> is_zero d = false ->
  is_finite x = true \/ is_finite d = true ->
  is_nan (fdiv x d) = false.
Proof.
  intros Hx Hd Hz Hf.
  destruct x as [sx | sx | | sx mx ex], d as [sd | sd | | sd md ed];
    try discriminate; try reflexivity;
    try (destruct Hf; discriminate).
  unfold fdiv, SFdiv.
  pose proof (SFdiv_core_nonneg mx md ex ed) as H.
  destruct (SFdiv_core_binary prec emax (Zpos mx) ex (Zpos md) ed)
    as [[mz ez] lz]. cbn [fst] in H.
  pose proof (binary_round_aux_sign (xorb sx sd) mz ez lz H) as S.
  destruct (binary_round_aux prec emax (xorb sx sd) mz ez lz);
    try reflexivity; discriminate.
Qed.

Lemma Zdigits2_upper (m k : Z) : 0 <= k -> 0 <= m < 2 ^ k -> Zdigits2 m <= k.
Proof.
  intros Hk [H0 H1]. destruct m as [ | p | p ]; cbn [Zdigits2]; try lia.
  pose proof (digits2_pos_lower p) as L.
  destruct (Z_le_gt_dec (Zpos (digits2_pos p)) k) as [ | G]; [assumption | ].
  exfalso.
  assert (2 ^ k <= 2 ^ (Zpos (digits2_pos p) - 1))
    by (apply Z.pow_le_mono_r; lia).
  lia.
Qed.

Lemma shr_1_upper (B : Z) (mrs : shr_record) :
  0 <= shr_m mrs <= B -> 0 <= shr_m (shr_1 mrs) <= B.
Proof.
  destruct mrs as [m r s]; cbn [shr_m].
  destruct m as [ | [p | p | ] | p ]; cbn [shr_1 shr_m]; lia.
Qed.

Lemma round_nearest_even_upper (m : Z) (l : location) :
  round_nearest_even m l <= m + 1.
Proof.
  destruct l as [ | [ | | ]]; cbn [round_nearest_even]; try lia.
  destruct (Z.even m); lia.
Qed.

(** Shifting to the canonical exponent: the mantissa does not grow and
    the exponent is the larger of the old one and the canonical one. *)
Lemma shr_fexp_upper (m e : Z) (l : location) (k : Z) :
  0 <= k -> 0 <= m < 2 ^ k ->
  0 <= shr_m (fst (shr_fexp prec emax m e l)) < 2 ^ k
  /\ e <= snd (shr_fexp prec emax m e l)
          <= Z.max e (Z.max (k + e - prec) (emin prec emax)).
Proof.
  intros Hk Hm. unfold shr_fexp, shr.
  pose proof (Zdigits2_upper m k Hk Hm) as D.
  assert (F : fexp prec emax (Zdigits2 m + e)
              <= Z.max (k + e - prec) (emin prec emax))
    by (unfold fexp; lia).
  destruct (fexp prec emax (Zdigits2 m + e) - e) as [ | n | n ] eqn:E;
    cbn [fst snd]; rewrite ?shr_m_of_loc; try lia.
  split; [ | lia].
  assert (H : 0 <= shr_m (SpecFloat.iter_pos shr_1 n (shr_record_of_loc m l))
              <= 2 ^ k - 1).
  { apply (iter_pos_inv (fun x => 0 <= shr_m x <= 2 ^ k - 1)).
    - intros x. apply shr_1_upper.
    - rewrite shr_m_of_loc. lia. }
  lia.
Qed.

(** Rounding a mantissa of moderate size at a moderate exponent does
    not overflow. *)
Lemma binary_round_aux_finite (s : bool) (m e : Z) (l : location) :
  0 <= m < 2 ^ 60 -> emin prec emax <= e <= 0 ->
  is_finite (binary_round_aux prec emax s m e l) = true.
Proof.
  intros Hm He. unfold binary_round_aux.
  destruct (shr_fexp_upper m e l 60 ltac:(lia) Hm) as [M1 E1].
  destruct (shr_fexp prec emax m e l) as [mrs' e'].
  cbn [fst snd] in M1, E1.
  pose proof (round_nearest_even_lower (shr_m mrs') (loc_of_shr_record mrs'))
    as R1.
  pose proof (round_nearest_even_upper (shr_m mrs') (loc_of_shr_record mrs'))
    as R2.
  set (m1 := round_nearest_even (shr_m mrs') (loc_of_shr_record mrs')) in *.
  assert (P : 2 ^ 61 = 2 * 2 ^ 60) by reflexivity.
  destruct (shr_fexp_upper m1 e' loc_Exact 61 ltac:(lia) ltac:(lia))
    as [M2 E2].
  destruct (shr_fexp prec emax m1 e' loc_Exact) as [mrs'' e''].
  cbn [fst snd] in M2, E2.
  unfold prec, emax, emin in *.
  destruct (shr_m mrs'') as [ | q | q ]; [reflexivity | | lia].
  destruct (Z.leb_spec e'' (128 - 24)); [reflexivity | lia].
Qed.

Lemma shift_pos_value (n p : positive) :
  Zpos (shift_pos n p) = Zpos p * 2 ^ Zpos n.
Proof.
  rewrite shift_pos_correct, Z.pow_pos_fold. lia.
Qed.

(** [int -> float] is finite on the whole range of [int]. *)
Lemma Z2F_finite (z : Z) : Z.abs z < 2 ^ 31 -> is_finite (Z2F z) = true.
Proof.
  intros Hz. unfold Z2F, binary_normalize.
  assert (R : forall (s : bool) (p : positive),
             Zpos p < 2 ^ 31 ->
             is_finite (binary_round prec emax s p 0) = true).
  { intros s p Hp. unfold binary_round, shl_align.
    pose proof (Zdigits2_upper (Zpos p) 31 ltac:(lia) ltac:(lia)) as D.
    cbn [Zdigits2] in D.
    assert (D0 : 1 <= Zpos (digits2_pos p)) by lia.
    destruct (fexp prec emax (Zpos (digits2_pos p) + 0) - 0)
      as [ | n | n ] eqn:E.
    - apply binary_round_aux_finite; unfold prec, emax, emin; lia.
    - apply binary_round_aux_finite; unfold prec, emax, emin; lia.
    - assert (Hn : Zpos n <= 23)
        by (unfold fexp, prec, emax, emin in E; lia).
      assert (En : fexp prec emax (Zpos (digits2_pos p) + 0) = - Zpos n)
        by lia.
      rewrite En. cbv beta iota.
      apply binary_round_aux_finite.
      + change (PosDef.Pos.iter xO p n) with (shift_pos n p).
        rewrite shift_pos_value. split; [lia | ].
        assert (2 ^ Zpos n <= 2 ^ 23) by (apply Z.pow_le_mono_r; lia).
        assert (0 < 2 ^ Zpos n) by (apply Z.pow_pos_nonneg; lia).
        change (2 ^ 60) with (2 ^ 31 * 2 ^ 29).
        change (2 ^ 23) with 8388608 in *. nia.
      + unfold prec, emax, emin; lia. }
  destruct z as [ | p | p ]; [reflexivity | apply R; lia | apply R; lia].
Qed.

Lemma clamped_divisor (z : float) :
  let xz := if flt (fabs z) f0_001 then f0_001 else z in
  feq xz fzero = false /\ flt (fabs xz) f0_001 = false
  /\ is_zero xz = false /\ (is_nan z = false -> is_nan xz = false).
Proof.
  cbv zeta. destruct (flt (fabs z) f0_001) eqn:E.
  - repeat split.
  - split; [ | split; [exact E | split; [ | trivial]]];
      destruct z as [ [ | ] | [ | ] | | [ | ] ]; try reflexivity;
      discriminate.
Qed.

(** C8, as the code has it.  GetFrustumSide appends one line whose
    [dir] is [xdir.x / d], where the divisor [d] is 0.001 whenever
    [|xdir.z| < 0.001] and [xdir.z] otherwise: [d] is never zero and
    never below 0.001 in magnitude, and the quotient is a number
    whenever [xdir.x] is finite and [xdir.z] is not NaN.  The division
    by [ydir.y] is evaluated only for [ydir.y != 0]; otherwise the
    intersection point stays the zero vector.  The line's [base] is a
    quotient by the parameter [scale], which no guard protects.
    CalcPixelDir computes with both viewport dimensions floored at 1:
    its result is that of the floored viewport, its divisor is neither
    zero nor NaN, and for a height in the range of [int] the divisor is
    finite and both quotients are numbers.  The frustum-plane vectors
    are handed to the normalisation routine as they are, whatever their
    length: Camera.cpp has no guard of its own there, and the plane is
    what that routine returns. *)
Theorem division_guards :
  (forall (normalize : float3 -> float3) (SQUARE_SIZE : Z) (mapDims : MapDims)
          (c : CCamera) (zdir offset : float3) (miny maxy scale : float)
          (upwardDir negSide : bool),
      let xdir := normalize (cross zdir UpVector) in
      let ydir := normalize (cross zdir xdir) in
      let xz := if flt (fabs (z3 xdir)) f0_001 then f0_001 else z3 xdir in
      let pInt :=
        if fne (y3 ydir) fzero
        then sub3 (add3 (pos c) offset)
               (scale3 ydir
                  (fdiv (fsub (y3 (pos c))
                           (if upwardDir then miny else maxy))
                        (y3 ydir)))
        else ZeroVector in
      let r := GetFrustumSide normalize SQUARE_SIZE mapDims c zdir offset
                 miny maxy scale upwardDir negSide in
      exists line : FrustumLine,
        ((negFrustumSides (fst r) = negFrustumSides c ++ [line]
          /\ posFrustumSides (fst r) = posFrustumSides c)
         \/ (posFrustumSides (fst r) = posFrustumSides c ++ [line]
             /\ negFrustumSides (fst r) = negFrustumSides c))
        /\ dir line = fdiv (x3 xdir) xz
        /\ base line
           = fdiv (fsub (x3 pInt) (fmul (z3 pInt) (dir line))) scale
        /\ feq xz fzero = false /\ flt (fabs xz) f0_001 = false
        /\ (is_finite (x3 xdir) = true -> is_nan (z3 xdir) = false ->
            is_nan (dir line) = false)
        /\ snd r = (if fne (y3 ydir) fzero then [y3 ydir] else [])
                   ++ [xz; scale])
  /\ (forall (normalize : float3 -> float3) (gr : CGlobalRendering)
             (c : CCamera) (x y : Z),
         let vsx := Z.max 1 (viewSizeX gr) in
         let vsy := Z.max 1 (viewSizeY gr) in
         let qx := fdiv (Z2F (x - viewPosX gr - Z.shiftr vsx 1)) (Z2F vsy) in
         let qy := fdiv (Z2F (y - Z.shiftr vsy 1)) (Z2F vsy) in
         let floored :=
           mkGlobalRendering vsx vsy (viewPosX gr) (aspectRatio gr)
             (zNear gr) (viewRange gr) (lastFrameTime gr)
             (dualScreenMode gr) in
         fst (CalcPixelDir normalize gr c x y)
         = normalize
             (add3 (sub3 (forward c)
                      (scale3 (up c) (fmul qy (fmul (tanHalfFov c) f2))))
                   (scale3 (right c) (fmul qx (fmul (tanHalfFov c) f2))))
         /\ CalcPixelDir normalize gr c x y
            = CalcPixelDir normalize floored c x y
         /\ feq (Z2F vsy) fzero = false /\ is_nan (Z2F vsy) = false
         /\ (viewSizeY gr <= INT_MAX ->
             is_finite (Z2F vsy) = true
             /\ is_nan qx = false /\ is_nan qy = false)
         /\ snd (CalcPixelDir normalize gr c x y) = [Z2F vsy; Z2F vsy])
  /\ (forall (tan : float -> float) (normalize : float3 -> float3)
             (gr : CGlobalRendering) (c : CCamera),
         let planes := computePlanes tan normalize gr c in
         planes FRUSTUM_PLANE_TOP = normalize (add3 (forwardy c) (up c))
         /\ planes FRUSTUM_PLANE_BOT = normalize (sub3 (forwardy c) (up c))
         /\ planes FRUSTUM_PLANE_RGT
            = normalize (add3 (forwardx tan gr c) (right c))
         /\ planes FRUSTUM_PLANE_LFT
            = normalize (sub3 (forwardx tan gr c) (right c))).
Proof.
  split; [ | split].
  - intros normalize SQUARE_SIZE mapDims c zdir offset miny maxy scale
           upwardDir negSide xdir ydir xz pInt r.
    destruct (clamped_divisor (z3 xdir)) as (G1 & G2 & G3 & G4).
    fold xz in G1, G2, G3, G4.
    assert (EX : x3 (if flt (fabs (z3 xdir)) f0_001
                     then mk3 (x3 xdir) (y3 xdir) f0_001 else xdir)
                 = x3 xdir)
      by (destruct (flt (fabs (z3 xdir)) f0_001); reflexivity).
    assert (EZ : z3 (if flt (fabs (z3 xdir)) f0_001
                     then mk3 (x3 xdir) (y3 xdir) f0_001 else xdir)
                 = xz)
      by (unfold xz; destruct (flt (fabs (z3 xdir)) f0_001); reflexivity).
    set (line := mkLine
                   (fdiv (fsub (x3 pInt) (fmul (z3 pInt) (fdiv (x3 xdir) xz)))
                         scale)
                   (fdiv (x3 xdir) xz)
                   (if fle xz fzero then 1 else -1)
                   (fsub fzero (Z2F (mapy mapDims)))
                   (Z2F (mapy mapDims * SQUARE_SIZE + mapy mapDims))).
    assert (ER : r = (if Z.eqb (sign line) 1 || negSide
                      then set_negFrustumSides c (negFrustumSides c ++ [line])
                      else set_posFrustumSides c (posFrustumSides c ++ [line]),
                      (if fne (y3 ydir) fzero then [y3 ydir] else [])
                      ++ [xz; scale])).
    { unfold r, GetFrustumSide, frustumSideLine. fold xdir. fold ydir.
      rewrite EX, EZ. unfold line, pInt. cbn [sign].
      destruct (fne (y3 ydir) fzero), upwardDir; reflexivity. }
    exists line. rewrite ER. cbn [fst snd].
    split.
    { destruct (Z.eqb (sign line) 1 || negSide); [left | right];
        split; reflexivity. }
    repeat split; try assumption.
    intros Hx Hz. cbn [dir line].
    apply fdiv_not_nan; auto.
    destruct (x3 xdir); try discriminate; reflexivity.
  - intros normalize gr c x y vsx vsy qx qy floored.
    destruct (Z2F_nonzero vsy ltac:(subst vsy; lia)) as [Hz Hn].
    split; [reflexivity | ].
    split.
    { unfold CalcPixelDir, floored.
      cbn [viewSizeX viewSizeY viewPosX].
      fold vsx. fold vsy.
      replace (Z.max 1 vsx) with vsx by (subst vsx; lia).
      replace (Z.max 1 vsy) with vsy by (subst vsy; lia).
      reflexivity. }
    split; [rewrite feq_zero_is_zero; exact Hz | ].
    split; [exact Hn | ].
    split; [ | reflexivity].
    intros HB.
    assert (F : is_finite (Z2F vsy) = true).
    { apply Z2F_finite. subst vsy. unfold INT_MAX in HB. lia. }
    assert (N : forall a, is_nan (Z2F a) = false).
    { intros a. destruct (Z.eq_dec a 0) as [-> | Ha]; [reflexivity | ].
      apply (Z2F_nonzero a Ha). }
    repeat split; try assumption; apply fdiv_not_nan; auto.
  - intros tan normalize gr c planes. subst planes.
    unfold computePlanes, setPlane. cbn [FrustumPlane_eqb].
    repeat split.
Qed.

(** A plane facing along +z gives [xdir = (-1, 0, 0)]: its z-component
    is replaced by 0.001 and the line's direction is -1 / 0.001, a
    number; on a viewport of height 0 the quotients of CalcPixelDir are
    numbers too. *)
Lemma division_guards_witness :
  (exists line : FrustumLine,
      In line
        (negFrustumSides
           (fst (GetFrustumSide (SafeNormalize nrm_eps_sample) 8
                   sampleMapDims sampleCamera (mk3 fzero fzero fone)
                   ZeroVector (Z2F 0) (Z2F 200) fone false false))
         ++ posFrustumSides
              (fst (GetFrustumSide (SafeNormalize nrm_eps_sample) 8
                      sampleMapDims sampleCamera (mk3 fzero fzero fone)
                      ZeroVector (Z2F 0) (Z2F 200) fone false false)))
      /\ dir line = fdiv (Z2F (-1)) f0_001
      /\ is_nan (dir line) = false)
  /\ is_nan (fdiv (Z2F (500 - 0 - Z.shiftr (Z.max 1 1000) 1))
                  (Z2F (Z.max 1 0))) = false.
Proof.
  destruct division_guards as (HA & HB & _).
  split.
  - destruct (HA (SafeNormalize nrm_eps_sample) 8 sampleMapDims sampleCamera
                (mk3 fzero fzero fone) ZeroVector (Z2F 0) (Z2F 200) fone
                false false)
      as (line & Hfiled & Hdir & _ & _ & _ & Hnan & _).
    exists line. split; [ | split].
    + destruct Hfiled as [[-> _] | [-> _]]; apply in_or_app;
        [left | right]; apply in_or_app; right; left; reflexivity.
    + rewrite Hdir. vm_compute. reflexivity.
    + apply Hnan; vm_compute; reflexivity.
  - destruct (HB (fun v => v)
                (mkGlobalRendering 1000 0 0 (lit 5 4) (lit 28 10) (Z2F 8000)
                   (Z2F 16) false) sampleCamera 500 0)
      as (_ & _ & _ & _ & H & _).
    cbn [viewSizeX viewSizeY viewPosX] in H.
    destruct (H ltac:(unfold INT_MAX; lia)) as (_ & Q & _).
    exact Q.
Defined.

(** C8 as stated fails: with [scale = 0] the last division of
    GetFrustumSide is a division by zero and the line's [base] is
    infinite. *)
Lemma division_guards_counterexample :
  snd (GetFrustumSide (SafeNormalize nrm_eps_sample) 8 sampleMapDims
         sampleCamera (samplePlanes FRUSTUM_PLANE_RGT) ZeroVector
         (Z2F 0) (Z2F 200) fzero false false)
  = [Z2F (-1); lit 4 5; fzero]
  /\ map base
       (posFrustumSides
          (fst (GetFrustumSide (SafeNormalize nrm_eps_sample) 8 sampleMapDims
                  sampleCamera (samplePlanes FRUSTUM_PLANE_RGT) ZeroVector
                  (Z2F 0) (Z2F 200) fzero false false)))
     = [S754_infinity false].
Proof. vm_compute. split; reflexivity. Qed.

(** ** Edge scrolling *)

(** The x-component of the edge-scroll branch with the binary (not
    faded) step. *)
Lemma moveVector_x (gr : CGlobalRendering) (w : float)
  (mouse : CMouseHandler) (c : CCamera) :
  x3 (GetMoveVectorFromState gr (mkConfig w false) mouse c false)
  = let screenW := if dualScreenMode gr
                   then wrap_int (Z.shiftl (viewSizeX gr) 1)
                     else viewSizeX gr in
    let border_x := Z.max 1 (F2Z (fmul (Z2F screenW) w)) in
    let d0 := Z2F (ClampZ (lastx mouse) 0 screenW) in
    let d1 := if flt (fsub (Z2F (screenW - 1)) d0) d0
              then fneg (fsub (Z2F (screenW - 1)) d0) else d0 in
    let d2 := fneg d1 in
    fmul (fmul (lastFrameTime gr) f0_001)
         (copysign (B2F (flt (fabs d2) (Z2F border_x))) d2).
Proof. reflexivity. Qed.

(** C9.  EdgeMoveDynamic = false, EdgeMoveWidth = 0.02f, one screen of
    width 1000: the border is 20 pixels.  With the cursor on the last
    pixel column, x = 999, the x-component is the full positive step
    [lastFrameTime * 0.001f * 1.0f].  With the cursor coordinate clamped
    by [Clamp(lastx, 0, screenW)], that is for every lastx >= 1000, the
    step has full magnitude and negative sign. *)
Theorem GetMoveVectorFromState_right_edge
  (c : CCamera) (dt : float) (sizeY posX : Z) (ar zn vr : float) (my : Z) :
  let gr := mkGlobalRendering 1000 sizeY posX ar zn vr dt false in
  let cfg := mkConfig f0_02 false in
  Z.max 1 (F2Z (fmul (Z2F 1000) f0_02)) = 20
  /\ x3 (GetMoveVectorFromState gr cfg (mkMouse 999 my) c false)
     = fmul (fmul dt f0_001) fone
  /\ (forall mx : Z,
         1000 <= mx ->
         x3 (GetMoveVectorFromState gr cfg (mkMouse mx my) c false)
         = fmul (fmul dt f0_001) (fneg fone)).
Proof.
  intros gr cfg. split; [reflexivity | split].
  - subst gr cfg. rewrite moveVector_x. reflexivity.
  - intros mx Hmx. subst gr cfg. rewrite moveVector_x.
    cbn [lastx dualScreenMode viewSizeX lastFrameTime]. cbv zeta.
    unfold ClampZ.
    replace (Z.min 1000 (Z.max 0 mx)) with 1000 by lia.
    f_equal.
Qed.

Lemma GetMoveVectorFromState_right_edge_witness :
  x3 (GetMoveVectorFromState sampleRendering (mkConfig f0_02 false)
        (mkMouse 1000 400) sampleCamera false)
  = fmul (fmul (Z2F 16) f0_001) (fneg fone).
Proof.
  destruct (GetMoveVectorFromState_right_edge sampleCamera (Z2F 16) 800 0
              (lit 5 4) (lit 28 10) (Z2F 8000) 400) as (_ & _ & H).
  apply (H 1000). lia.
Defined.

(** ** Geometry in exact arithmetic *)

Module ExactFacts.
Import Exact.
Local Open Scope R_scope.








Lemma sqrt_pos_scale (x y : R) :
  0 < x -> sqrt (x * x + y * y) = x * sqrt (1 + (y / x)²).
Proof.
  intros Hx.
  replace (x * x + y * y) with ((x * x) * (1 + (y / x)²))
    by (unfold Rsqr; field; lra).
  rewrite sqrt_mult_alt by nra.
  rewrite sqrt_square by lra. reflexivity.
Qed.

Lemma sqrt_neg_scale (x y : R) :
  x < 0 -> sqrt (x * x + y * y) = - x * sqrt (1 + (y / x)²).
Proof.
  intros Hx.
  replace (x * x + y * y) with ((- x * - x) * (1 + (y / x)²))
    by (unfold Rsqr; field; lra).
  rewrite sqrt_mult_alt by nra.
  rewrite sqrt_square by lra. reflexivity.
Qed.

Lemma sqrt_one_plus_sqr_pos (t : R) : 0 < sqrt (1 + t²).
Proof. apply sqrt_lt_R0. unfold Rsqr. nra. Qed.

Lemma sin_minus_PI (a : R) : sin (a - PI) = - sin a.
Proof. rewrite sin_minus, cos_PI, sin_PI. ring. Qed.

Lemma cos_minus_PI (a : R) : cos (a - PI) = - cos a.
Proof. rewrite cos_minus, cos_PI, sin_PI. ring. Qed.

(** The sine and cosine of the angle of a point other than the
    origin. *)
Lemma sin_atan2 (y x : R) :
  0 < x * x + y * y -> sin (atan2 y x) = y / sqrt (x * x + y * y).
Proof.
  intros H. unfold atan2.
  pose proof (sqrt_one_plus_sqr_pos (y / x)) as HS.
  destruct (Rlt_dec 0 x) as [Hx | Hx].
  - rewrite sin_atan, (sqrt_pos_scale x y Hx). field. lra.
  - destruct (Rlt_dec x 0) as [Hx' | Hx'].
    + rewrite (sqrt_neg_scale x y Hx').
      destruct (Rle_dec 0 y).
      * rewrite neg_sin, sin_atan. field. lra.
      * rewrite sin_minus_PI, sin_atan. field. lra.
    + assert (x = 0) by lra. subst x.
      replace (0 * 0 + y * y) with (y * y) by ring.
      destruct (Rlt_dec 0 y) as [Hy | Hy].
      * rewrite sin_PI2, sqrt_square by lra. field. lra.
      * destruct (Rlt_dec y 0) as [Hy' | Hy']; [ | nra].
        replace (y * y) with (- y * - y) by ring.
        rewrite sin_neg, sin_PI2, sqrt_square by lra. field. lra.
Qed.

Lemma cos_atan2 (y x : R) :
  0 < x * x + y * y -> cos (atan2 y x) = x / sqrt (x * x + y * y).
Proof.
  intros H. unfold atan2.
  pose proof (sqrt_one_plus_sqr_pos (y / x)) as HS.
  destruct (Rlt_dec 0 x) as [Hx | Hx].
  - rewrite cos_atan, (sqrt_pos_scale x y Hx). field. lra.
  - destruct (Rlt_dec x 0) as [Hx' | Hx'].
    + rewrite (sqrt_neg_scale x y Hx').
      destruct (Rle_dec 0 y).
      * rewrite neg_cos, cos_atan. field. lra.
      * rewrite cos_minus_PI, cos_atan. field. lra.
    + assert (x = 0) by lra. subst x.
      replace (0 * 0 + y * y) with (y * y) by ring.
      destruct (Rlt_dec 0 y) as [Hy | Hy].
      * rewrite cos_PI2. unfold Rdiv. ring.
      * destruct (Rlt_dec y 0) as [Hy' | Hy']; [ | nra].
        rewrite cos_neg, cos_PI2. unfold Rdiv. ring.
Qed.

Lemma Normalize_unit (d : float3) : SqLength d = 1 -> Normalize d = d.
Proof.
  intros H. unfold Normalize, scale3. rewrite H, sqrt_1, Rinv_1.
  destruct d as [x y z]. cbn [x3 y3 z3]. f_equal; ring.
Qed.

(** C4, in exact arithmetic.  For every direction [d] of length 1,
    GetFwdFromRot(GetRotFromDir(d)) is [d] itself, so the code
    reproduces [d] up to the rounding of its floating-point
    operations; and the roll component returned by GetRotFromDir is 0
    for every input. *)
Theorem GetFwdFromRot_GetRotFromDir :
  (forall d : float3,
      SqLength d = 1 -> GetFwdFromRot (GetRotFromDir d) = d)
  /\ (forall d : float3, z3 (GetRotFromDir d) = 0).
Proof.
  split; [ | reflexivity].
  intros d H. unfold GetRotFromDir. rewrite (Normalize_unit d H).
  destruct d as [x y z]. unfold SqLength, dot in H. cbn [x3 y3 z3] in H.
  unfold GetFwdFromRot. cbn [x3 y3 z3].
  assert (Hy : -1 <= y <= 1) by nra.
  rewrite (cos_acos y Hy), (sin_acos y Hy).
  replace (1 - y²) with (- z * - z + x * x) by (unfold Rsqr; nra).
  destruct (Req_dec (- z * - z + x * x) 0) as [Z | NZ].
  - assert (x = 0) by nra. assert (z = 0) by nra. subst x z.
    rewrite Z, sqrt_0. f_equal; ring.
  - assert (P : 0 < - z * - z + x * x) by nra.
    rewrite (sin_atan2 x (- z) P), (cos_atan2 x (- z) P).
    pose proof (sqrt_lt_R0 _ P) as HS.
    f_equal; field; lra.
Qed.

Lemma GetFwdFromRot_GetRotFromDir_witness :
  GetFwdFromRot (GetRotFromDir (mk3 0 0 (-1))) = mk3 0 0 (-1).
Proof.
  destruct GetFwdFromRot_GetRotFromDir as [H _].
  apply H. unfold SqLength, dot. cbn [x3 y3 z3]. ring.
Defined.


(** C6.  ComputeViewRange scales both reference distances by the same
    factor [wantedViewRange / MAX_VIEW_RANGE], with [wantedViewRange]
    the largest of [MAX_VIEW_RANGE], the height-driven range and the
    angle-driven range, so that [viewRange / zNear] is
    [MAX_VIEW_RANGE / NEAR_PLANE] (exactly, rounding apart). *)
Theorem ComputeViewRange_ratio
  (MAX_VIEW_RANGE NEAR_PLANE maxxpos maxzpos : R)
  (c : CCamera) (terrainMinHeight : R) :
  0 < MAX_VIEW_RANGE -> 0 < NEAR_PLANE ->
  let w := spec_wantedViewRange MAX_VIEW_RANGE maxxpos maxzpos c
                                terrainMinHeight in
  let r := ComputeViewRange MAX_VIEW_RANGE NEAR_PLANE maxxpos maxzpos c
                            terrainMinHeight in
  fst r = NEAR_PLANE * (w / MAX_VIEW_RANGE)
  /\ snd r = MAX_VIEW_RANGE * (w / MAX_VIEW_RANGE)
  /\ snd r / fst r = MAX_VIEW_RANGE / NEAR_PLANE.
Proof.
  intros HM HN w r.
  assert (E : wantedViewRange MAX_VIEW_RANGE maxxpos maxzpos c
                              terrainMinHeight = w).
  { subst w. unfold wantedViewRange, spec_wantedViewRange, max3, Square.
    symmetry. apply Rmax_assoc. }
  assert (Hw : MAX_VIEW_RANGE <= w).
  { subst w. unfold spec_wantedViewRange, max3. apply Rmax_l. }
  subst r. unfold ComputeViewRange. cbn [fst snd]. rewrite E.
  repeat split. field. lra.
Qed.

Lemma ComputeViewRange_ratio_witness :
  snd (ComputeViewRange 8000 (28 / 10) 1024 1024 sampleCamera 50)
  / fst (ComputeViewRange 8000 (28 / 10) 1024 1024 sampleCamera 50)
  = 8000 / (28 / 10).
Proof.
  destruct (ComputeViewRange_ratio 8000 (28 / 10) 1024 1024 sampleCamera 50)
    as (_ & _ & H).
  - lra.
  - lra.
  - exact H.
Defined.
End ExactFacts.

(** ** Orientation in binary32 *)

Local Open Scope Z_scope.

Lemma within_zero_or_nan_nearPole (v : float) :
  zero_or_nan v = true -> within f1em4 v (x3 nearPole) = false.
Proof.
  destruct v as [[ | ] | | | ]; try discriminate; intros _; reflexivity.
Qed.

(** C4 as stated fails in binary32.  The direction (0.0002, 1, 0) has
    squared length 1 + 4e-8, which rounds to 1: normalisation (scaling
    by the inverse square root of the squared length) leaves it as it
    is.  Whatever the math library, as long as it computes
    [acos(1) = 0] and [sin(0) = 0] exactly, the x-component that comes
    back is a zero (or NaN), 2e-4 away from 0.0002. *)
Lemma roundtrip_counterexample :
  SqLength nearPole = fone
  /\ SafeNormalize nrm_eps_sample nearPole = nearPole
  /\ (forall (sin cos acos : float -> float)
             (atan2 : float -> float -> float)
             (Normalize : float3 -> float3),
         Normalize nearPole = nearPole ->
         acos fone = fzero ->
         sin fzero = fzero ->
         within f1em4
           (x3 (GetFwdFromRot sin cos
                  (GetRotFromDir acos atan2 Normalize nearPole)))
           (x3 nearPole) = false).
Proof.
  split; [vm_compute; reflexivity | ].
  split; [vm_compute; reflexivity | ].
  intros sin cos acos atan2 Normalize HN Hacos Hsin.
  unfold GetRotFromDir, GetFwdFromRot. rewrite HN. cbn [x3 y3 z3 nearPole].
  change (S754_finite false 8388608 (-23)) with fone.
  rewrite Hacos, Hsin.
  apply within_zero_or_nan_nearPole.
  apply fmul_zero_or_nan_l. reflexivity.
Qed.

(** The failing input of C5 in binary32: with any math library that
    computes [sin(0) = 0] and [cos(0) = 1] exactly, the roll
    r = (0, 0, HALFPI) gives forward = right = (0, 1, 0) up to signs of
    zeros, and [forward . right] is 1 (or NaN), not within 1e-5 of 0. *)
Lemma UpdateDirsFromRot_roll_binary32
  (sin cos : float -> float) (Normalize : float3 -> float3) (c : CCamera) :
  sin fzero = fzero -> cos fzero = fone ->
  let c' := UpdateDirsFromRot sin cos Normalize c (mk3 fzero fzero HALFPI) in
  within f1em5 (dot (forward c') (right c')) fzero = false.
Proof.
  intros Hsin Hcos c'. subst c'.
  unfold UpdateDirsFromRot, GetFwdFromRot, GetRgtFromRot.
  cbn [forward right x3 y3 z3].
  change (fsub HALFPI HALFPI) with fzero.
  change (fadd fzero HALFPI) with HALFPI.
  rewrite Hsin, Hcos. unfold dot. cbn [x3 y3 z3].
  destruct (sin HALFPI) as [[ | ] | [ | ] | | [ | ] m e];
    destruct (cos HALFPI) as [[ | ] | [ | ] | | [ | ] m' e'];
    reflexivity.
Qed.

(** * Further properties *)

(** ** The order of binary32 numbers *)

Local Open Scope Z_scope.

Lemma lex_pos_lt (e1 e2 : Z) (m1 m2 : positive) :
  match e1 ?= e2 with
  | Lt => Lt | Gt => Gt | Eq => Pos.compare_cont Eq m1 m2
  end = Lt
  <-> e1 < e2 \/ (e1 = e2 /\ (m1 < m2)%positive).
Proof.
  change (Pos.compare_cont Eq m1 m2) with (Pos.compare m1 m2).
  destruct (Z.compare_spec e1 e2) as [E | E | E].
  - rewrite Pos.compare_lt_iff.
    split; [auto | intros [H | [_ H]]; [lia | exact H]].
  - split; [auto | reflexivity].
  - split; [discriminate | lia].
Qed.

Lemma lex_neg_lt (e1 e2 : Z) (m1 m2 : positive) :
  match e1 ?= e2 with
  | Lt => Gt | Gt => Lt | Eq => CompOpp (Pos.compare_cont Eq m1 m2)
  end = Lt
  <-> e2 < e1 \/ (e1 = e2 /\ (m2 < m1)%positive).
Proof.
  change (Pos.compare_cont Eq m1 m2) with (Pos.compare m1 m2).
  destruct (Z.compare_spec e1 e2) as [E | E | E].
  - rewrite <- Pos.compare_antisym, Pos.compare_lt_iff.
    split; [auto | intros [H | [_ H]]; [lia | exact H]].
  - split; [discriminate | lia].
  - split; [auto | reflexivity].
Qed.

Lemma SFltb_finite (s1 s2 : bool) (m1 m2 : positive) (e1 e2 : Z) :
  SFltb (S754_finite s1 m1 e1) (S754_finite s2 m2 e2) = true
  <-> match s1, s2 with
      | true, false => True
      | false, true => False
      | false, false => e1 < e2 \/ (e1 = e2 /\ (m1 < m2)%positive)
      | true, true => e2 < e1 \/ (e1 = e2 /\ (m2 < m1)%positive)
      end.
Proof.
  unfold SFltb. cbn [SFcompare].
  destruct s1, s2.
  - rewrite <- lex_neg_lt.
    destruct (match e1 ?= e2 with Lt => Gt | Gt => Lt
              | Eq => CompOpp (Pos.compare_cont Eq m1 m2) end);
      split; congruence.
  - split; auto.
  - split; [discriminate | contradiction].
  - rewrite <- lex_pos_lt.
    destruct (match e1 ?= e2 with Lt => Lt | Gt => Gt
              | Eq => Pos.compare_cont Eq m1 m2 end);
      split; congruence.
Qed.

(** [<] on binary32 numbers is transitive. *)
Lemma flt_trans (a b c : float) :
  flt a b = true -> flt b c = true -> flt a c = true.
Proof.
  unfold flt.
  destruct a as [sa | sa | | sa ma ea], b as [sb | sb | | sb mb eb],
    c as [sc | sc | | sc mc ec];
    try (cbn; discriminate);
    try (destruct sa; cbn; discriminate);
    try (destruct sb; cbn; discriminate);
    try (destruct sa, sb; cbn; discriminate);
    try (destruct sa, sb, sc; cbn; (discriminate || reflexivity)).
  rewrite !SFltb_finite. destruct sa, sb, sc; try tauto; lia.
Qed.

Lemma flt_fle (a b : float) : flt a b = true -> fle a b = true.
Proof.
  unfold flt, fle, SFltb, SFleb.
  destruct (SFcompare a b) as [[ | | ] | ]; congruence.
Qed.

(** ** ClipFrustumLines only tightens *)

Local Open Scope nat_scope.

Lemma tightened_refl (zmin zmax : float) (a : FrustumLine) :
  tightened zmin zmax a a.
Proof. repeat split; left; reflexivity. Qed.

Lemma tightened_trans (zmin zmax : float) (a b c : FrustumLine) :
  tightened zmin zmax a b -> tightened zmin zmax b c ->
  tightened zmin zmax a c.
Proof.
  intros ((B1 & D1 & S1) & M1 & X1) ((B2 & D2 & S2) & M2 & X2).
  split; [repeat split; congruence | split].
  - destruct M2 as [E2 | [L2 U2]].
    + rewrite E2. exact M1.
    + right. split; [ | exact U2].
      destruct M1 as [E1 | [L1 _]].
      * rewrite <- E1. exact L2.
      * exact (flt_trans _ _ _ L1 L2).
  - destruct X2 as [E2 | [L2 U2]].
    + rewrite E2. exact X1.
    + right. split; [ | exact U2].
      destruct X1 as [E1 | [L1 _]].
      * rewrite <- E1. exact L2.
      * exact (flt_trans _ _ _ L2 L1).
Qed.

Lemma clipPair_tightened (zmin zmax : float) (a b : FrustumLine) :
  tightened zmin zmax a (fst (clipPair zmin zmax a b)).
Proof.
  unfold clipPair.
  destruct (feq (fsub (dir a) (dir b)) fzero); [apply tightened_refl | ].
  cbn [fst].
  destruct (fgt (fmul (Z2F (sign b)) (fsub (dir a) (dir b))) fzero).
  - destruct (fgt _ (minz a) && flt _ zmax)%bool eqn:E;
      [ | apply tightened_refl].
    apply andb_prop in E. destruct E as [E1 E2].
    repeat split; try (left; reflexivity).
    right. split; [exact E1 | exact E2].
  - destruct (flt _ (maxz a) && fgt _ zmin)%bool eqn:E;
      [ | apply tightened_refl].
    apply andb_prop in E. destruct E as [E1 E2].
    repeat split; try (left; reflexivity).
    right. split; [exact E1 | exact E2].
Qed.

Lemma clipLineStep_tightened (zmin zmax : float) (lines : list FrustumLine)
  (i : nat) :
  forall (js : list nat) (a : FrustumLine),
    tightened zmin zmax a (fold_left (clipLineStep zmin zmax lines i) js a).
Proof.
  intros js; induction js as [ | j js IH]; intros a; cbn [fold_left].
  - apply tightened_refl.
  - apply (tightened_trans _ _ _ (clipLineStep zmin zmax lines i a j));
      [ | apply IH].
    unfold clipLineStep. destruct (Nat.eqb i j);
      [apply tightened_refl | apply clipPair_tightened].
Qed.

Lemma Forall2_of_nth {A} (R : A -> A -> Prop) (d : A) :
  forall l l' : list A,
    length l' = length l ->
    (forall k, k < length l -> R (nth k l d) (nth k l' d)) ->
    Forall2 R l l'.
Proof.
  intros l; induction l as [ | h t IH]; intros [ | h' t'] L H;
    try discriminate; constructor.
  - apply (H 0). cbn. lia.
  - apply IH; [cbn in L; lia | ].
    intros k Hk. apply (H (S k)). cbn. lia.
Qed.

(** X1.  ClipFrustumLines never moves a line: for every input, every
    line of the selected sequence keeps its [base], [dir] and [sign],
    its [minz] is the old one or lies strictly between the old one and
    [zmax], and its [maxz] is the old one or lies strictly between
    [zmin] and the old one.  The number of lines is unchanged. *)
Theorem ClipFrustumLines_tightens
  (neg : bool) (zmin zmax : float) (c : CCamera) :
  Forall2 (tightened zmin zmax)
    (selectedLines neg c)
    (selectedLines neg (fst (ClipFrustumLines neg zmin zmax c))).
Proof.
  pose proof (clipLines_nth zmin zmax (selectedLines neg c)) as [L N].
  unfold ClipFrustumLines.
  destruct (clipLines zmin zmax (selectedLines neg c)) as [lines divs].
  cbn [fst] in *.
  assert (E : selectedLines neg
                (if neg then set_negFrustumSides c lines
                 else set_posFrustumSides c lines) = lines)
    by (destruct neg; reflexivity).
  rewrite E.
  apply (Forall2_of_nth _ dummyLine); [exact L | ].
  intros k Hk. rewrite (N k Hk). apply clipLineStep_tightened.
Qed.

Lemma clipLineStep_parallel (zmin zmax : float) (lines : list FrustumLine)
  (i : nat) :
  (forall j, j <> i -> j < length lines ->
             feq (dir (nth i lines dummyLine)) (dir (nth j lines dummyLine))
             = true) ->
  forall js : list nat,
    (forall j, In j js -> j < length lines) ->
    fold_left (clipLineStep zmin zmax lines i) js (nth i lines dummyLine)
    = nth i lines dummyLine.
Proof.
  intros H js; induction js as [ | j js IH]; intros Hjs; cbn [fold_left].
  - reflexivity.
  - assert (E : clipLineStep zmin zmax lines i (nth i lines dummyLine) j
                = nth i lines dummyLine).
    { unfold clipLineStep. destruct (Nat.eqb i j) eqn:Eij; [reflexivity | ].
      apply Nat.eqb_neq in Eij. apply clipPair_parallel. apply H.
      - congruence.
      - apply Hjs. left. reflexivity. }
    rewrite E. apply IH. intros j' Hj'. apply Hjs. right. exact Hj'.
Qed.

Lemma camera_eta_neg (c : CCamera) :
  set_negFrustumSides c (negFrustumSides c) = c.
Proof. destruct c; reflexivity. Qed.

Lemma camera_eta_pos (c : CCamera) :
  set_posFrustumSides c (posFrustumSides c) = c.
Proof. destruct c; reflexivity. Qed.

(** X2.  A sequence whose lines are pairwise parallel (in particular an
    empty sequence or a single line) is left exactly as it is: the
    camera after ClipFrustumLines is the camera before. *)
Theorem ClipFrustumLines_parallel
  (neg : bool) (zmin zmax : float) (c : CCamera) :
  (forall i j, i <> j ->
               i < length (selectedLines neg c) ->
               j < length (selectedLines neg c) ->
               feq (dir (nth i (selectedLines neg c) dummyLine))
                   (dir (nth j (selectedLines neg c) dummyLine)) = true) ->
  fst (ClipFrustumLines neg zmin zmax c) = c.
Proof.
  intros H.
  pose proof (clipLines_nth zmin zmax (selectedLines neg c)) as [L N].
  unfold ClipFrustumLines.
  destruct (clipLines zmin zmax (selectedLines neg c)) as [lines divs].
  cbn [fst] in *.
  assert (E : lines = selectedLines neg c).
  { apply (nth_ext _ _ dummyLine dummyLine); [exact L | ].
    intros k Hk. rewrite L in Hk. rewrite (N k Hk).
    apply clipLineStep_parallel.
    - intros j Hj Hlt. apply H; [congruence | assumption | assumption].
    - intros j Hj. apply in_seq in Hj. lia. }
  rewrite E. destruct neg; cbn [selectedLines];
    [apply camera_eta_neg | apply camera_eta_pos].
Qed.

Lemma ClipFrustumLines_parallel_witness :
  fst (ClipFrustumLines false (Z2F 0) (Z2F 1024) parallelCamera)
  = parallelCamera.
Proof.
  apply ClipFrustumLines_parallel.
  intros [ | [ | i]] [ | [ | j]] Hij Hi Hj; cbn in Hi, Hj; try lia;
    reflexivity.
Defined.


(** ** The frustum footprint *)

Section Footprint.
Variable normalize : float3 -> float3.
Variable SQUARE_SIZE : Z.
Variable mapDims : MapDims.

Lemma frustumSideLine_fresh (c : CCamera) (zdir offset : float3)
  (miny maxy scale : float) (upwardDir negSide : bool) :
  let r := frustumSideLine normalize SQUARE_SIZE mapDims c zdir offset
             miny maxy scale upwardDir negSide in
  freshLine SQUARE_SIZE mapDims (fst (fst r))
  /\ (snd (fst r) = false -> sign (fst (fst r)) = (-1)%Z /\ negSide = false)
  /\ (snd (fst r) = true -> negSide = false -> sign (fst (fst r)) = 1%Z).
Proof.
  unfold frustumSideLine.
  destruct (if fne (y3 _) fzero then _ else _) as [pInt divs1].
  cbn [fst snd sign freshLine].
  set (s := if fle _ fzero then 1%Z else (-1)%Z).
  assert (Hs : s = 1%Z \/ s = (-1)%Z) by (subst s; destruct (fle _ fzero); auto).
  unfold freshLine. cbn [sign minz maxz]. clearbody s.
  destruct Hs as [-> | ->]; destruct negSide; cbn;
    repeat split; auto; intros; congruence.
Qed.

Lemma GetFrustumSide_filed (n : nat) (c : CCamera) (zdir offset : float3)
  (miny maxy scale : float) (upwardDir negSide : bool) :
  sidesFiled SQUARE_SIZE mapDims negSide n c ->
  let c' := fst (GetFrustumSide normalize SQUARE_SIZE mapDims c zdir offset
                   miny maxy scale upwardDir negSide) in
  sidesFiled SQUARE_SIZE mapDims negSide (S n) c'
  /\ frustumPlanes c' = frustumPlanes c /\ pos c' = pos c.
Proof.
  intros (Hn & Fn & Fp & Sp & Sn & Pe).
  pose proof (frustumSideLine_fresh c zdir offset miny maxy scale upwardDir
                negSide) as (Hf & Hpos & Hneg).
  unfold GetFrustumSide.
  destruct (frustumSideLine normalize SQUARE_SIZE mapDims c zdir offset miny
              maxy scale upwardDir negSide) as [[line toNeg] divs].
  cbn [fst snd] in *.
  destruct toNeg; cbn [fst]; (split; [ | split; reflexivity]);
    unfold sidesFiled; cbn [negFrustumSides posFrustumSides
                              set_negFrustumSides set_posFrustumSides].
  - split; [rewrite length_app; cbn; lia | ].
    split; [apply Forall_app; split; [assumption | ];
            constructor; [exact Hf | constructor] | ].
    split; [assumption | ].
    split; [assumption | ].
    split; [ | assumption].
    intros Hns. apply Forall_app. split; [auto | ].
    constructor; [ | constructor]. apply Hneg; [reflexivity | exact Hns].
  - destruct (Hpos eq_refl) as [Hs Hns].
    split; [rewrite length_app; cbn; lia | ].
    split; [assumption | ].
    split; [apply Forall_app; split; [assumption | ];
            constructor; [exact Hf | constructor] | ].
    split; [apply Forall_app; split; [assumption | ];
            constructor; [exact Hs | constructor] | ].
    split; [assumption | ].
    intros Hns'. congruence.
Qed.

Lemma frustumSides_loop (miny maxy scale : float) (negSide : bool) :
  forall (planes : list FrustumPlane) (n : nat) (c : CCamera)
         (divs : list float),
    sidesFiled SQUARE_SIZE mapDims negSide n c ->
    let c' := fst (fold_left
                     (frustumSidesStep normalize SQUARE_SIZE mapDims
                        miny maxy scale negSide) planes (c, divs)) in
    sidesFiled SQUARE_SIZE mapDims negSide (length planes + n) c'
    /\ frustumPlanes c' = frustumPlanes c /\ pos c' = pos c.
Proof.
  intros planes; induction planes as [ | i planes IH]; intros n c divs H;
    cbn [fold_left length].
  - cbn. auto.
  - assert (E : exists c1 d,
               frustumSidesStep normalize SQUARE_SIZE mapDims miny maxy scale
                 negSide (c, divs) i = (c1, divs ++ d)
               /\ sidesFiled SQUARE_SIZE mapDims negSide (S n) c1
               /\ frustumPlanes c1 = frustumPlanes c /\ pos c1 = pos c).
    { pose proof (GetFrustumSide_filed n c (frustumPlanes c i) ZeroVector
                    miny maxy scale (fgt (y3 (frustumPlanes c i)) fzero)
                    negSide H) as (H1 & P1 & Q1).
      unfold frustumSidesStep.
      destruct (GetFrustumSide normalize SQUARE_SIZE mapDims c
                  (frustumPlanes c i) ZeroVector miny maxy scale
                  (fgt (y3 (frustumPlanes c i)) fzero) negSide) as [c1 d].
      exists c1, d. cbn [fst] in *. auto. }
    destruct E as (c1 & d & -> & H1 & P1 & Q1).
    destruct (IH (S n) c1 (divs ++ d) H1) as (H2 & P2 & Q2).
    replace (S (length planes) + n)%nat with (length planes + S n)%nat by lia.
    split; [exact H2 | split; congruence].
Qed.

(** X3.  GetFrustumSides rebuilds the footprint from scratch, whatever
    the sequences held before: afterwards the two sequences hold four
    lines in all, one per frustum plane; every line has sign +1 or -1
    and the initial z-range [(-mapy, mapy * SQUARE_SIZE + mapy)]; the
    positive side holds only lines of sign -1, and the negative side
    only lines of sign +1 unless [negSide] forces every line there, in
    which case the positive side is empty.  The camera's planes and
    position are not touched. *)
Theorem GetFrustumSides_filed
  (c : CCamera) (miny maxy scale : float) (negSide : bool) :
  let c' := fst (GetFrustumSides normalize SQUARE_SIZE mapDims c
                   miny maxy scale negSide) in
  sidesFiled SQUARE_SIZE mapDims negSide 4 c'
  /\ frustumPlanes c' = frustumPlanes c /\ pos c' = pos c.
Proof.
  unfold GetFrustumSides.
  apply (frustumSides_loop miny maxy scale negSide frustum_plane_indices 0
           (ClearFrustumSides c) []).
  unfold sidesFiled, ClearFrustumSides. cbn. repeat split; auto.
Qed.
End Footprint.


(** ** Movement *)

Local Open Scope Z_scope.

Lemma ClampF_unit (v : float) :
  fle fzero (ClampF v fzero fone) = true
  /\ fle (ClampF v fzero fone) fone = true.
Proof.
  unfold ClampF, fmin, fmax.
  destruct (flt fzero v) eqn:E0.
  - destruct (flt v fone) eqn:E1.
    + split; apply flt_fle; assumption.
    + split; reflexivity.
  - change (flt fzero fone) with true. cbn iota. split; reflexivity.
Qed.

Lemma unitStep_copysign (r d : float) :
  fle fzero r = true -> fle r fone = true -> unitStep (copysign r d) = true.
Proof.
  intros H0 H1. unfold unitStep, copysign.
  assert (E : fabs (if sign_bit d then fneg (fabs r) else fabs r) = fabs r)
    by (destruct (sign_bit d), r; reflexivity).
  rewrite E.
  destruct r as [s | s | | s m e].
  - destruct s; vm_compute; reflexivity.
  - destruct s; [vm_compute in H0 | vm_compute in H1]; discriminate.
  - vm_compute in H0; discriminate.
  - destruct s.
    + vm_compute in H0; discriminate.
    + change (fabs (S754_finite false m e)) with (S754_finite false m e).
      rewrite H0, H1. reflexivity.
Qed.

Lemma B2F_unit (b : bool) :
  fle fzero (B2F b) = true /\ fle (B2F b) fone = true.
Proof. destruct b; split; reflexivity. Qed.

(** X4.  Edge scrolling never takes more than a full step: in both
    modes and for every screen size, border width and cursor position
    the x- and y-components are [lastFrameTime * 0.001f] times factors
    of magnitude at most 1, which are never NaN. *)
Theorem GetMoveVectorFromState_bounded
  (gr : CGlobalRendering) (cfg : ConfigHandler) (mouse : CMouseHandler)
  (c : CCamera) :
  exists mx my : float,
    x3 (GetMoveVectorFromState gr cfg mouse c false)
    = fmul (fmul (lastFrameTime gr) f0_001) mx
    /\ y3 (GetMoveVectorFromState gr cfg mouse c false)
       = fmul (fmul (lastFrameTime gr) f0_001) my
    /\ unitStep mx = true /\ unitStep my = true.
Proof.
  unfold GetMoveVectorFromState, GetMoveDistance.
  cbv zeta. cbn iota.
  destruct (EdgeMoveDynamic cfg); cbn [x3 y3 z3 set_x set_y set_z];
    eexists; eexists;
    (split; [reflexivity | split; [reflexivity | ]]);
    split; apply unitStep_copysign;
    try apply ClampF_unit; apply B2F_unit.
Qed.

Lemma Z2F_nonneg (n : Z) : 0 <= n -> has_sign false (Z2F n) = true.
Proof.
  intros H. unfold Z2F, binary_normalize.
  destruct n as [ | p | p]; [reflexivity | apply binary_round_sign | lia].
Qed.

Lemma fsub_zero_r (x : float) :
  has_sign false x = true -> fsub x fzero = x.
Proof.
  destruct x as [[ | ] | [ | ] | | [ | ] m e]; try discriminate; reflexivity.
Qed.

Lemma flt_nonneg_zero (x : float) :
  has_sign false x = true -> flt x fzero = false.
Proof.
  destruct x as [[ | ] | [ | ] | | [ | ] m e]; try discriminate; reflexivity.
Qed.

Lemma Z2F_pos (n : Z) : 1 <= n -> flt fzero (Z2F n) = true.
Proof.
  intros H. pose proof (Z2F_nonneg n ltac:(lia)) as S.
  destruct (Z2F_nonzero n ltac:(lia)) as [Z _].
  destruct (Z2F n) as [[ | ] | [ | ] | | [ | ] m e]; try discriminate;
    reflexivity.
Qed.

(** The doubled width of the dual-screen mode, while it fits an [int]. *)
Lemma wrap_int_double (w : Z) :
  1 <= w < 2 ^ 30 -> wrap_int (Z.shiftl w 1) = 2 * w.
Proof.
  intros H. rewrite Z.shiftl_mul_pow2 by lia. change (2 ^ 1) with 2.
  unfold wrap_int, INT_MIN.
  rewrite Z.mod_small by lia. lia.
Qed.

(** X5.  In the binary mode the near edges always give the full step.
    Let [screenW] be the width the code works with: [viewSizeX], or in
    dual-screen mode the [int] value of [viewSizeX << 1], which is
    [2 * viewSizeX] for widths below 2^30 and wraps around above.  For
    [screenW >= 1] and every border width a cursor at x <= 0 (the left
    edge) yields the x-component [lastFrameTime * 0.001f * (-1.0f)],
    and on every screen at least one pixel high a cursor at y <= 0
    yields the y-component [lastFrameTime * 0.001f * (+1.0f)]. *)
Theorem GetMoveVectorFromState_near_edges
  (gr : CGlobalRendering) (width : float) (mouse : CMouseHandler)
  (c : CCamera) :
  let v := GetMoveVectorFromState gr (mkConfig width false) mouse c false in
  (1 <= (if dualScreenMode gr then wrap_int (Z.shiftl (viewSizeX gr) 1)
         else viewSizeX gr) ->
   lastx mouse <= 0 ->
   x3 v = fmul (fmul (lastFrameTime gr) f0_001) (fneg fone))
  /\ (dualScreenMode gr = true -> 1 <= viewSizeX gr < 2 ^ 30 ->
      lastx mouse <= 0 ->
      x3 v = fmul (fmul (lastFrameTime gr) f0_001) (fneg fone))
  /\ (1 <= viewSizeY gr -> lasty mouse <= 0 ->
      y3 v = fmul (fmul (lastFrameTime gr) f0_001) fone).
Proof.
  intros v. subst v.
  assert (X : 1 <= (if dualScreenMode gr
                    then wrap_int (Z.shiftl (viewSizeX gr) 1)
                    else viewSizeX gr) ->
              lastx mouse <= 0 ->
              x3 (GetMoveVectorFromState gr (mkConfig width false) mouse c
                    false)
              = fmul (fmul (lastFrameTime gr) f0_001) (fneg fone)).
  { unfold GetMoveVectorFromState, GetMoveDistance.
    cbv zeta. cbn iota. cbn [x3 y3 z3 set_x set_y set_z EdgeMoveWidth
                              EdgeMoveDynamic].
    set (W := if dualScreenMode gr
              then wrap_int (Z.shiftl (viewSizeX gr) 1)
              else viewSizeX gr).
    intros HW Hx. f_equal. unfold ClampZ.
    replace (Z.min W (Z.max 0 (lastx mouse))) with 0 by lia.
    change (Z2F 0) with fzero.
    rewrite (fsub_zero_r _ (Z2F_nonneg (W - 1) ltac:(lia))).
    rewrite (flt_nonneg_zero _ (Z2F_nonneg (W - 1) ltac:(lia))).
    change (fabs (fneg fzero)) with fzero.
    rewrite Z2F_pos by lia. reflexivity. }
  split; [exact X | split].
  - intros HD HV Hx. apply X; [ | exact Hx].
    rewrite HD, wrap_int_double by exact HV. lia.
  - unfold GetMoveVectorFromState, GetMoveDistance.
    cbv zeta. cbn iota. cbn [x3 y3 z3 set_x set_y set_z EdgeMoveWidth
                              EdgeMoveDynamic].
    intros HH Hy. f_equal. unfold ClampZ.
    replace (Z.min (viewSizeY gr) (Z.max 0 (lasty mouse))) with 0 by lia.
    change (Z2F 0) with fzero.
    rewrite (fsub_zero_r _ (Z2F_nonneg (viewSizeY gr - 1) ltac:(lia))).
    rewrite (flt_nonneg_zero _ (Z2F_nonneg (viewSizeY gr - 1) ltac:(lia))).
    change (fabs fzero) with fzero.
    rewrite Z2F_pos by lia. reflexivity.
Qed.

(** On the sample screen, and on a dual screen of twice 1000 pixels. *)
Lemma GetMoveVectorFromState_near_edges_witness :
  x3 (GetMoveVectorFromState sampleRendering (mkConfig f0_02 false)
        (mkMouse 0 0) sampleCamera false)
  = fmul (fmul (Z2F 16) f0_001) (fneg fone)
  /\ x3 (GetMoveVectorFromState dualRendering (mkConfig f0_02 false)
           (mkMouse 0 0) sampleCamera false)
     = fmul (fmul (Z2F 16) f0_001) (fneg fone)
  /\ y3 (GetMoveVectorFromState sampleRendering (mkConfig f0_02 false)
           (mkMouse 0 0) sampleCamera false)
     = fmul (fmul (Z2F 16) f0_001) fone.
Proof.
  destruct (GetMoveVectorFromState_near_edges sampleRendering f0_02
              (mkMouse 0 0) sampleCamera) as (Hx & _ & Hy).
  destruct (GetMoveVectorFromState_near_edges dualRendering f0_02
              (mkMouse 0 0) sampleCamera) as (_ & Hd & _).
  split; [apply Hx; cbn; lia | split; [ | apply Hy; cbn; lia]].
  apply Hd; [reflexivity | cbn; lia | cbn; lia].
Defined.

Lemma fadd_zero_fsub_diag (a : float) :
  zero_or_nan (fsub (fadd fzero a) a) = true.
Proof.
  destruct a as [[ | ] | [ | ] | | s m e]; try reflexivity.
  change (fadd fzero (S754_finite s m e)) with (S754_finite s m e).
  rewrite fsub_finite_diag. reflexivity.
Qed.

(** X6.  Opposite keys cancel.  Driven by the key state, the
    y-component is a zero (NaN for a frame time that is NaN or infinite)
    whenever forward and back are in the same state, both held or both
    released, and likewise the x-component for right and left; it is
    never a nonzero drift.  The z-component is the speed multiplier in
    both branches, whatever the cursor and the configuration. *)
Theorem GetMoveVectorFromState_keys_cancel
  (gr : CGlobalRendering) (cfg cfg' : ConfigHandler)
  (mouse mouse' : CMouseHandler) (c : CCamera) :
  let v := GetMoveVectorFromState gr cfg mouse c true in
  (movState c MOVE_STATE_FWD = movState c MOVE_STATE_BCK ->
   zero_or_nan (y3 v) = true)
  /\ (movState c MOVE_STATE_RGT = movState c MOVE_STATE_LFT ->
      zero_or_nan (x3 v) = true)
  /\ z3 v = z3 (GetMoveVectorFromState gr cfg' mouse' c false).
Proof.
  intros v. subst v.
  unfold GetMoveVectorFromState, GetMoveDistance.
  cbv zeta. cbn iota. cbn [x3 y3 z3 set_x set_y set_z ZeroVector].
  split; [ | split].
  - intros ->. apply fadd_zero_fsub_diag.
  - intros ->. apply fadd_zero_fsub_diag.
  - destruct (EdgeMoveDynamic cfg'); reflexivity.
Qed.

Lemma GetMoveVectorFromState_keys_cancel_witness :
  zero_or_nan
    (y3 (GetMoveVectorFromState sampleRendering (mkConfig f0_02 false)
           (mkMouse 500 400) sampleCamera true)) = true.
Proof.
  destruct (GetMoveVectorFromState_keys_cancel sampleRendering
              (mkConfig f0_02 false) (mkConfig f0_02 false)
              (mkMouse 500 400) (mkMouse 500 400) sampleCamera) as [H _].
  apply H. reflexivity.
Defined.


Local Open Scope f32_scope.
(** ** Binary32: NaN positions, the registry, vertical movement *)

Lemma fsub_nan_r (a : float) : fsub a S754_nan = S754_nan.
Proof. destruct a; reflexivity. Qed.

Lemma fmul_nan_r (a : float) : fmul a S754_nan = S754_nan.
Proof. destruct a; reflexivity. Qed.

Lemma fadd_nan_r (a : float) : fadd a S754_nan = S754_nan.
Proof. destruct a; reflexivity. Qed.

Lemma flt_nan_r (a : float) : flt a S754_nan = false.
Proof. destruct a; reflexivity. Qed.

Lemma is_nan_eq (a : float) : is_nan a = true -> a = S754_nan.
Proof. destruct a; try discriminate; reflexivity. Qed.

Lemma sub3_nan (p q : float3) :
  has_nan3 q = true -> has_nan3 (sub3 p q) = true.
Proof.
  unfold has_nan3, sub3. cbn [x3 y3 z3]. intros H.
  apply orb_true_iff in H as [H | H];
    [apply orb_true_iff in H as [H | H] | ];
    apply is_nan_eq in H; rewrite H, fsub_nan_r; cbn;
    rewrite ?orb_true_r; reflexivity.
Qed.

Lemma dot_nan_r (a v : float3) : has_nan3 v = true -> dot a v = S754_nan.
Proof.
  unfold has_nan3, dot. intros H.
  apply orb_true_iff in H as [H | H];
    [apply orb_true_iff in H as [H | H] | ];
    apply is_nan_eq in H; rewrite H, fmul_nan_r, ?fadd_nan_r; reflexivity.
Qed.

Lemma dot_nan_l (v a : float3) : has_nan3 v = true -> dot v a = S754_nan.
Proof.
  unfold has_nan3, dot. intros H.
  apply orb_true_iff in H as [H | H];
    [apply orb_true_iff in H as [H | H] | ];
    apply is_nan_eq in H; rewrite H; cbn [fmul SFmul fadd SFadd];
    rewrite ?fadd_nan_r; reflexivity.
Qed.

(** X7.  A camera whose position has a NaN coordinate sees nothing:
    both visibility tests return false, for every box and for every
    sphere, whatever the planes and the view range. *)
Theorem InView_nan_position (gr : CGlobalRendering) (c : CCamera)
  (mins maxs p : float3) (radius : float) :
  has_nan3 (pos c) = true ->
  InViewBox c mins maxs = false /\ InViewSphere gr c p radius = false.
Proof.
  intros H. split.
  - unfold InViewBox, frustum_plane_indices. cbn [InViewBox_loop].
    unfold AABBInOriginPlane at 1.
    rewrite (dot_nan_r _ _ (sub3_nan _ _ H)). reflexivity.
  - unfold InViewSphere.
    pose proof (sub3_nan p _ H) as V.
    destruct (InViewSphere_loop c (sub3 p (pos c)) radius
                frustum_plane_indices); [ | reflexivity].
    set (vec := sub3 p (pos c)) in *.
    change (SqLength vec) with (dot vec vec).
    rewrite (dot_nan_l _ _ V). reflexivity.
Qed.

Lemma InView_nan_position_witness :
  InViewBox lostCamera (mk3 fzero fzero fzero) (mk3 fone fone fone) = false
  /\ InViewSphere sampleRendering lostCamera (pos sampleCamera) (Z2F 100)
     = false.
Proof.
  exact (InView_nan_position sampleRendering lostCamera
           (mk3 fzero fzero fzero) (mk3 fone fone fone) (pos sampleCamera)
           (Z2F 100) eq_refl).
Defined.

(** X8.  UpdateFrustum run by a camera other than the culling one
    changes, in the registry, that camera's frustum planes and nothing
    else of it, no camera in any other slot but the culling one, and
    not even that one unless the running camera's type is player or
    shadow. *)
Theorem UpdateFrustum_frame
  (tan : float -> float) (normalize : float3 -> float3)
  (gr : CGlobalRendering) (this : CamType) (cs : Cameras) :
  this <> CAMTYPE_VISCUL ->
  let cs' := UpdateFrustum tan normalize gr this cs in
  cs' this = set_frustumPlanes (cs this) (frustumPlanes (cs' this))
  /\ (forall t, t <> this -> t <> CAMTYPE_VISCUL -> cs' t = cs t)
  /\ (camType (cs this) <> CAMTYPE_PLAYER ->
      camType (cs this) <> CAMTYPE_SHADOW ->
      cs' CAMTYPE_VISCUL = cs CAMTYPE_VISCUL).
Proof.
  intros Hthis cs'. subst cs'. unfold UpdateFrustum.
  change (camType (set_frustumPlanes (cs this)
                     (computePlanes tan normalize gr (cs this))))
    with (camType (cs this)).
  split; [ | split].
  - destruct (camType (cs this)); unfold setCamera;
      destruct this; cbn; try reflexivity; contradiction.
  - intros t Ht Hv.
    destruct (camType (cs this)); unfold setCamera;
      destruct this, t; cbn; try reflexivity; contradiction.
  - intros Hp Hs.
    destruct (camType (cs this)); unfold setCamera;
      destruct this; cbn; try reflexivity; contradiction.
Qed.

Lemma UpdateFrustum_frame_witness :
  UpdateFrustum sampleTan (SafeNormalize nrm_eps_sample) sampleRendering
    CAMTYPE_PLAYER sampleCameras CAMTYPE_SHADOW
  = sampleCameras CAMTYPE_SHADOW.
Proof.
  destruct (UpdateFrustum_frame sampleTan (SafeNormalize nrm_eps_sample)
              sampleRendering CAMTYPE_PLAYER sampleCameras
              ltac:(discriminate)) as (_ & H & _).
  apply H; discriminate.
Defined.

Lemma binary_round_aux_opp (s : bool) (m e : Z) (l : location) :
  binary_round_aux prec emax (negb s) m e l
  = SFopp (binary_round_aux prec emax s m e l).
Proof.
  unfold binary_round_aux.
  destruct (shr_fexp prec emax m e l) as [mrs e'].
  destruct (shr_fexp prec emax _ e' loc_Exact) as [mrs' e''].
  destruct (shr_m mrs'); try reflexivity.
  destruct (e'' <=? emax - prec)%Z; reflexivity.
Qed.

Lemma fmul_fneg_r (a b : float) : fmul a (fneg b) = fneg (fmul a b).
Proof.
  destruct a as [sa | sa | | sa ma ea], b as [sb | sb | | sb mb eb];
    try reflexivity; unfold fmul, fneg; cbn [SFmul SFopp];
    try (destruct sa, sb; reflexivity).
  replace (xorb sa (negb sb)) with (negb (xorb sa sb))
    by (destruct sa, sb; reflexivity).
  apply binary_round_aux_opp.
Qed.

Lemma speed_values (slw fst : bool) :
  let speed :=
    fone * (fone - B2F slw * f0_9) * (fone + B2F fst * f9) in
  is_finite speed = true /\ flt fzero speed = true
  /\ (slw = false -> fst = false -> speed = fone)
  /\ (slw = false -> fst = true -> speed = Z2F 10)
  /\ (slw = true -> fst = false -> flt speed fone = true).
Proof.
  destruct slw, fst; vm_compute; repeat split; intros; congruence.
Qed.

(** X9.  GetMoveDistance hands out [lastFrameTime] as the time and a
    speed that is finite and positive whatever keys are held (1 without
    modifiers, 10 with FAST alone, below 1 with SLOW alone).  For the
    UP and DOWN indices the distance is zero (or NaN, for a time that
    is NaN or infinite) while that key is not held; with both keys held the
    DOWN distance is the negated UP distance; for any other index the
    distance is [lastFrameTime * 0.2f * speed]. *)
Theorem GetMoveDistance_cases (gr : CGlobalRendering) (c : CCamera) :
  let speed := snd (GetMoveDistance gr c None) in
  let dist idx := fst (fst (GetMoveDistance gr c idx)) in
  (forall idx, snd (fst (GetMoveDistance gr c idx)) = lastFrameTime gr
               /\ snd (GetMoveDistance gr c idx) = speed)
  /\ is_finite speed = true /\ flt fzero speed = true
  /\ (movState c MOVE_STATE_SLW = false ->
      movState c MOVE_STATE_FST = false -> speed = fone)
  /\ (movState c MOVE_STATE_SLW = false ->
      movState c MOVE_STATE_FST = true -> speed = Z2F 10)
  /\ (movState c MOVE_STATE_SLW = true ->
      movState c MOVE_STATE_FST = false -> flt speed fone = true)
  /\ (movState c MOVE_STATE_UP = false ->
      zero_or_nan (dist (Some MOVE_STATE_UP)) = true)
  /\ (movState c MOVE_STATE_DWN = false ->
      zero_or_nan (dist (Some MOVE_STATE_DWN)) = true)
  /\ (movState c MOVE_STATE_UP = true ->
      movState c MOVE_STATE_DWN = true ->
      dist (Some MOVE_STATE_DWN) = fneg (dist (Some MOVE_STATE_UP)))
  /\ (forall k, k <> MOVE_STATE_UP -> k <> MOVE_STATE_DWN ->
                dist (Some k) = lastFrameTime gr * f0_2 * speed).
Proof.
  intros speed dist.
  destruct (speed_values (movState c MOVE_STATE_SLW)
              (movState c MOVE_STATE_FST)) as (S1 & S2 & S3 & S4 & S5).
  change (fone * (fone - B2F (movState c MOVE_STATE_SLW) * f0_9)
          * (fone + B2F (movState c MOVE_STATE_FST) * f9))
    with speed in S1, S2, S3, S4, S5.
  split; [ | split; [ | split; [ | split; [ | split;
    [ | split; [ | split; [ | split; [ | split]]]]]]]]; try assumption.
  - intros idx. split; reflexivity.
  - intros H. unfold dist, GetMoveDistance. cbn [fst snd]. rewrite H.
    apply fmul_zero_or_nan_r, fmul_zero_or_nan_r. reflexivity.
  - intros H. unfold dist, GetMoveDistance. cbn [fst snd]. rewrite H.
    apply fmul_zero_or_nan_r, fmul_zero_or_nan_r. reflexivity.
  - intros HU HD. unfold dist, GetMoveDistance. cbn [fst snd].
    rewrite HU, HD. rewrite !fmul_fneg_r. reflexivity.
  - intros k HU HD. unfold dist, GetMoveDistance. cbn [fst snd].
    destruct k; try reflexivity; contradiction.
Qed.

(** ** Further geometry in exact arithmetic *)

Module ExactMore.
Import Exact.
Local Open Scope R_scope.

Lemma sin_HALFPI_sub (a : R) : sin (HALFPI - a) = cos a.
Proof. unfold HALFPI. apply sin_shift. Qed.

Lemma cos_HALFPI_sub (a : R) : cos (HALFPI - a) = sin a.
Proof. unfold HALFPI. apply cos_shift. Qed.

Lemma sin_add_HALFPI (a : R) : sin (a + HALFPI) = cos a.
Proof. unfold HALFPI. rewrite Rplus_comm. symmetry. apply cos_sin. Qed.

Lemma cos_add_HALFPI (a : R) : cos (a + HALFPI) = - sin a.
Proof. unfold HALFPI. rewrite Rplus_comm, (sin_cos a). ring. Qed.

Lemma sin_cos_sq (a : R) : sin a * sin a + cos a * cos a = 1.
Proof. pose proof (sin2_cos2 a) as H. unfold Rsqr in H. exact H. Qed.

Lemma GetFwdFromRot_unit (r : float3) : SqLength (GetFwdFromRot r) = 1.
Proof.
  unfold SqLength, dot, GetFwdFromRot; cbn [x3 y3 z3].
  pose proof (sin_cos_sq (x3 r)) as Hx.
  pose proof (sin_cos_sq (y3 r)) as Hy.
  replace (sin (x3 r) * sin (y3 r) * (sin (x3 r) * sin (y3 r))
           + cos (x3 r) * cos (x3 r)
           + sin (x3 r) * - cos (y3 r) * (sin (x3 r) * - cos (y3 r)))
    with (sin (x3 r) * sin (x3 r)
          * (sin (y3 r) * sin (y3 r) + cos (y3 r) * cos (y3 r))
          + cos (x3 r) * cos (x3 r)) by ring.
  rewrite Hy. lra.
Qed.

Lemma GetRgtFromRot_unit (r : float3) : SqLength (GetRgtFromRot r) = 1.
Proof.
  unfold SqLength, dot, GetRgtFromRot; cbn [x3 y3 z3].
  rewrite sin_HALFPI_sub, cos_HALFPI_sub, sin_add_HALFPI, cos_add_HALFPI.
  pose proof (sin_cos_sq (y3 r)) as Hy.
  pose proof (sin_cos_sq (z3 r)) as Hz.
  replace (cos (z3 r) * cos (y3 r) * (cos (z3 r) * cos (y3 r))
           + sin (z3 r) * sin (z3 r)
           + cos (z3 r) * - - sin (y3 r) * (cos (z3 r) * - - sin (y3 r)))
    with (cos (z3 r) * cos (z3 r)
          * (sin (y3 r) * sin (y3 r) + cos (y3 r) * cos (y3 r))
          + sin (z3 r) * sin (z3 r)) by ring.
  rewrite Hy. lra.
Qed.

(** X10.  For every rotation, GetFwdFromRot and GetRgtFromRot return
    vectors of length 1. *)
Theorem GetFwdFromRot_GetRgtFromRot_unit (r : float3) :
  SqLength (GetFwdFromRot r) = 1 /\ SqLength (GetRgtFromRot r) = 1.
Proof.
  unfold SqLength, dot, GetFwdFromRot, GetRgtFromRot; cbn [x3 y3 z3].
  rewrite sin_HALFPI_sub, cos_HALFPI_sub, sin_add_HALFPI, cos_add_HALFPI.
  pose proof (sin_cos_sq (x3 r)) as Hx.
  pose proof (sin_cos_sq (y3 r)) as Hy.
  pose proof (sin_cos_sq (z3 r)) as Hz.
  split.
  - replace (sin (x3 r) * sin (y3 r) * (sin (x3 r) * sin (y3 r))
             + cos (x3 r) * cos (x3 r)
             + sin (x3 r) * - cos (y3 r) * (sin (x3 r) * - cos (y3 r)))
      with (sin (x3 r) * sin (x3 r)
            * (sin (y3 r) * sin (y3 r) + cos (y3 r) * cos (y3 r))
            + cos (x3 r) * cos (x3 r)) by ring.
    rewrite Hy. lra.
  - replace (cos (z3 r) * cos (y3 r) * (cos (z3 r) * cos (y3 r))
             + sin (z3 r) * sin (z3 r)
             + cos (z3 r) * - - sin (y3 r) * (cos (z3 r) * - - sin (y3 r)))
      with (cos (z3 r) * cos (z3 r)
            * (sin (y3 r) * sin (y3 r) + cos (y3 r) * cos (y3 r))
            + sin (z3 r) * sin (z3 r)) by ring.
    rewrite Hy. lra.
Qed.

Lemma fwd_dot_rgt (r : float3) :
  dot (GetFwdFromRot r) (GetRgtFromRot r) = cos (x3 r) * sin (z3 r).
Proof.
  unfold dot, GetFwdFromRot, GetRgtFromRot; cbn [x3 y3 z3].
  rewrite sin_HALFPI_sub, cos_HALFPI_sub, sin_add_HALFPI, cos_add_HALFPI.
  ring.
Qed.

(** The squared length of a cross product (Lagrange). *)
Lemma SqLength_cross (a b : float3) :
  SqLength (cross a b) = SqLength a * SqLength b - dot a b * dot a b.
Proof. unfold SqLength, dot, cross; cbn [x3 y3 z3]. ring. Qed.

Lemma Normalize_of_unit (d : float3) : SqLength d = 1 -> Normalize d = d.
Proof.
  intros H. unfold Normalize, scale3. rewrite H, sqrt_1, Rinv_1.
  destruct d as [x y z]. cbn [x3 y3 z3]. f_equal; ring.
Qed.

Lemma cross_cross (f r : float3) :
  SqLength f = 1 -> dot f r = 0 -> cross f (cross r f) = r.
Proof.
  intros H1 H2.
  assert (E : cross f (cross r f)
              = sub3 (scale3 r (SqLength f)) (scale3 f (dot f r)))
    by (unfold SqLength, dot, cross, sub3, scale3; cbn [x3 y3 z3];
        f_equal; ring).
  rewrite E, H1, H2. destruct r as [rx ry rz], f as [fx fy fz].
  unfold sub3, scale3; cbn [x3 y3 z3]. f_equal; ring.
Qed.

(** Without roll UpdateDirsFromRot leaves an orthonormal basis. *)
Lemma no_roll_orthonormal (c : CCamera) (r : float3) :
  z3 r = 0 -> orthonormal (UpdateDirsFromRot c r).
Proof.
  intros Hz. unfold orthonormal, UpdateDirsFromRot. cbn [forward right up].
  pose proof (GetFwdFromRot_unit r) as Hf.
  pose proof (GetRgtFromRot_unit r) as Hr.
  assert (Hd : dot (GetFwdFromRot r) (GetRgtFromRot r) = 0)
    by (rewrite fwd_dot_rgt, Hz, sin_0; ring).
  assert (Hd' : dot (GetRgtFromRot r) (GetFwdFromRot r) = 0)
    by (rewrite <- Hd; unfold dot; ring).
  assert (Hc : SqLength (cross (GetRgtFromRot r) (GetFwdFromRot r)) = 1)
    by (rewrite SqLength_cross, Hf, Hr, Hd'; ring).
  rewrite (Normalize_of_unit _ Hc). repeat split; assumption.
Qed.

(** X11.  Without roll the basis is orthonormal and right-handed: for
    every rotation with [r.z = 0], after UpdateDirsFromRot(r) the three
    vectors have length 1, are mutually orthogonal, [up] is
    [right x forward] and [forward x up] is [right]. *)
Theorem UpdateDirsFromRot_no_roll (c : CCamera) (r : float3) :
  z3 r = 0 ->
  let c' := UpdateDirsFromRot c r in
  orthonormal c'
  /\ SqLength (up c') = 1
  /\ dot (forward c') (up c') = 0 /\ dot (right c') (up c') = 0
  /\ cross (forward c') (up c') = right c'.
Proof.
  intros Hz c'. subst c'. unfold UpdateDirsFromRot. cbn [forward right up].
  pose proof (GetFwdFromRot_unit r) as Hf.
  pose proof (GetRgtFromRot_unit r) as Hr.
  assert (Hd : dot (GetFwdFromRot r) (GetRgtFromRot r) = 0)
    by (rewrite fwd_dot_rgt, Hz, sin_0; ring).
  assert (Hd' : dot (GetRgtFromRot r) (GetFwdFromRot r) = 0)
    by (rewrite <- Hd; unfold dot; ring).
  assert (Hc : SqLength (cross (GetRgtFromRot r) (GetFwdFromRot r)) = 1)
    by (rewrite SqLength_cross, Hf, Hr, Hd'; ring).
  rewrite (Normalize_of_unit _ Hc).
  unfold orthonormal. cbn [forward right up].
  repeat split; try assumption.
  - unfold dot, cross; cbn [x3 y3 z3]. ring.
  - unfold dot, cross; cbn [x3 y3 z3]. ring.
  - apply cross_cross; assumption.
Qed.

Lemma UpdateDirsFromRot_no_roll_witness :
  dot (forward (UpdateDirsFromRot sampleCamera (mk3 1 2 0)))
      (right (UpdateDirsFromRot sampleCamera (mk3 1 2 0))) = 0.
Proof.
  destruct (UpdateDirsFromRot_no_roll sampleCamera (mk3 1 2 0) eq_refl)
    as ((_ & _ & H & _) & _).
  exact H.
Defined.

Lemma sqrt_sq_pos_scale (x y : R) :
  0 < x -> sqrt (x * x + y * y) = x * sqrt (1 + (y / x)²).
Proof.
  intros Hx.
  replace (x * x + y * y) with ((x * x) * (1 + (y / x)²))
    by (unfold Rsqr; field; lra).
  rewrite sqrt_mult_alt by nra.
  rewrite sqrt_square by lra. reflexivity.
Qed.

Lemma sqrt_sq_neg_scale (x y : R) :
  x < 0 -> sqrt (x * x + y * y) = - x * sqrt (1 + (y / x)²).
Proof.
  intros Hx.
  replace (x * x + y * y) with ((- x * - x) * (1 + (y / x)²))
    by (unfold Rsqr; field; lra).
  rewrite sqrt_mult_alt by nra.
  rewrite sqrt_square by lra. reflexivity.
Qed.

Lemma sqrt_one_sqr_pos (t : R) : 0 < sqrt (1 + t²).
Proof. apply sqrt_lt_R0. unfold Rsqr. nra. Qed.

Lemma sin_of_atan2 (y x : R) :
  0 < x * x + y * y -> sin (atan2 y x) = y / sqrt (x * x + y * y).
Proof.
  intros H. unfold atan2.
  pose proof (sqrt_one_sqr_pos (y / x)) as HS.
  destruct (Rlt_dec 0 x) as [Hx | Hx].
  - rewrite sin_atan, (sqrt_sq_pos_scale x y Hx). field. lra.
  - destruct (Rlt_dec x 0) as [Hx' | Hx'].
    + rewrite (sqrt_sq_neg_scale x y Hx').
      destruct (Rle_dec 0 y).
      * rewrite neg_sin, sin_atan. field. lra.
      * rewrite sin_minus, cos_PI, sin_PI, sin_atan. field. lra.
    + assert (x = 0) by lra. subst x.
      replace (0 * 0 + y * y) with (y * y) by ring.
      destruct (Rlt_dec 0 y) as [Hy | Hy].
      * rewrite sin_PI2, sqrt_square by lra. field. lra.
      * destruct (Rlt_dec y 0) as [Hy' | Hy']; [ | nra].
        replace (y * y) with (- y * - y) by ring.
        rewrite sin_neg, sin_PI2, sqrt_square by lra. field. lra.
Qed.

Lemma cos_of_atan2 (y x : R) :
  0 < x * x + y * y -> cos (atan2 y x) = x / sqrt (x * x + y * y).
Proof.
  intros H. unfold atan2.
  pose proof (sqrt_one_sqr_pos (y / x)) as HS.
  destruct (Rlt_dec 0 x) as [Hx | Hx].
  - rewrite cos_atan, (sqrt_sq_pos_scale x y Hx). field. lra.
  - destruct (Rlt_dec x 0) as [Hx' | Hx'].
    + rewrite (sqrt_sq_neg_scale x y Hx').
      destruct (Rle_dec 0 y).
      * rewrite neg_cos, cos_atan. field. lra.
      * rewrite cos_minus, cos_PI, sin_PI, cos_atan. field. lra.
    + assert (x = 0) by lra. subst x.
      destruct (Rlt_dec 0 y) as [Hy | Hy].
      * rewrite cos_PI2. unfold Rdiv. ring.
      * destruct (Rlt_dec y 0) as [Hy' | Hy']; [ | nra].
        rewrite cos_neg, cos_PI2. unfold Rdiv. ring.
Qed.

(** The direction of a rotation built from a unit vector, whatever the
    roll. *)
Lemma fwd_of_rot_of_unit (d : float3) (roll : R) :
  SqLength d = 1 ->
  GetFwdFromRot (mk3 (acos (y3 d)) (atan2 (x3 d) (- z3 d)) roll) = d.
Proof.
  intros H. destruct d as [x y z].
  unfold SqLength, dot in H. cbn [x3 y3 z3] in H.
  unfold GetFwdFromRot. cbn [x3 y3 z3].
  assert (Hy : -1 <= y <= 1) by nra.
  rewrite (cos_acos y Hy), (sin_acos y Hy).
  replace (1 - y²) with (- z * - z + x * x) by (unfold Rsqr; nra).
  destruct (Req_dec (- z * - z + x * x) 0) as [Z | NZ].
  - assert (x = 0) by nra. assert (z = 0) by nra. subst x z.
    rewrite Z, sqrt_0. f_equal; ring.
  - assert (P : 0 < - z * - z + x * x) by nra.
    rewrite (sin_of_atan2 x (- z) P), (cos_of_atan2 x (- z) P).
    pose proof (sqrt_lt_R0 _ P) as HS.
    f_equal; field; lra.
Qed.

Lemma SqLength_Normalize (d : float3) :
  0 < SqLength d -> SqLength (Normalize d) = 1.
Proof.
  intros H. pose proof (sqrt_lt_R0 _ H) as HS.
  pose proof (sqrt_sqrt (SqLength d) ltac:(lra)) as Hq.
  unfold Normalize.
  set (k := sqrt (SqLength d)) in *.
  replace (SqLength (scale3 d (/ k))) with (SqLength d * (/ k * / k))
    by (unfold SqLength, dot, scale3; cbn [x3 y3 z3]; ring).
  rewrite <- Hq. field. lra.
Qed.

Lemma dot_Normalize (d : float3) :
  0 < SqLength d -> dot d (Normalize d) = sqrt (SqLength d).
Proof.
  intros H. pose proof (sqrt_lt_R0 _ H) as HS.
  pose proof (sqrt_sqrt (SqLength d) ltac:(lra)) as Hq.
  unfold Normalize.
  set (k := sqrt (SqLength d)) in *.
  replace (dot d (scale3 d (/ k))) with (SqLength d * / k)
    by (unfold SqLength, dot, scale3; cbn [x3 y3 z3]; ring).
  rewrite <- Hq. field. lra.
Qed.

(** X12.  SetDir(dir) with a nonzero [dir] makes [forward] the unit
    vector along [dir] and keeps the position and the roll component of
    the rotation; the condition of its assertion,
    [dir.dot(forward) > 0.9], is the length of [dir] being above 0.9:
    it holds for every unit vector and fails for a shorter one. *)
Theorem SetDir_forward (c : CCamera) (dir : float3) :
  0 < SqLength dir ->
  let r := SetDir c dir in
  forward (fst r) = Normalize dir
  /\ z3 (rot (fst r)) = z3 (rot c)
  /\ pos (fst r) = pos c
  /\ (snd r = true <-> 9 / 10 < sqrt (SqLength dir)).
Proof.
  intros H r. subst r. unfold SetDir, SetRot, UpdateDirsFromRot.
  cbn [fst snd forward rot pos].
  assert (F : GetFwdFromRot
                (add3 (GetRotFromDir dir)
                      (scale3 FwdVector (z3 (rot c))))
              = Normalize dir).
  { unfold GetRotFromDir, add3, scale3, FwdVector. cbn [x3 y3 z3].
    replace (acos (y3 (Normalize dir)) + 0 * z3 (rot c))
      with (acos (y3 (Normalize dir))) by ring.
    replace (atan2 (x3 (Normalize dir)) (- z3 (Normalize dir))
             + 0 * z3 (rot c))
      with (atan2 (x3 (Normalize dir)) (- z3 (Normalize dir))) by ring.
    apply fwd_of_rot_of_unit. apply SqLength_Normalize. exact H. }
  rewrite F. rewrite (dot_Normalize dir H).
  repeat split.
  - unfold add3, scale3, FwdVector, GetRotFromDir. cbn [x3 y3 z3]. ring.
  - destruct (Rlt_dec (9 / 10) (sqrt (SqLength dir))); [auto | discriminate].
  - intros L. destruct (Rlt_dec (9 / 10) (sqrt (SqLength dir)));
      [reflexivity | contradiction].
Qed.

Lemma SetDir_forward_witness :
  forward (fst (SetDir sampleCamera longDir)) = Normalize longDir
  /\ snd (SetDir sampleCamera longDir) = true.
Proof.
  assert (H : 0 < SqLength longDir)
    by (unfold SqLength, dot, longDir; cbn [x3 y3 z3]; lra).
  destruct (SetDir_forward sampleCamera longDir H) as (H1 & _ & _ & H2).
  split; [exact H1 | ].
  apply H2.
  replace (SqLength longDir) with (5 * 5)
    by (unfold SqLength, dot, longDir; cbn [x3 y3 z3]; ring).
  rewrite sqrt_square by lra. lra.
Defined.

(** ** Culling, projection and picking in exact arithmetic *)


(** *** Linear algebra *)

Lemma dot_comm (a b : float3) : dot a b = dot b a.
Proof. unfold dot. ring. Qed.

Lemma dot_add_l (a b c : float3) : dot (add3 a b) c = dot a c + dot b c.
Proof. unfold dot, add3; cbn [x3 y3 z3]. ring. Qed.

Lemma dot_sub_l (a b c : float3) : dot (sub3 a b) c = dot a c - dot b c.
Proof. unfold dot, sub3; cbn [x3 y3 z3]. ring. Qed.

Lemma dot_scale_l (a c : float3) (k : R) :
  dot (scale3 a k) c = k * dot a c.
Proof. unfold dot, scale3; cbn [x3 y3 z3]. ring. Qed.

Lemma dot_neg_l (a c : float3) : dot (neg3 a) c = - dot a c.
Proof. unfold dot, neg3; cbn [x3 y3 z3]. ring. Qed.

Lemma dot_add_r (a b c : float3) : dot c (add3 a b) = dot c a + dot c b.
Proof. unfold dot, add3; cbn [x3 y3 z3]. ring. Qed.

Lemma dot_sub_r (a b c : float3) : dot c (sub3 a b) = dot c a - dot c b.
Proof. unfold dot, sub3; cbn [x3 y3 z3]. ring. Qed.

Lemma dot_scale_r (a c : float3) (k : R) :
  dot c (scale3 a k) = k * dot c a.
Proof. unfold dot, scale3; cbn [x3 y3 z3]. ring. Qed.

Lemma dot_neg_r (a c : float3) : dot c (neg3 a) = - dot c a.
Proof. unfold dot, neg3; cbn [x3 y3 z3]. ring. Qed.

Lemma SqLength_nonneg (a : float3) : 0 <= SqLength a.
Proof. unfold SqLength, dot. nra. Qed.

(** Cauchy-Schwarz, from the squared length of the cross product. *)
Lemma dot_sq_le (a b : float3) :
  dot a b * dot a b <= SqLength a * SqLength b.
Proof.
  pose proof (SqLength_nonneg (cross a b)) as H.
  replace (SqLength (cross a b))
    with (SqLength a * SqLength b - dot a b * dot a b) in H
    by (unfold SqLength, dot, cross; cbn [x3 y3 z3]; ring).
  lra.
Qed.

Lemma dot_le_bounds (a b : float3) (r s : R) :
  0 <= r -> 0 <= s -> SqLength a <= r * r -> SqLength b <= s * s ->
  dot a b <= r * s.
Proof.
  intros Hr Hs Ha Hb.
  pose proof (dot_sq_le a b) as H.
  pose proof (SqLength_nonneg a) as Na.
  pose proof (SqLength_nonneg b) as Nb.
  assert (H2 : dot a b * dot a b <= (r * s) * (r * s)) by nra.
  destruct (Rle_dec (dot a b) (r * s)) as [L | L]; [exact L | ].
  exfalso. assert (0 <= r * s) by nra. nra.
Qed.

(** The facts packed in [orthonormal]. *)
Lemma orthonormal_frame (c : CCamera) :
  orthonormal c ->
  SqLength (forward c) = 1 /\ SqLength (right c) = 1
  /\ SqLength (up c) = 1
  /\ dot (forward c) (right c) = 0 /\ dot (right c) (forward c) = 0
  /\ dot (forward c) (up c) = 0 /\ dot (up c) (forward c) = 0
  /\ dot (right c) (up c) = 0 /\ dot (up c) (right c) = 0
  /\ cross (forward c) (up c) = right c
  /\ cross (right c) (forward c) = up c.
Proof.
  intros (Hf & Hr & Hd & Hu).
  assert (Hd' : dot (right c) (forward c) = 0)
    by (rewrite dot_comm; exact Hd).
  assert (L : SqLength (cross (right c) (forward c)) = 1).
  { replace (SqLength (cross (right c) (forward c)))
      with (SqLength (right c) * SqLength (forward c)
            - dot (right c) (forward c) * dot (right c) (forward c))
      by (unfold SqLength, dot, cross; cbn [x3 y3 z3]; ring).
    rewrite Hf, Hr, Hd'. ring. }
  assert (O1 : forall a b, dot a (cross b a) = 0)
    by (intros; unfold dot, cross; cbn [x3 y3 z3]; ring).
  assert (O2 : forall a b, dot a (cross a b) = 0)
    by (intros; unfold dot, cross; cbn [x3 y3 z3]; ring).
  rewrite Hu.
  repeat split; try assumption.
  - apply O1.
  - rewrite dot_comm. apply O1.
  - apply O2.
  - rewrite dot_comm. apply O2.
  - assert (E : cross (forward c) (cross (right c) (forward c))
                = sub3 (scale3 (right c) (SqLength (forward c)))
                       (scale3 (forward c) (dot (forward c) (right c))))
      by (unfold SqLength, dot, cross, sub3, scale3; cbn [x3 y3 z3];
          f_equal; ring).
    rewrite E, Hf, Hd. destruct (right c), (forward c).
    unfold sub3, scale3; cbn [x3 y3 z3]. f_equal; ring.
Qed.

(** *** Matrices *)

Lemma matVec_matMul (a b : CMatrix44f) (v : float4) :
  matVec (matMul a b) v = matVec a (matVec b v).
Proof.
  unfold matVec, matMul. cbn [x4 y4 z4 w4 Nat.modulo Nat.div Nat.divmod
    Nat.mul Nat.add fst snd Nat.sub]. f_equal; ring.
Qed.

(** What the view matrix does to a point: its coordinates along [s],
    [u] and [-f], measured from the eye. *)
Lemma myGluLookAt_apply (m : CMatrix44f) (eye center upv p : float3) :
  affineRow m ->
  let f := Normalize (sub3 center eye) in
  let s := cross f upv in
  let u := cross s f in
  matVec (myGluLookAt m eye center upv) (point4 p)
  = mk4 (dot s (sub3 p eye)) (dot u (sub3 p eye)) (- dot f (sub3 p eye)) 1.
Proof.
  intros (A3 & A7 & A11 & A15) f s u.
  unfold matVec, myGluLookAt, point4. fold f. fold s. fold u.
  unfold setm. cbn [Nat.eqb x4 y4 z4 w4].
  rewrite A3, A7, A11, A15.
  unfold dot, sub3; cbn [x3 y3 z3]. f_equal; ring.
Qed.

(** What the projection matrix does to a vector. *)
Lemma myGluPerspective_apply (m : CMatrix44f)
  (tanHalfFov aspect zNear zFar : R) (v : float4) :
  restZero m -> tanHalfFov <> 0 -> aspect <> 0 -> zNear <> 0 ->
  matVec (myGluPerspective tanHalfFov m aspect zNear zFar) v
  = mk4 (x4 v / (tanHalfFov * aspect))
        (y4 v / tanHalfFov)
        (- (zFar + zNear) / (zFar - zNear) * z4 v
         + - (2 * zFar * zNear) / (zFar - zNear) * w4 v)
        (- z4 v).
Proof.
  intros (R1 & R2 & R3 & R4 & R6 & R7 & R12 & R13 & R15) Ht Ha Hn.
  assert (N2 : zNear * tanHalfFov <> 0)
    by (apply Rmult_integral_contrapositive_currified; assumption).
  assert (N3 : zNear * tanHalfFov * aspect <> 0)
    by (apply Rmult_integral_contrapositive_currified; assumption).
  assert (D1 : zNear * tanHalfFov * aspect
               - - (zNear * tanHalfFov) * aspect <> 0)
    by (intros E; apply N3; lra).
  assert (D2 : zNear * tanHalfFov - - (zNear * tanHalfFov) <> 0)
    by (intros E; apply N2; lra).
  unfold matVec, myGluPerspective, setm. cbn [Nat.eqb x4 y4 z4 w4].
  rewrite R1, R2, R3, R4, R6, R7, R12, R13, R15.
  f_equal; try (field; repeat split; assumption); try ring.
Qed.

(** *** Culling *)

Lemma far_coordinate (a lo hi x p : R) :
  lo <= x <= hi ->
  a * ((if Rlt_dec 0 a then lo else hi) - p) <= a * (x - p).
Proof. intros [H1 H2]. destruct (Rlt_dec 0 a); nra. Qed.

(** The box lies in front of a plane exactly if one of its points
    does. *)
Lemma AABBInOriginPlane_iff (plane camPos mins maxs : float3) :
  x3 mins <= x3 maxs -> y3 mins <= y3 maxs -> z3 mins <= z3 maxs ->
  AABBInOriginPlane plane camPos mins maxs = true
  <-> exists q, inBox mins maxs q /\ dot plane (sub3 q camPos) < 0.
Proof.
  intros Hx Hy Hz. unfold AABBInOriginPlane.
  set (fp := mk3 (if Rlt_dec 0 (x3 plane) then x3 mins else x3 maxs)
                 (if Rlt_dec 0 (y3 plane) then y3 mins else y3 maxs)
                 (if Rlt_dec 0 (z3 plane) then z3 mins else z3 maxs)).
  split.
  - intros H. exists fp. split.
    + unfold inBox, fp; cbn [x3 y3 z3].
      destruct (Rlt_dec 0 (x3 plane)), (Rlt_dec 0 (y3 plane)),
        (Rlt_dec 0 (z3 plane)); repeat split; lra.
    + destruct (Rlt_dec (dot plane (sub3 fp camPos)) 0);
        [assumption | discriminate].
  - intros (q & (Qx & Qy & Qz) & H).
    assert (L : dot plane (sub3 fp camPos) <= dot plane (sub3 q camPos)).
    { unfold dot, sub3, fp; cbn [x3 y3 z3].
      pose proof (far_coordinate (x3 plane) _ _ _ (x3 camPos) Qx).
      pose proof (far_coordinate (y3 plane) _ _ _ (y3 camPos) Qy).
      pose proof (far_coordinate (z3 plane) _ _ _ (z3 camPos) Qz).
      lra. }
    destruct (Rlt_dec (dot plane (sub3 fp camPos)) 0); [reflexivity | lra].
Qed.

(** X13.  The box test accepts a non-empty box exactly if, for each of
    the four planes, some point of the box lies strictly on the inner
    side of that plane through the camera position.  So a box holding a
    point strictly inside the frustum is never culled, while a box may
    pass although no single point of it is inside all four planes. *)
Theorem InViewBox_iff (frustumPlanes : FrustumPlane -> float3)
  (c : CCamera) (mins maxs : float3) :
  x3 mins <= x3 maxs -> y3 mins <= y3 maxs -> z3 mins <= z3 maxs ->
  InViewBox frustumPlanes c mins maxs = true
  <-> forall i, exists q,
        inBox mins maxs q /\ dot (frustumPlanes i) (sub3 q (pos c)) < 0.
Proof.
  intros Hx Hy Hz.
  pose proof (fun i => AABBInOriginPlane_iff (frustumPlanes i) (pos c)
                         mins maxs Hx Hy Hz) as A.
  unfold InViewBox, frustum_plane_indices. cbn [InViewBox_loop].
  split.
  - intros H i.
    destruct (AABBInOriginPlane (frustumPlanes FRUSTUM_PLANE_TOP) (pos c)
                mins maxs) eqn:E1; [ | discriminate H].
    destruct (AABBInOriginPlane (frustumPlanes FRUSTUM_PLANE_BOT) (pos c)
                mins maxs) eqn:E2; [ | discriminate H].
    destruct (AABBInOriginPlane (frustumPlanes FRUSTUM_PLANE_RGT) (pos c)
                mins maxs) eqn:E3; [ | discriminate H].
    destruct (AABBInOriginPlane (frustumPlanes FRUSTUM_PLANE_LFT) (pos c)
                mins maxs) eqn:E4; [ | discriminate H].
    apply A. destruct i; assumption.
  - intros H.
    rewrite (proj2 (A FRUSTUM_PLANE_TOP) (H _)),
      (proj2 (A FRUSTUM_PLANE_BOT) (H _)),
      (proj2 (A FRUSTUM_PLANE_RGT) (H _)),
      (proj2 (A FRUSTUM_PLANE_LFT) (H _)).
    reflexivity.
Qed.

Lemma InViewBox_iff_witness :
  InViewBox (fun _ => mk3 0 0 1) sampleCamera (mk3 0 0 0) (mk3 1 1 1)
  = true.
Proof.
  apply (InViewBox_iff (fun _ => mk3 0 0 1) sampleCamera
           (mk3 0 0 0) (mk3 1 1 1)); cbn [x3 y3 z3]; try lra.
  intros _. exists (mk3 0 0 0). split.
  - unfold inBox; cbn [x3 y3 z3]. lra.
  - unfold dot, sub3, sampleCamera; cbn [x3 y3 z3 pos]. lra.
Defined.

Lemma SqLength_sub_comm (a b : float3) :
  SqLength (sub3 a b) = SqLength (sub3 b a).
Proof. unfold SqLength, dot, sub3; cbn [x3 y3 z3]. ring. Qed.

(** X14.  The sphere test never culls a sphere that holds a visible
    point: with planes of unit length, if some point [q] within
    [radius] of the centre lies on the inner side of all four planes
    and within [viewRange] of the camera, InView(p, radius) is true. *)
Theorem InViewSphere_sound (frustumPlanes : FrustumPlane -> float3)
  (viewRange : R) (c : CCamera) (p q : float3) (radius : R) :
  (forall i, SqLength (frustumPlanes i) = 1) ->
  0 <= radius -> 0 <= viewRange ->
  SqLength (sub3 q p) <= radius * radius ->
  (forall i, dot (sub3 q (pos c)) (frustumPlanes i) <= 0) ->
  SqLength (sub3 q (pos c)) <= viewRange * viewRange ->
  InViewSphere frustumPlanes viewRange c p radius = true.
Proof.
  intros Hn Hr Hv Hq Hin Hfar.
  assert (E : sub3 p (pos c) = add3 (sub3 q (pos c)) (sub3 p q))
    by (unfold add3, sub3; cbn [x3 y3 z3]; f_equal; ring).
  assert (Hq' : SqLength (sub3 p q) <= radius * radius)
    by (rewrite SqLength_sub_comm; exact Hq).
  assert (P : forall i, ~ radius < dot (sub3 p (pos c)) (frustumPlanes i)).
  { intros i. rewrite E, dot_add_l.
    pose proof (Hin i) as H1.
    assert (H2 : dot (sub3 p q) (frustumPlanes i) <= radius * 1).
    { apply dot_le_bounds; try lra. rewrite Hn. lra. }
    lra. }
  unfold InViewSphere, frustum_plane_indices. cbn [InViewSphere_loop].
  destruct (Rlt_dec radius _) as [L | _]; [destruct (P _ L) | ].
  destruct (Rlt_dec radius _) as [L | _]; [destruct (P _ L) | ].
  destruct (Rlt_dec radius _) as [L | _]; [destruct (P _ L) | ].
  destruct (Rlt_dec radius _) as [L | _]; [destruct (P _ L) | ].
  destruct (Rle_dec _ _) as [_ | N]; [reflexivity | ].
  exfalso. apply N. rewrite E. unfold Square.
  replace (SqLength (add3 (sub3 q (pos c)) (sub3 p q)))
    with (SqLength (sub3 q (pos c))
          + 2 * dot (sub3 q (pos c)) (sub3 p q)
          + SqLength (sub3 p q))
    by (unfold SqLength, dot, add3; cbn [x3 y3 z3]; ring).
  pose proof (dot_le_bounds (sub3 q (pos c)) (sub3 p q) viewRange radius
                Hv Hr Hfar Hq') as H.
  nra.
Qed.

Lemma InViewSphere_sound_witness :
  InViewSphere (fun _ => mk3 0 0 1) 8000 sampleCamera (mk3 512 1000 0) 10
  = true.
Proof.
  apply (InViewSphere_sound (fun _ => mk3 0 0 1) 8000 sampleCamera
           (mk3 512 1000 0) (mk3 512 1000 0) 10);
    try (intros _); unfold SqLength, dot, sub3, sampleCamera;
    cbn [x3 y3 z3 pos]; lra.
Defined.

(** *** View range *)

(** X15.  ComputeViewRange never shrinks the range below the engine's
    constants and always reaches 2.4 times the height above the
    terrain's lowest point, for every camera; for a camera that does not
    look upward it also reaches, horizontally, every point of the
    map. *)
Theorem ComputeViewRange_covers
  (MAX_VIEW_RANGE NEAR_PLANE maxxpos maxzpos : R)
  (c : CCamera) (currMinHeight : R) :
  0 < MAX_VIEW_RANGE -> 0 <= NEAR_PLANE ->
  let r := ComputeViewRange MAX_VIEW_RANGE NEAR_PLANE maxxpos maxzpos c
                            currMinHeight in
  NEAR_PLANE <= fst r
  /\ MAX_VIEW_RANGE <= snd r
  /\ (y3 (pos c) - Rmax 0 currMinHeight) * (24 / 10) <= snd r
  /\ (y3 (forward c) <= 0 ->
      forall q : float3,
        0 <= x3 q <= maxxpos -> 0 <= z3 q <= maxzpos ->
        (x3 q - x3 (pos c)) * (x3 q - x3 (pos c))
        + (z3 q - z3 (pos c)) * (z3 q - z3 (pos c)) <= snd r * snd r).
Proof.
  intros HM HN r. subst r. unfold ComputeViewRange. cbn [fst snd].
  set (w := wantedViewRange MAX_VIEW_RANGE maxxpos maxzpos c currMinHeight).
  set (DX := Rmax (x3 (pos c)) (maxxpos - x3 (pos c))).
  set (DZ := Rmax (z3 (pos c)) (maxzpos - z3 (pos c))).
  assert (W1 : MAX_VIEW_RANGE <= w).
  { unfold w, wantedViewRange.
    eapply Rle_trans; [ | apply Rmax_l]. apply Rmax_l. }
  assert (W2 : (y3 (pos c) - Rmax 0 currMinHeight) * (24 / 10) <= w).
  { unfold w, wantedViewRange.
    eapply Rle_trans; [ | apply Rmax_l]. apply Rmax_r. }
  assert (W3 : (1 - dot (forward c) UpVector)
               * sqrt (Square DX + Square DZ) <= w).
  { unfold w, wantedViewRange. fold DX. fold DZ. apply Rmax_r. }
  assert (EV : MAX_VIEW_RANGE * (w / MAX_VIEW_RANGE) = w)
    by (field; lra).
  rewrite EV.
  assert (F1 : 1 <= w / MAX_VIEW_RANGE).
  { apply (Rmult_le_reg_r MAX_VIEW_RANGE); [lra | ].
    replace (w / MAX_VIEW_RANGE * MAX_VIEW_RANGE) with w by (field; lra).
    lra. }
  split; [nra | ]. split; [exact W1 | ]. split; [exact W2 | ].
  intros Hf q Hx Hz.
  assert (AX : - DX <= x3 q - x3 (pos c) <= DX).
  { unfold DX. pose proof (Rmax_l (x3 (pos c)) (maxxpos - x3 (pos c))).
    pose proof (Rmax_r (x3 (pos c)) (maxxpos - x3 (pos c))). lra. }
  assert (AZ : - DZ <= z3 q - z3 (pos c) <= DZ).
  { unfold DZ. pose proof (Rmax_l (z3 (pos c)) (maxzpos - z3 (pos c))).
    pose proof (Rmax_r (z3 (pos c)) (maxzpos - z3 (pos c))). lra. }
  set (S := Square DX + Square DZ) in *.
  assert (S0 : 0 <= S) by (unfold S, Square; nra).
  assert (SS : sqrt S * sqrt S = S) by (apply sqrt_sqrt; exact S0).
  pose proof (sqrt_pos S) as SP.
  assert (A : 1 <= 1 - dot (forward c) UpVector)
    by (unfold dot, UpVector; cbn [x3 y3 z3]; lra).
  assert (B : sqrt S <= w) by nra.
  assert (C : (x3 q - x3 (pos c)) * (x3 q - x3 (pos c))
              + (z3 q - z3 (pos c)) * (z3 q - z3 (pos c)) <= S)
    by (unfold S, Square; nra).
  nra.
Qed.

(** The sample camera, looking along -z, reaches the map's corner at
    the origin; a camera looking straight up still gets the engine's
    constants. *)
Lemma ComputeViewRange_covers_witness :
  (x3 (mk3 0 0 0) - x3 (pos sampleCamera))
  * (x3 (mk3 0 0 0) - x3 (pos sampleCamera))
  + (z3 (mk3 0 0 0) - z3 (pos sampleCamera))
    * (z3 (mk3 0 0 0) - z3 (pos sampleCamera))
  <= snd (ComputeViewRange 8000 (28 / 10) 1024 1024 sampleCamera 0)
     * snd (ComputeViewRange 8000 (28 / 10) 1024 1024 sampleCamera 0)
  /\ 8000 <= snd (ComputeViewRange 8000 (28 / 10) 1024 1024 skyCamera 0)
  /\ 28 / 10 <= fst (ComputeViewRange 8000 (28 / 10) 1024 1024 skyCamera 0).
Proof.
  destruct (ComputeViewRange_covers 8000 (28 / 10) 1024 1024 sampleCamera 0
              ltac:(lra) ltac:(lra)) as (_ & _ & _ & H).
  destruct (ComputeViewRange_covers 8000 (28 / 10) 1024 1024 skyCamera 0
              ltac:(lra) ltac:(lra)) as (N & M & _).
  split; [ | split; [exact M | exact N]].
  apply H.
  - unfold sampleCamera; cbn [forward y3]; lra.
  - cbn [x3]; lra.
  - cbn [z3]; lra.
Defined.

(** *** Projection and view transform *)

(** X16.  The projection built by myGluPerspective is the symmetric
    frustum: a point at depth [d = -z] in front of the camera gets
    [w = d], its x and y are divided by [tanHalfFov * aspect] and
    [tanHalfFov], and its depth after the perspective division is -1 on
    the near plane, +1 on the far plane and strictly between for depths
    in between. *)
Theorem myGluPerspective_depth (m : CMatrix44f)
  (tanHalfFov aspect zNear zFar : R) (p : float3) :
  restZero m -> tanHalfFov <> 0 -> aspect <> 0 ->
  0 < zNear -> zNear < zFar ->
  let v := matVec (myGluPerspective tanHalfFov m aspect zNear zFar)
                  (point4 p) in
  w4 v = - z3 p
  /\ x4 v = x3 p / (tanHalfFov * aspect)
  /\ y4 v = y3 p / tanHalfFov
  /\ (z3 p = - zNear -> z4 v / w4 v = -1)
  /\ (z3 p = - zFar -> z4 v / w4 v = 1)
  /\ (zNear < - z3 p < zFar -> -1 < z4 v / w4 v < 1).
Proof.
  intros HR Ht Ha Hn Hf v. subst v.
  rewrite (myGluPerspective_apply m tanHalfFov aspect zNear zFar
             (point4 p) HR Ht Ha ltac:(lra)).
  unfold point4; cbn [x4 y4 z4 w4].
  repeat split.
  - intros E. rewrite E. field. lra.
  - intros E. rewrite E. field. lra.
  - destruct H as [H1 H2]. set (d := - z3 p) in *.
    replace (z3 p) with (- d) by (unfold d; ring).
    replace ((- (zFar + zNear) / (zFar - zNear) * - d
              + - (2 * zFar * zNear) / (zFar - zNear) * 1) / d)
      with (-1 + (2 * zFar * (d - zNear)) / (d * (zFar - zNear)))
      by (field; lra).
    assert (0 < (2 * zFar * (d - zNear)) / (d * (zFar - zNear))).
    { apply Rdiv_lt_0_compat; nra. }
    lra.
  - destruct H as [H1 H2]. set (d := - z3 p) in *.
    replace (z3 p) with (- d) by (unfold d; ring).
    replace ((- (zFar + zNear) / (zFar - zNear) * - d
              + - (2 * zFar * zNear) / (zFar - zNear) * 1) / d)
      with (1 - (2 * zNear * (zFar - d)) / (d * (zFar - zNear)))
      by (field; lra).
    assert (0 < (2 * zNear * (zFar - d)) / (d * (zFar - zNear))).
    { apply Rdiv_lt_0_compat; nra. }
    lra.
Qed.

Lemma restZero_sample : restZero (setm identityMatrix 15 0).
Proof. unfold restZero, setm, identityMatrix; cbn. repeat split; reflexivity. Qed.

Lemma affineRow_identity : affineRow identityMatrix.
Proof. unfold affineRow, identityMatrix. repeat split; reflexivity. Qed.

Lemma myGluPerspective_depth_witness :
  w4 (matVec (myGluPerspective 1 (setm identityMatrix 15 0) 1 1 2)
             (point4 (mk3 0 0 (-1)))) = - z3 (mk3 0 0 (-1)).
Proof.
  destruct (myGluPerspective_depth (setm identityMatrix 15 0) 1 1 1 2
              (mk3 0 0 (-1)) restZero_sample
              ltac:(lra) ltac:(lra) ltac:(lra) ltac:(lra)) as [H _].
  exact H.
Defined.

Lemma cross_self_dot (a b : float3) : dot (cross a b) a = 0.
Proof. unfold dot, cross; cbn [x3 y3 z3]. ring. Qed.

Lemma sub_as_scaled_Normalize (d : float3) :
  0 < SqLength d -> d = scale3 (Normalize d) (sqrt (SqLength d)).
Proof.
  intros H. pose proof (sqrt_lt_R0 _ H) as HS.
  unfold Normalize, scale3. destruct d as [x y z]; cbn [x3 y3 z3].
  f_equal; field; lra.
Qed.

(** X17.  The view matrix built by myGluLookAt moves the eye to the
    origin and the centre onto the negative z-axis, at its distance from
    the eye; points along [up] from the eye get x-coordinate 0 and a
    y-coordinate that is not negative. *)
Theorem myGluLookAt_eye_center (m : CMatrix44f) (eye center upv : float3) :
  affineRow m -> 0 < SqLength (sub3 center eye) ->
  let V := myGluLookAt m eye center upv in
  matVec V (point4 eye) = mk4 0 0 0 1
  /\ matVec V (point4 center)
     = mk4 0 0 (- sqrt (SqLength (sub3 center eye))) 1
  /\ x4 (matVec V (point4 (add3 eye upv))) = 0
  /\ 0 <= y4 (matVec V (point4 (add3 eye upv))).
Proof.
  intros HA HD V. subst V.
  rewrite !(myGluLookAt_apply m eye center upv _ HA).
  set (f := Normalize (sub3 center eye)).
  assert (Z : forall a, dot a (sub3 eye eye) = 0)
    by (intros; unfold dot, sub3; cbn [x3 y3 z3]; ring).
  assert (U : sub3 (add3 eye upv) eye = upv)
    by (destruct upv, eye; unfold sub3, add3; cbn [x3 y3 z3];
        f_equal; ring).
  pose proof (SqLength_Normalize _ HD) as F1. fold f in F1.
  repeat split.
  - rewrite !Z. f_equal. ring.
  - rewrite (sub_as_scaled_Normalize _ HD) at 1 2 3. fold f.
    rewrite !dot_scale_r.
    assert (E1 : dot (cross f upv) f = 0) by apply cross_self_dot.
    assert (E2 : dot (cross (cross f upv) f) f = 0)
      by (unfold dot, cross; cbn [x3 y3 z3]; ring).
    rewrite E1, E2. fold (SqLength f). rewrite F1. f_equal; ring.
  - cbn [x4]. rewrite U. unfold dot, cross; cbn [x3 y3 z3]. ring.
  - cbn [y4]. rewrite U.
    replace (dot (cross (cross f upv) f) upv)
      with (SqLength (cross f upv))
      by (unfold SqLength, dot, cross; cbn [x3 y3 z3]; ring).
    apply SqLength_nonneg.
Qed.

Lemma myGluLookAt_eye_center_witness :
  matVec (myGluLookAt identityMatrix (mk3 0 0 0) (mk3 0 0 1) (mk3 0 1 0))
         (point4 (mk3 0 0 0)) = mk4 0 0 0 1.
Proof.
  assert (H : 0 < SqLength (sub3 (mk3 0 0 1) (mk3 0 0 0)))
    by (unfold SqLength, dot, sub3; cbn [x3 y3 z3]; lra).
  destruct (myGluLookAt_eye_center identityMatrix (mk3 0 0 0) (mk3 0 0 1)
              (mk3 0 1 0) affineRow_identity H) as [E _].
  exact E.
Defined.

(** The view matrix UpdateMatrices builds for an orthonormal camera
    without offsets. *)
Lemma view_of_frame (c : CCamera) (m : CMatrix44f) (p : float3) :
  orthonormal c -> affineRow m ->
  matVec (myGluLookAt m (add3 (pos c) ZeroVector)
            (add3 (add3 (pos c) ZeroVector)
               (Normalize
                  (add3 (add3 (scale3 (forward c) (1 + z3 ZeroVector))
                              (scale3 (right c) (x3 ZeroVector)))
                        (scale3 (up c) (y3 ZeroVector)))))
            (up c)) (point4 p)
  = mk4 (dot (right c) (sub3 p (pos c))) (dot (up c) (sub3 p (pos c)))
        (- dot (forward c) (sub3 p (pos c))) 1.
Proof.
  intros HO HA.
  destruct (orthonormal_frame c HO)
    as (Hf & Hr & Hu & Hfr & Hrf & Hfu & Huf & Hru & Hur & Cfu & Crf).
  assert (E0 : add3 (pos c) ZeroVector = pos c)
    by (destruct (pos c); unfold add3, ZeroVector; cbn [x3 y3 z3];
        f_equal; ring).
  assert (E1 : add3 (add3 (scale3 (forward c) (1 + z3 ZeroVector))
                          (scale3 (right c) (x3 ZeroVector)))
                    (scale3 (up c) (y3 ZeroVector)) = forward c)
    by (destruct (forward c), (right c), (up c);
        unfold add3, scale3, ZeroVector; cbn [x3 y3 z3]; f_equal; ring).
  rewrite E0, E1, (Normalize_of_unit _ Hf).
  rewrite (myGluLookAt_apply m (pos c) (add3 (pos c) (forward c)) (up c) p HA).
  assert (E2 : sub3 (add3 (pos c) (forward c)) (pos c) = forward c)
    by (destruct (pos c), (forward c); unfold add3, sub3; cbn [x3 y3 z3];
        f_equal; ring).
  rewrite E2, (Normalize_of_unit _ Hf), Cfu, Crf. reflexivity.
Qed.

(** X18.  For an orthonormal camera without shake offsets the view
    matrix of UpdateMatrices expresses a point in the camera's own
    frame: the point [pos + a*right + b*up + d*forward] is mapped to
    [(a, b, -d, 1)]. *)
Theorem UpdateMatrices_camera_space (c : CCamera) (tanHalfFov : R)
  (aspectRatio zNear viewRange : R) (projectionMatrix viewMatrix : CMatrix44f)
  (a b d : R) :
  orthonormal c -> affineRow viewMatrix ->
  matVec (snd (fst (UpdateMatrices c tanHalfFov ZeroVector ZeroVector
                      aspectRatio zNear viewRange projectionMatrix
                      viewMatrix)))
         (point4 (add3 (pos c)
                    (add3 (add3 (scale3 (right c) a) (scale3 (up c) b))
                          (scale3 (forward c) d))))
  = mk4 a b (- d) 1.
Proof.
  intros HO HA. unfold UpdateMatrices. cbn [fst snd].
  rewrite (view_of_frame c viewMatrix _ HO HA).
  destruct (orthonormal_frame c HO)
    as (Hf & Hr & Hu & Hfr & Hrf & Hfu & Huf & Hru & Hur & Cfu & Crf).
  assert (E : forall q, sub3 (add3 (pos c) q) (pos c) = q)
    by (intros q; destruct (pos c), q; unfold add3, sub3; cbn [x3 y3 z3];
        f_equal; ring).
  rewrite E, !dot_add_r, !dot_scale_r.
  fold (SqLength (right c)). fold (SqLength (up c)).
  fold (SqLength (forward c)).
  rewrite Hf, Hr, Hu, Hfr, Hrf, Hfu, Huf, Hru, Hur.
  f_equal; ring.
Qed.

Lemma orthonormal_sample : orthonormal sampleCamera.
Proof.
  unfold orthonormal, sampleCamera, SqLength, dot, cross;
    cbn [forward right up x3 y3 z3].
  repeat split; try ring. f_equal; ring.
Qed.

Lemma UpdateMatrices_camera_space_witness :
  matVec (snd (fst (UpdateMatrices sampleCamera 1 ZeroVector ZeroVector
                      1 1 2 identityMatrix identityMatrix)))
         (point4 (add3 (pos sampleCamera)
                    (add3 (add3 (scale3 (right sampleCamera) 1)
                                (scale3 (up sampleCamera) 2))
                          (scale3 (forward sampleCamera) 3))))
  = mk4 1 2 (- 3) 1.
Proof.
  exact (UpdateMatrices_camera_space sampleCamera 1 1 1 2 identityMatrix
           identityMatrix 1 2 3 orthonormal_sample affineRow_identity).
Defined.

(** *** Picking *)

Lemma shiftr1_bounds (a : Z) :
  (2 * Z.shiftr a 1 <= a /\ a - 1 <= 2 * Z.shiftr a 1)%Z.
Proof.
  rewrite (Z.shiftr_div_pow2 a 1) by lia.
  change (2 ^ 1)%Z with 2%Z.
  pose proof (Z.div_mod a 2 ltac:(lia)) as E.
  pose proof (Z.mod_pos_bound a 2 ltac:(lia)) as B.
  lia.
Qed.

(** The vector CalcPixelDir normalises, for an orthonormal camera. *)
Lemma pixel_vector (c : CCamera) (dx dy : R) :
  orthonormal c ->
  let v := add3 (sub3 (forward c) (scale3 (up c) dy))
                (scale3 (right c) dx) in
  dot v (forward c) = 1 /\ dot v (right c) = dx /\ dot v (up c) = - dy
  /\ SqLength v = 1 + dx * dx + dy * dy.
Proof.
  intros HO v.
  destruct (orthonormal_frame c HO)
    as (Hf & Hr & Hu & Hfr & Hrf & Hfu & Huf & Hru & Hur & Cfu & Crf).
  unfold SqLength in *.
  assert (A : dot v (forward c) = 1)
    by (unfold v; rewrite dot_add_l, dot_sub_l, !dot_scale_l,
          Hf, Huf, Hrf; ring).
  assert (B : dot v (right c) = dx)
    by (unfold v; rewrite dot_add_l, dot_sub_l, !dot_scale_l,
          Hfr, Hur, Hr; ring).
  assert (C : dot v (up c) = - dy)
    by (unfold v; rewrite dot_add_l, dot_sub_l, !dot_scale_l,
          Hfu, Hu, Hru; ring).
  repeat split; try assumption.
  unfold v at 2. rewrite dot_add_r, dot_sub_r, !dot_scale_r, A, B, C. ring.
Qed.

Lemma pixel_norm_pos (dx dy : R) : 0 < / sqrt (1 + dx * dx + dy * dy).
Proof. apply Rinv_0_lt_compat, sqrt_lt_R0. nra. Qed.

(** X19.  For an orthonormal camera CalcPixelDir returns a vector of
    length 1 that points forward; measured against its forward
    component, its components along [right] and [up] are the pixel's
    offsets [dx] and [-dy] from the screen centre (in units of
    [2 * tanHalfFov] per screen height), so the pixel at the centre
    gives [forward] itself. *)
Theorem CalcPixelDir_frame (c : CCamera) (tanHalfFov : R)
  (viewSizeX viewSizeY viewPosX x y : Z) :
  orthonormal c ->
  let d := CalcPixelDir c tanHalfFov viewSizeX viewSizeY viewPosX x y in
  let dx := pixelDx tanHalfFov viewSizeX viewSizeY viewPosX x in
  let dy := pixelDy tanHalfFov viewSizeY y in
  SqLength d = 1
  /\ 0 < dot d (forward c)
  /\ dot d (right c) = dx * dot d (forward c)
  /\ dot d (up c) = - dy * dot d (forward c)
  /\ CalcPixelDir c tanHalfFov viewSizeX viewSizeY viewPosX
       (viewPosX + Z.shiftr (Z.max 1 viewSizeX) 1)
       (Z.shiftr (Z.max 1 viewSizeY) 1) = forward c.
Proof.
  intros HO d dx dy.
  destruct (pixel_vector c dx dy HO) as (A & B & C & L).
  pose proof (pixel_norm_pos dx dy) as K.
  assert (Ed : d = scale3 (add3 (sub3 (forward c) (scale3 (up c) dy))
                                (scale3 (right c) dx))
                          (/ sqrt (1 + dx * dx + dy * dy))).
  { unfold d, CalcPixelDir, Normalize. cbv zeta.
    fold (pixelDx tanHalfFov viewSizeX viewSizeY viewPosX x).
    fold (pixelDy tanHalfFov viewSizeY y). fold dx. fold dy.
    rewrite L. reflexivity. }
  rewrite Ed, !dot_scale_l, A, B, C.
  split; [ | split; [ | split; [ | split]]].
  - assert (P : 0 < SqLength (add3 (sub3 (forward c) (scale3 (up c) dy))
                                   (scale3 (right c) dx)))
      by (rewrite L; nra).
    pose proof (SqLength_Normalize _ P) as L'.
    unfold Normalize in L'. rewrite L in L'. exact L'.
  - lra.
  - ring.
  - ring.
  - unfold CalcPixelDir. cbv zeta.
    replace (viewPosX + Z.shiftr (Z.max 1 viewSizeX) 1 - viewPosX
             - Z.shiftr (Z.max 1 viewSizeX) 1)%Z with 0%Z by ring.
    replace (Z.shiftr (Z.max 1 viewSizeY) 1
             - Z.shiftr (Z.max 1 viewSizeY) 1)%Z with 0%Z by ring.
    destruct HO as (Hf & _).
    assert (E : add3 (sub3 (forward c)
                        (scale3 (up c)
                           (0 / IZR (Z.max 1 viewSizeY) * (tanHalfFov * 2))))
                  (scale3 (right c)
                     (0 / IZR (Z.max 1 viewSizeY) * (tanHalfFov * 2)))
                = forward c).
    { destruct (forward c), (up c), (right c).
      unfold add3, sub3, scale3; cbn [x3 y3 z3]. unfold Rdiv.
      f_equal; ring. }
    rewrite E. apply Normalize_of_unit. exact Hf.
Qed.

Lemma CalcPixelDir_frame_witness :
  CalcPixelDir sampleCamera 1 800 600 0
    (0 + Z.shiftr (Z.max 1 800) 1) (Z.shiftr (Z.max 1 600) 1)
  = forward sampleCamera.
Proof.
  destruct (CalcPixelDir_frame sampleCamera 1 800 600 0 0 0
              orthonormal_sample) as (_ & _ & _ & _ & H).
  exact H.
Defined.

Lemma Normalize_dot_sign (v w : float3) :
  0 < SqLength v -> 0 < SqLength w -> dot v w <= 0 ->
  dot (Normalize v) (Normalize w) <= 0.
Proof.
  intros Hv Hw H.
  pose proof (Rinv_0_lt_compat _ (sqrt_lt_R0 _ Hv)) as Kv.
  pose proof (Rinv_0_lt_compat _ (sqrt_lt_R0 _ Hw)) as Kw.
  unfold Normalize. rewrite dot_scale_l, dot_scale_r.
  set (a := / sqrt (SqLength v)) in *. set (b := / sqrt (SqLength w)) in *.
  assert (0 < a * b) by nra. nra.
Qed.

(** X20.  The rays of the screen's pixel rows stay between the top and
    bottom planes of the frustum: for an orthonormal camera with a
    positive [tanHalfFov], the direction CalcPixelDir gives for a row
    [0 <= y < viewSizeY] is on the inner side of the two planes
    UpdateFrustum computes from the same camera. *)
Theorem CalcPixelDir_between_planes (c : CCamera)
  (tanHalfFov halfFov aspectRatio : R)
  (frustumPlanes : FrustumPlane -> float3)
  (viewSizeX viewSizeY viewPosX x y : Z) :
  orthonormal c -> 0 < tanHalfFov ->
  (0 <= y < viewSizeY)%Z ->
  let planes :=
    UpdateFrustum c tanHalfFov halfFov aspectRatio frustumPlanes in
  let d := CalcPixelDir c tanHalfFov viewSizeX viewSizeY viewPosX x y in
  dot d (planes FRUSTUM_PLANE_TOP) <= 0
  /\ dot d (planes FRUSTUM_PLANE_BOT) <= 0.
Proof.
  intros HO Ht Hy planes d.
  set (dx := pixelDx tanHalfFov viewSizeX viewSizeY viewPosX x).
  set (dy := pixelDy tanHalfFov viewSizeY y).
  destruct (pixel_vector c dx dy HO) as (A & B & C & L).
  destruct (orthonormal_frame c HO)
    as (Hf & Hr & Hu & Hfr & Hrf & Hfu & Huf & Hru & Hur & Cfu & Crf).
  (* the row offset lies between -tanHalfFov and +tanHalfFov *)
  assert (M : Z.max 1 viewSizeY = viewSizeY) by lia.
  destruct (shiftr1_bounds viewSizeY) as [S1 S2].
  assert (V : 0 < IZR viewSizeY) by (apply IZR_lt; lia).
  assert (Edy : dy = tanHalfFov
                     * (IZR (2 * (y - Z.shiftr viewSizeY 1)) / IZR viewSizeY)).
  { unfold dy, pixelDy. rewrite M, mult_IZR. field. lra. }
  assert (Lo : - 1 <= IZR (2 * (y - Z.shiftr viewSizeY 1)) / IZR viewSizeY).
  { apply (Rmult_le_reg_r (IZR viewSizeY)); [exact V | ].
    replace (IZR (2 * (y - Z.shiftr viewSizeY 1)) / IZR viewSizeY
             * IZR viewSizeY)
      with (IZR (2 * (y - Z.shiftr viewSizeY 1))) by (field; lra).
    replace (-1 * IZR viewSizeY) with (IZR (- viewSizeY))
      by (rewrite opp_IZR; ring).
    apply IZR_le. lia. }
  assert (Hi : IZR (2 * (y - Z.shiftr viewSizeY 1)) / IZR viewSizeY <= 1).
  { apply (Rmult_le_reg_r (IZR viewSizeY)); [exact V | ].
    replace (IZR (2 * (y - Z.shiftr viewSizeY 1)) / IZR viewSizeY
             * IZR viewSizeY)
      with (IZR (2 * (y - Z.shiftr viewSizeY 1))) by (field; lra).
    rewrite Rmult_1_l. apply IZR_le. lia. }
  assert (Dy : - tanHalfFov <= dy <= tanHalfFov) by (rewrite Edy; nra).
  set (v := add3 (sub3 (forward c) (scale3 (up c) dy))
                 (scale3 (right c) dx)) in *.
  assert (Ed : d = Normalize v) by reflexivity.
  set (fy := scale3 (neg3 (forward c)) tanHalfFov).
  assert (Ftop : planes FRUSTUM_PLANE_TOP = Normalize (add3 fy (up c)))
    by reflexivity.
  assert (Fbot : planes FRUSTUM_PLANE_BOT = Normalize (sub3 fy (up c)))
    by reflexivity.
  assert (Lv : 0 < SqLength v) by (rewrite L; nra).
  assert (Qt : SqLength (add3 fy (up c)) = tanHalfFov * tanHalfFov + 1).
  { unfold SqLength, fy.
    rewrite dot_add_l, !dot_add_r, !dot_scale_l, !dot_scale_r,
      !dot_neg_l, !dot_neg_r.
    fold (SqLength (forward c)). fold (SqLength (up c)).
    rewrite Hf, Hu, Hfu, Huf. ring. }
  assert (Qb : SqLength (sub3 fy (up c)) = tanHalfFov * tanHalfFov + 1).
  { unfold SqLength, fy.
    rewrite dot_sub_l, !dot_sub_r, !dot_scale_l, !dot_scale_r,
      !dot_neg_l, !dot_neg_r.
    fold (SqLength (forward c)). fold (SqLength (up c)).
    rewrite Hf, Hu, Hfu, Huf. ring. }
  rewrite Ed, Ftop, Fbot. split.
  - apply Normalize_dot_sign; [exact Lv | rewrite Qt; nra | ].
    unfold fy. rewrite dot_add_r, dot_scale_r, dot_neg_r, A, C. lra.
  - apply Normalize_dot_sign; [exact Lv | rewrite Qb; nra | ].
    unfold fy. rewrite dot_sub_r, dot_scale_r, dot_neg_r, A, C. lra.
Qed.

Lemma CalcPixelDir_between_planes_witness :
  dot (CalcPixelDir sampleCamera 1 800 600 0 0 0)
      (UpdateFrustum sampleCamera 1 (PI / 4) (IZR 800 / IZR 600)
         (fun _ => ZeroVector) FRUSTUM_PLANE_TOP) <= 0.
Proof.
  destruct (CalcPixelDir_between_planes sampleCamera 1 (PI / 4)
              (IZR 800 / IZR 600) (fun _ => ZeroVector) 800 600 0 0 0
              orthonormal_sample ltac:(lra) ltac:(lia)) as [H _].
  exact H.
Defined.

(** *** From a pixel to its ray and back *)

Lemma even_shiftr1 (a : Z) :
  Z.even a = true -> IZR a / 2 = IZR (Z.shiftr a 1).
Proof.
  intros H. apply Z.even_spec in H as [k ->].
  rewrite (Z.shiftr_div_pow2 (2 * k) 1) by lia.
  change (2 ^ 1)%Z with 2%Z.
  rewrite (Z.mul_comm 2 k), Z.div_mul by lia.
  rewrite mult_IZR. field.
Qed.

(** X21.  Picking and projecting are inverse to each other after
    Update: for an orthonormal camera (kept as it is, or rebuilt from a
    rotation without roll) without shake offsets, on a window whose
    [aspectRatio] is width by height, a point at any positive distance
    along the ray CalcPixelDir gives for the pixel [(x, y)] is mapped by
    CalcWindowCoordinates back to that pixel, counted from the left edge
    of the view and from the bottom (up to half a pixel for odd
    sizes). *)
Theorem Update_pixel_round_trip
  (MAX_VIEW_RANGE NEAR_PLANE maxxpos maxzpos : R)
  (gr : CGlobalRendering) (v : CCameraView) (updateDirs : bool)
  (currMinHeight : R) (x y : Z) (dist : R) :
  (updateDirs = false -> orthonormal (cam v)) ->
  (updateDirs = true -> z3 (rot (cam v)) = 0) ->
  posOffset v = ZeroVector -> tiltOffset v = ZeroVector ->
  0 < tanHalfFov v ->
  (0 < viewSizeX gr)%Z -> (0 < viewSizeY gr)%Z ->
  aspectRatio gr = IZR (viewSizeX gr) / IZR (viewSizeY gr) ->
  restZero (projectionMatrix v) -> affineRow (viewMatrix v) ->
  0 < MAX_VIEW_RANGE -> 0 < NEAR_PLANE ->
  0 < dist ->
  let r := Update MAX_VIEW_RANGE NEAR_PLANE maxxpos maxzpos gr v updateDirs
                  currMinHeight in
  let dir := CalcPixelDir (cam (snd r)) (tanHalfFov (snd r))
               (viewSizeX (fst r)) (viewSizeY (fst r)) (viewPosX (fst r))
               x y in
  let w := CalcWindowCoordinates (viewProjectionMatrix (snd r))
             (viewport (snd r))
             (add3 (pos (cam (snd r))) (scale3 dir dist)) in
  x3 w = IZR (x - viewPosX gr - Z.shiftr (viewSizeX gr) 1)
         + IZR (viewSizeX gr) / 2
  /\ y3 w = IZR (viewSizeY gr) / 2 - IZR (y - Z.shiftr (viewSizeY gr) 1)
  /\ (Z.even (viewSizeX gr) = true -> x3 w = IZR (x - viewPosX gr))
  /\ (Z.even (viewSizeY gr) = true -> y3 w = IZR (viewSizeY gr - y)).
Proof.
  intros HO1 HO2 HpO HtO Ht Hsx Hsy Hasp HR HA HM HN Hd r dir w.
  set (c := if updateDirs then UpdateDirsFromRot (cam v) (rot (cam v))
            else cam v).
  assert (HO : orthonormal c).
  { unfold c. destruct updateDirs.
    - apply no_roll_orthonormal. apply HO2. reflexivity.
    - apply HO1. reflexivity. }
  set (wanted := wantedViewRange MAX_VIEW_RANGE maxxpos maxzpos c
                                 currMinHeight).
  assert (W1 : MAX_VIEW_RANGE <= wanted).
  { unfold wanted, wantedViewRange.
    eapply Rle_trans; [ | apply Rmax_l]. apply Rmax_l. }
  set (zn := NEAR_PLANE * (wanted / MAX_VIEW_RANGE)).
  set (vr := MAX_VIEW_RANGE * (wanted / MAX_VIEW_RANGE)).
  assert (Zn : 0 < zn).
  { unfold zn. apply Rmult_lt_0_compat; [exact HN | ].
    apply Rdiv_lt_0_compat; lra. }
  (* the state after Update *)
  assert (Ecam : cam (snd r) = c) by reflexivity.
  assert (Etan : tanHalfFov (snd r) = tanHalfFov v) by reflexivity.
  assert (Evx : viewSizeX (fst r) = viewSizeX gr) by reflexivity.
  assert (Evy : viewSizeY (fst r) = viewSizeY gr) by reflexivity.
  assert (Evp : viewPosX (fst r) = viewPosX gr) by reflexivity.
  assert (Eport : viewport (snd r) 0%nat = 0%Z /\ viewport (snd r) 1%nat = 0%Z
                  /\ viewport (snd r) 2%nat = viewSizeX gr
                  /\ viewport (snd r) 3%nat = viewSizeY gr)
    by (repeat split; reflexivity).
  assert (Evpm : viewProjectionMatrix (snd r)
                 = matMul (myGluPerspective (tanHalfFov v)
                             (projectionMatrix v) (aspectRatio gr) zn vr)
                          (snd (fst (UpdateMatrices c (tanHalfFov v)
                                       (posOffset v) (tiltOffset v)
                                       (aspectRatio gr) zn vr
                                       (projectionMatrix v) (viewMatrix v)))))
    by reflexivity.
  destruct Eport as (P0 & P1 & P2 & P3).
  unfold w, CalcWindowCoordinates. cbn [x3 y3].
  rewrite P0, P1, P2, P3, Evpm, matVec_matMul.
  unfold dir. rewrite Ecam, Etan, Evx, Evy, Evp.
  set (dx := pixelDx (tanHalfFov v) (viewSizeX gr) (viewSizeY gr)
                     (viewPosX gr) x).
  set (dy := pixelDy (tanHalfFov v) (viewSizeY gr) y).
  destruct (pixel_vector c dx dy HO) as (A & B & C & L).
  pose proof (pixel_norm_pos dx dy) as K.
  set (k := / sqrt (1 + dx * dx + dy * dy)) in *.
  assert (Ed : CalcPixelDir c (tanHalfFov v) (viewSizeX gr) (viewSizeY gr)
                 (viewPosX gr) x y
               = scale3 (add3 (sub3 (forward c) (scale3 (up c) dy))
                              (scale3 (right c) dx)) k).
  { unfold CalcPixelDir, Normalize. cbv zeta.
    fold (pixelDx (tanHalfFov v) (viewSizeX gr) (viewSizeY gr)
            (viewPosX gr) x).
    fold (pixelDy (tanHalfFov v) (viewSizeY gr) y). fold dx. fold dy.
    rewrite L. reflexivity. }
  rewrite Ed.
  set (pv := add3 (sub3 (forward c) (scale3 (up c) dy))
                  (scale3 (right c) dx)) in *.
  (* the point in camera space *)
  assert (Ev : matVec (snd (fst (UpdateMatrices c (tanHalfFov v)
                                   (posOffset v) (tiltOffset v)
                                   (aspectRatio gr) zn vr
                                   (projectionMatrix v) (viewMatrix v))))
                 (point4 (add3 (pos c) (scale3 (scale3 pv k) dist)))
               = mk4 (dist * k * dx) (- (dist * k * dy)) (- (dist * k)) 1).
  { rewrite HpO, HtO. unfold UpdateMatrices. cbn [fst snd].
    rewrite (view_of_frame c (viewMatrix v) _ HO HA).
    assert (E : forall q, sub3 (add3 (pos c) q) (pos c) = q)
      by (intros q; destruct (pos c), q; unfold add3, sub3;
          cbn [x3 y3 z3]; f_equal; ring).
    rewrite E, !dot_scale_r.
    rewrite (dot_comm (right c) pv), (dot_comm (up c) pv),
      (dot_comm (forward c) pv), A, B, C.
    f_equal; ring. }
  rewrite Ev.
  assert (Vx : 0 < IZR (viewSizeX gr)) by (apply IZR_lt; lia).
  assert (Vy : 0 < IZR (viewSizeY gr)) by (apply IZR_lt; lia).
  assert (Asp : aspectRatio gr <> 0).
  { rewrite Hasp. apply Rgt_not_eq, Rdiv_lt_0_compat; assumption. }
  rewrite (myGluPerspective_apply (projectionMatrix v) (tanHalfFov v)
             (aspectRatio gr) zn vr _ HR ltac:(lra) Asp ltac:(lra)).
  cbn [x4 y4 z4 w4].
  assert (Mx : Z.max 1 (viewSizeX gr) = viewSizeX gr) by lia.
  assert (My : Z.max 1 (viewSizeY gr) = viewSizeY gr) by lia.
  assert (DK : dist * k <> 0) by (apply Rgt_not_eq; nra).
  assert (X : 0 + IZR (viewSizeX gr)
                  * (dist * k * dx / (tanHalfFov v * aspectRatio gr)
                     / - - (dist * k) + 1) * (5 / 10)
              = IZR (x - viewPosX gr - Z.shiftr (viewSizeX gr) 1)
                + IZR (viewSizeX gr) / 2).
  { unfold dx, pixelDx. rewrite Mx, My, Hasp. field.
    repeat split; lra. }
  assert (Y : 0 + IZR (viewSizeY gr)
                  * (- (dist * k * dy) / tanHalfFov v / - - (dist * k) + 1)
                  * (5 / 10)
              = IZR (viewSizeY gr) / 2
                - IZR (y - Z.shiftr (viewSizeY gr) 1)).
  { unfold dy, pixelDy. rewrite My. field. repeat split; lra. }
  rewrite X, Y.
  split; [reflexivity | ]. split; [reflexivity | ]. split.
  - intros E. rewrite (even_shiftr1 _ E), <- plus_IZR. f_equal.
    apply Z.sub_add.
  - intros E. rewrite (even_shiftr1 _ E), <- minus_IZR. f_equal.
    destruct (shiftr1_bounds (viewSizeY gr)) as [S1 S2].
    apply Z.even_spec in E as [j Ej].
    revert S1 S2. generalize (Z.shiftr (viewSizeY gr) 1). intros s S1 S2.
    lia.
Qed.

Lemma Update_pixel_round_trip_witness :
  x3 (CalcWindowCoordinates
        (viewProjectionMatrix
           (snd (Update 8000 (28 / 10) 1024 1024 sampleRendering sampleView
                   false 0)))
        (viewport (snd (Update 8000 (28 / 10) 1024 1024 sampleRendering
                          sampleView false 0)))
        (add3 (pos sampleCamera)
           (scale3 (CalcPixelDir sampleCamera 1 800 600 0 100 50) 10)))
  = IZR (100 - 0).
Proof.
  destruct (Update_pixel_round_trip 8000 (28 / 10) 1024 1024
              sampleRendering sampleView false 0 100 50 10
              (fun _ => orthonormal_sample)
              (fun E : false = true =>
                 False_ind _ (Bool.diff_false_true E))
              eq_refl eq_refl ltac:(cbn; lra) ltac:(cbn; lia) ltac:(cbn; lia)
              eq_refl restZero_sample affineRow_identity
              ltac:(lra) ltac:(lra) ltac:(lra)) as (_ & _ & H & _).
  exact (H eq_refl).
Defined.

(** X22.  For a field of view strictly between 0 and 180 degrees SetFov
    stores a half angle strictly between 0 and a right angle and a
    positive [tanHalfFov]. *)
Theorem SetFov_positive (myfov : R) :
  0 < myfov < 180 ->
  let '(fov, halfFov, tanHalfFov) := SetFov myfov in
  fov = myfov /\ 0 < halfFov < PI / 2 /\ 0 < tanHalfFov.
Proof.
  intros [H0 H1]. unfold SetFov.
  pose proof PI_RGT_0 as P.
  assert (A : 0 < myfov * (5 / 10) * (PI / 180) < PI / 2).
  { split.
    - apply Rmult_lt_0_compat; lra.
    - replace (myfov * (5 / 10) * (PI / 180))
        with (PI / 2 * (myfov / 180)) by field.
      assert (myfov / 180 < 1) by lra.
      assert (0 < myfov / 180) by lra.
      nra. }
  split; [reflexivity | ]. split; [exact A | ].
  apply tan_gt_0; lra.
Qed.

Lemma SetFov_positive_witness : 0 < snd (SetFov 90).
Proof.
  pose proof (SetFov_positive 90 ltac:(lra)) as H.
  cbv beta iota zeta delta [SetFov] in H.
  destruct H as (_ & _ & H). exact H.
Defined.

(** X23.  What Update does to the camera that runs it, for every
    camera and rendering state: position, rotation, [halfFov] and
    [tanHalfFov] are kept, the viewport becomes
    (0, 0, viewSizeX, viewSizeY), the projection is built with the
    [zNear] and [viewRange] that the same call has computed, and its
    entry 11 is -1.  The shape of the two matrices is invariant: if the
    entries of the projection that myGluPerspective does not write are
    zero they stay zero, and if the fourth row of the view matrix is
    (0, 0, 0, 1) it stays so.  Where the projection's quotients are
    defined, that is for nonzero [tanHalfFov], [aspectRatio] and
    [NEAR_PLANE] and a positive [MAX_VIEW_RANGE], their divisors
    [r - l] and [t - b] are nonzero and the entries 8 and 9 are zero. *)
Theorem Update_keeps_shape
  (MAX_VIEW_RANGE NEAR_PLANE maxxpos maxzpos : R)
  (gr : CGlobalRendering) (v : CCameraView) (updateDirs : bool)
  (currMinHeight : R) :
  let r := Update MAX_VIEW_RANGE NEAR_PLANE maxxpos maxzpos gr v updateDirs
                  currMinHeight in
  let t := zNear (fst r) * tanHalfFov v in
  (pos (cam (snd r)) = pos (cam v) /\ rot (cam (snd r)) = rot (cam v)
   /\ tanHalfFov (snd r) = tanHalfFov v /\ halfFov (snd r) = halfFov v)
  /\ map (viewport (snd r)) (seq 0 4)
     = [0%Z; 0%Z; viewSizeX gr; viewSizeY gr]
  /\ projectionMatrix (snd r)
     = myGluPerspective (tanHalfFov v) (projectionMatrix v) (aspectRatio gr)
         (zNear (fst r)) (viewRange (fst r))
  /\ projectionMatrix (snd r) 11%nat = -1
  /\ (restZero (projectionMatrix v) -> restZero (projectionMatrix (snd r)))
  /\ (affineRow (viewMatrix v) -> affineRow (viewMatrix (snd r)))
  /\ (tanHalfFov v <> 0 -> aspectRatio gr <> 0 ->
      0 < MAX_VIEW_RANGE -> NEAR_PLANE <> 0 ->
      t * aspectRatio gr - - t * aspectRatio gr <> 0
      /\ t - - t <> 0
      /\ projectionMatrix (snd r) 8%nat = 0
      /\ projectionMatrix (snd r) 9%nat = 0).
Proof.
  intros r t.
  assert (EP : projectionMatrix (snd r)
               = myGluPerspective (tanHalfFov v) (projectionMatrix v)
                   (aspectRatio gr) (zNear (fst r)) (viewRange (fst r)))
    by reflexivity.
  assert (EV : exists eye center upv,
             viewMatrix (snd r) = myGluLookAt (viewMatrix v) eye center upv)
    by (eexists _, _, _; reflexivity).
  destruct EV as (eye & center & upv & EV).
  split; [ | split; [ | split; [ | split; [ | split; [ | split]]]]].
  - repeat split; destruct updateDirs; reflexivity.
  - reflexivity.
  - exact EP.
  - rewrite EP. reflexivity.
  - intros (R1 & R2 & R3 & R4 & R6 & R7 & R12 & R13 & R15).
    rewrite EP. unfold restZero, myGluPerspective, setm. cbn [Nat.eqb].
    repeat split; assumption.
  - intros (A3 & A7 & A11 & A15).
    rewrite EV. unfold affineRow, myGluLookAt, setm. cbn [Nat.eqb].
    repeat split; assumption.
  - intros Ht Ha HM HN.
    set (c := if updateDirs then UpdateDirsFromRot (cam v) (rot (cam v))
              else cam v).
    set (w := wantedViewRange MAX_VIEW_RANGE maxxpos maxzpos c
                              currMinHeight).
    assert (W1 : MAX_VIEW_RANGE <= w).
    { unfold w, wantedViewRange.
      eapply Rle_trans; [ | apply Rmax_l]. apply Rmax_l. }
    assert (EZ : zNear (fst r) = NEAR_PLANE * (w / MAX_VIEW_RANGE))
      by reflexivity.
    assert (Zn : zNear (fst r) <> 0).
    { rewrite EZ. apply Rmult_integral_contrapositive_currified;
        [exact HN | ].
      apply Rgt_not_eq, Rdiv_lt_0_compat; lra. }
    assert (T : t <> 0)
      by (apply Rmult_integral_contrapositive_currified; assumption).
    assert (TA : t * aspectRatio gr <> 0)
      by (apply Rmult_integral_contrapositive_currified; assumption).
    assert (D1 : t * aspectRatio gr - - t * aspectRatio gr <> 0)
      by (intros E; apply TA; lra).
    assert (D2 : t - - t <> 0) by (intros E; apply T; lra).
    split; [exact D1 | split; [exact D2 | ]].
    rewrite EP. unfold myGluPerspective, setm. cbn [Nat.eqb]. fold t.
    split; field; assumption.
Qed.

Lemma Update_keeps_shape_witness :
  restZero (projectionMatrix
              (snd (Update 8000 (28 / 10) 1024 1024 sampleRendering
                      sampleView false 0)))
  /\ affineRow (viewMatrix
                  (snd (Update 8000 (28 / 10) 1024 1024 sampleRendering
                          sampleView false 0)))
  /\ projectionMatrix
       (snd (Update 8000 (28 / 10) 1024 1024 sampleRendering sampleView
               false 0)) 8%nat = 0.
Proof.
  destruct (Update_keeps_shape 8000 (28 / 10) 1024 1024 sampleRendering
              sampleView false 0)
    as (_ & _ & _ & _ & H1 & H2 & H3).
  split; [exact (H1 restZero_sample) | ].
  split; [exact (H2 affineRow_identity) | ].
  assert (A : aspectRatio sampleRendering <> 0)
    by (unfold sampleRendering; cbn [aspectRatio]; apply Rgt_not_eq;
        apply Rdiv_lt_0_compat; lra).
  assert (T : tanHalfFov sampleView <> 0)
    by (unfold sampleView; cbn [tanHalfFov]; lra).
  destruct (H3 T A ltac:(lra) ltac:(lra)) as (_ & _ & E & _).
  exact E.
Defined.
End ExactMore.
